(** * caput.mpiarray: a shallow embedding of the distributed array

    The development follows [caput/mpiarray.py].  A rank's view of the world
    is explicit: a communicator value carries the size of the group and the
    rank of the process that holds it; local numpy buffers live in a
    per-rank heap so that views and copies can be told apart; a collective
    routine is a program of one rank that stops wherever the whole
    communicator has to take part, and the programs of all ranks are run
    in lock step.

    Python raises are modelled by [result]; Python integers by [Z] where
    they may be negative (indices, slice bounds) and by [nat] where the
    code only ever produces extents, ranks and axis numbers. *)

From stdpp Require Import list.

Local Set Warnings "-register-all,-clear-no-such-hyp".

(** ** Exceptions and results *)

Inductive exn :=
  | AxisException      (* caput.mpiarray.AxisException *)
  | LayoutException    (* the bare [Exception] raised by [wrap] *)
  | IndexError
  | ValueError
  | RuntimeError
  | TypeError
  | KeyError
  | ZeroDivisionError
  | MPIError           (* a request that completes with a failure status *)
  | Deadlock           (* not an exception: the rank never returns *)
  | Dangling.          (* not an exception: a handle without a buffer *)

Inductive result (A : Type) :=
  | Ok (a : A)
  | Raise (e : exn).
Arguments Ok {A} a.
Arguments Raise {A} e.

Global Instance result_ret : MRet result := λ A a, Ok a.
Global Instance result_bind : MBind result := λ A B f r,
  match r with Ok a => f a | Raise e => Raise e end.

Definition of_option {A} (e : exn) (o : option A) : result A :=
  match o with Some a => Ok a | None => Raise e end.

Definition is_ok {A} (r : result A) : bool :=
  match r with Ok _ => true | Raise _ => false end.

(** ** mpiutil: communicators and the balanced split *)

Module mpiutil.

(** A rank's handle on a communicator: the group size and the rank of the
    holder.  Membership is fixed. *)
Record Comm := mkComm { size : nat; rank : nat }.

(** Modelled from the spec: [mpiutil.split_m], [split_all] and
    [split_local] are not part of the sources at hand.  The spec gives
    the balanced split as: rank [r] gets extent
    [n//size + (1 if r < n%size else 0)], offsets are the exclusive
    prefix sum, and rank [r] owns [offset_r, offset_r + extent_r). *)
Definition extent (n m r : nat) : nat :=
  n / m + (if bool_decide (r < n `mod` m) then 1 else 0).

(** Closed form of the start of part [r]. *)
Definition offset_of (n m r : nat) : nat := r * (n / m) + r `min` (n `mod` m).

(** Exclusive running sum, started at [acc]. *)
Fixpoint cumsum (acc : nat) (part : list nat) : list nat :=
  match part with
  | [] => []
  | p :: ps => acc :: cumsum (acc + p) ps
  end.

(** Returns the triple (extents, starts, ends), one entry per part. *)
Definition split_m (n m : nat) : list nat * list nat * list nat :=
  let part := extent n m <$> seq 0 m in
  let starts := cumsum 0 part in
  (part, starts, zip_with Nat.add starts part).

(** A missing communicator stands for a serial run: one rank, numbered 0. *)
Definition comm_size (comm : option Comm) : nat :=
  match comm with Some c => size c | None => 1 end.
Definition comm_rank (comm : option Comm) : nat :=
  match comm with Some c => rank c | None => 0 end.

Definition split_all (n : nat) (comm : option Comm) :=
  split_m n (comm_size comm).

Definition split_local (n : nat) (comm : option Comm) : nat * nat * nat :=
  let '(part, starts, ends) := split_all n comm in
  let r := comm_rank comm in
  (part !!! r, starts !!! r, ends !!! r).

End mpiutil.

Import mpiutil.

(** ** numpy arrays

    An array is its shape together with its elements, nested one list per
    axis in C order.  The shape is kept next to the elements because an
    array with a zero extent has no elements to read the later extents
    from. *)

Inductive nested (T : Type) :=
  | Leaf (x : T)
  | Node (xs : list (nested T)).
Arguments Leaf {T} x.
Arguments Node {T} xs.

Record ndarray (T : Type) := mk_ndarray { shape : list nat; items : nested T }.
Arguments mk_ndarray {T} shape items.
Arguments shape {T} n.
Arguments items {T} n.

Definition children {T} (a : nested T) : list (nested T) :=
  match a with Leaf _ => [] | Node xs => xs end.

(** [has_shape s a]: the nesting of [a] is exactly the one [s] prescribes. *)
Fixpoint has_shape {T} (s : list nat) (a : nested T) : Prop :=
  match s, a with
  | [], Leaf _ => True
  | n :: s', Node xs => length xs = n ∧ Forall (has_shape s') xs
  | _, _ => False
  end.

Definition wf_ndarray {T} (a : ndarray T) : Prop := has_shape (shape a) (items a).

(** [np.full(s, x)]; also stands for freshly allocated, not yet written
    memory when [x] is the placeholder for uninitialised contents. *)
Fixpoint full {T} (s : list nat) (x : T) : nested T :=
  match s with
  | [] => Leaf x
  | n :: s' => Node (replicate n (full s' x))
  end.

(** Number of elements of an array of shape [s]. *)
Definition prod_list (s : list nat) : nat := foldr Nat.mul 1 s.

(** Basic slice [a[..., lo:hi, ...]] along axis [k], for bounds that are
    already non-negative: Python clips them to the extent, and an inverted
    range selects nothing. *)
Fixpoint slice_items {T} (k lo hi : nat) (a : nested T) : nested T :=
  match a with
  | Leaf x => Leaf x
  | Node xs =>
      match k with
      | 0 => Node (take (hi - lo) (drop lo xs))
      | S k' => Node (slice_items k' lo hi <$> xs)
      end
  end.

Definition nd_slice {T} (k lo hi : nat) (a : ndarray T) : ndarray T :=
  mk_ndarray (alter (λ n, (hi - lo) `min` (n - lo)) k (shape a))
             (slice_items k lo hi (items a)).

(** [np.array_split(arr, indices, axis)]: the division points are
    [0, indices..., n] and piece [i] is the slice between points [i] and
    [i+1]. *)
Definition np_array_split {T} (arr : ndarray T) (indices : list nat) (axis : nat)
    : list (ndarray T) :=
  let n := default 0 (shape arr !! axis) in
  (λ b, nd_slice axis b.1 b.2 arr) <$> zip (0 :: indices) (indices ++ [n]).

(** [a.flatten()]: the elements in C order. *)
Fixpoint flatten {T} (a : nested T) : list T :=
  match a with
  | Leaf x => [x]
  | Node xs => mjoin (flatten <$> xs)
  end.

(** Filling a buffer of shape [s] from a flat run of elements.  There is a
    result only when the run fits the buffer exactly. *)
Fixpoint unflatten {T} (s : list nat) (d : list T) : option (nested T) :=
  match s with
  | [] => match d with [x] => Some (Leaf x) | _ => None end
  | n :: s' =>
      if decide (length d = n * prod_list s')
      then Node <$> mapM (unflatten s') (reshape (replicate n (prod_list s')) d)
      else None
  end.

(** Joining two arrays along axis [k]. *)
Fixpoint cat2 {T} (k : nat) (a b : nested T) : nested T :=
  match a, b with
  | Node xs, Node ys =>
      match k with
      | 0 => Node (xs ++ ys)
      | S k' => Node (zip_with (cat2 k') xs ys)
      end
  | _, _ => a
  end.

Fixpoint cat_list {T} (k : nat) (b0 : nested T) (rest : list (nested T)) : nested T :=
  match rest with
  | [] => b0
  | b1 :: rest' => cat2 k b0 (cat_list k b1 rest')
  end.

Definition axis_extent {T} (axis : nat) (b : ndarray T) : nat :=
  default 0 (shape b !! axis).

(** [np.concatenate(bufs, axis)]: at least one array, the axis must exist,
    and all extents off the axis must agree. *)
Definition np_concatenate {T} (bufs : list (ndarray T)) (axis : nat) : result (ndarray T) :=
  match bufs with
  | [] => Raise ValueError
  | b0 :: rest =>
      _ ← of_option IndexError (shape b0 !! axis);
      if forallb (λ b, bool_decide (<[axis := 0]> (shape b) = <[axis := 0]> (shape b0))) rest
      then Ok (mk_ndarray (<[axis := sum_list (axis_extent axis <$> bufs)]> (shape b0))
                          (cat_list axis (items b0) (items <$> rest)))
      else Raise ValueError
  end.

(** [np.concatenate(bufs, axis, out)]: the result must fit [out]. *)
Definition np_concatenate_out {T} (bufs : list (ndarray T)) (axis : nat)
    (out_shape : list nat) : result (ndarray T) :=
  r ← np_concatenate bufs axis;
  if decide (shape r = out_shape) then Ok r else Raise ValueError.

(** ** Basic indexing

    Python [slice] objects, and numpy's basic indices: an integer or a
    slice per axis. *)

Record slice := mk_slice { start : option Z; stop : option Z; step : option Z }.

Inductive index :=
  | Int (i : Z)
  | Slice (s : slice).

Global Instance slice_eq_dec : EqDecision slice.
Proof. solve_decision. Defined.
Global Instance index_eq_dec : EqDecision index.
Proof. solve_decision. Defined.

(** [slice(None, None, None)] *)
Definition full_slice : slice := mk_slice None None None.

(** [s.indices(n)]: the start, stop and step of [s] on an axis of extent
    [n]. *)
Definition slice_indices (s : slice) (n : nat) : result (Z * Z * Z) :=
  let st := default 1%Z (step s) in
  if decide (st = 0)%Z then Raise ValueError
  else
    let lower := if decide (st < 0)%Z then (-1)%Z else 0%Z in
    let upper := if decide (st < 0)%Z then (Z.of_nat n - 1)%Z else Z.of_nat n in
    let adjust (bound : option Z) (missing : Z) : Z :=
      match bound with
      | None => missing
      | Some v => if decide (v < 0)%Z then Z.max (v + Z.of_nat n) lower else Z.min v upper
      end in
    Ok (adjust (start s) (if decide (st < 0)%Z then upper else lower),
        adjust (stop s) (if decide (st < 0)%Z then lower else upper),
        st).

(** [len(range(start, stop, step))] for a non-zero step. *)
Definition range_length (start stop step : Z) : nat :=
  if decide (0 < step)%Z
  then (if decide (start < stop)%Z then Z.to_nat ((stop - start - 1) / step + 1) else 0)
  else (if decide (stop < start)%Z then Z.to_nat ((start - stop - 1) / (- step) + 1) else 0).

(** The positions a slice selects on an axis of extent [n], in order. *)
Definition slice_positions (s : slice) (n : nat) : result (list nat) :=
  r ← slice_indices s n;
  Ok ((λ k, Z.to_nat (r.1.1 + Z.of_nat k * r.2)) <$> seq 0 (range_length r.1.1 r.1.2 r.2)).

(** The position an integer index selects: negative indices count from the
    end, anything outside the axis is an [IndexError]. *)
Definition int_position (i : Z) (n : nat) : result nat :=
  let i' := if decide (i < 0)%Z then (i + Z.of_nat n)%Z else i in
  if decide (0 ≤ i' < Z.of_nat n)%Z then Ok (Z.to_nat i') else Raise IndexError.

(** Shape of [a[v]], checked against the shape of [a] alone. *)
Fixpoint index_shape (sh : list nat) (v : list index) {struct v} : result (list nat) :=
  match v with
  | [] => Ok sh
  | ix :: v' =>
      match sh with
      | [] => Raise IndexError
      | n :: sh' =>
          match ix with
          | Int i => _ ← int_position i n; index_shape sh' v'
          | Slice s =>
              pos ← slice_positions s n;
              rest ← index_shape sh' v';
              Ok (length pos :: rest)
          end
      end
  end.

(** Elements of [a[v]], for indices that passed [index_shape]. *)
Fixpoint index_items {T} (v : list index) (a : nested T) {struct v} : nested T :=
  match v with
  | [] => a
  | ix :: v' =>
      match a with
      | Leaf x => Leaf x
      | Node xs =>
          match ix with
          | Int i =>
              match int_position i (length xs) with
              | Ok k => match xs !! k with Some x => index_items v' x | None => a end
              | Raise _ => a
              end
          | Slice s =>
              match slice_positions s (length xs) with
              | Ok pos => Node (index_items v' <$> omap (λ k, xs !! k) pos)
              | Raise _ => a
              end
          end
      end
  end.

(** [a[v]] for a tuple [v] of integers and slices. *)
Definition np_getitem {T} (a : ndarray T) (v : list index) : result (ndarray T) :=
  sh ← index_shape (shape a) v;
  Ok (mk_ndarray sh (index_items v (items a))).

(** Broadcasting for assignment: a value of shape [vs] fits a selection of
    shape [ss] when, aligned at the last axis, every extent of the value
    is the selection's or 1. *)
Fixpoint broadcastable_rev (vs ss : list nat) : bool :=
  match vs, ss with
  | [], _ => true
  | _ :: _, [] => false
  | v :: vs', s :: ss' => (bool_decide (v = s) || bool_decide (v = 1)) && broadcastable_rev vs' ss'
  end.

Definition broadcastable (vs ss : list nat) : bool :=
  broadcastable_rev (reverse vs) (reverse ss).

(** The value spread over the selection's shape [ss]. *)
Fixpoint broadcast_items {T} (ss vs : list nat) (val : nested T) : nested T :=
  match ss with
  | [] => val
  | s :: ss' =>
      if decide (length vs < length ss) then Node (replicate s (broadcast_items ss' vs val))
      else
        match vs, val with
        | v :: vs', Node ys =>
            if decide (v = s) then Node (broadcast_items ss' vs' <$> ys)
            else Node (replicate s (broadcast_items ss' vs' (default val (head ys))))
        | _, _ => val
        end
  end.

(** Writing [src], which has the shape of the selection, at [a[v]]. *)
Fixpoint assign_items {T} (v : list index) (a src : nested T) {struct v} : nested T :=
  match v with
  | [] => src
  | ix :: v' =>
      match a with
      | Leaf x => Leaf x
      | Node xs =>
          match ix with
          | Int i =>
              match int_position i (length xs) with
              | Ok k => Node (alter (λ x, assign_items v' x src) k xs)
              | Raise _ => a
              end
          | Slice s =>
              match slice_positions s (length xs) with
              | Ok pos =>
                  Node (foldl (λ acc kv, alter (λ x, assign_items v' x kv.2) kv.1 acc)
                          xs (zip pos (children src)))
              | Raise _ => a
              end
          end
      end
  end.

(** [a[v] = value] *)
Definition np_setitem {T} (a : ndarray T) (v : list index) (value : ndarray T)
    : result (ndarray T) :=
  sel ← index_shape (shape a) v;
  if broadcastable (shape value) sel
  then Ok (mk_ndarray (shape a)
             (assign_items v (items a) (broadcast_items sel (shape value) (items value))))
  else Raise ValueError.

(** ** Per-rank memory *)

Abbreviation loc := nat (only parsing).
Abbreviation heap T := (list (ndarray T)).

(** What a process holds: its handle on [mpiutil.world] and its buffers. *)
Record process (T : Type) := mkProcess { world : option Comm; mem : heap T }.
Arguments mkProcess {T} world mem.
Arguments world {T} p.
Arguments mem {T} p.

Definition alloc {T} (p : process T) (a : ndarray T) : process T * loc :=
  (mkProcess (world p) (mem p ++ [a]), length (mem p)).

Definition write {T} (p : process T) (l : loc) (a : ndarray T) : process T :=
  mkProcess (world p) (<[l := a]> (mem p)).

(** ** Collective programs

    A rank's run of a collective routine: local work up to the next point
    where the whole communicator has to take part, then the rest of the run
    as a function of what that point hands back. *)

Inductive reduce_op := SUM | MAX.

Global Instance reduce_op_eq_dec : EqDecision reduce_op.
Proof. solve_decision. Defined.

Record message (T : Type) := mkMessage { dest : nat; tag : nat; payload : list T }.
Arguments mkMessage {T} dest tag payload.
Arguments dest {T} m.
Arguments tag {T} m.
Arguments payload {T} m.

Inductive collective (T A : Type) :=
  | Done (r : result A)
  | Allreduce (op : reduce_op) (x : N) (k : N → collective T A)
  | Exchange (sends : list (message T)) (k : list (list (message T)) → collective T A).
Arguments Done {T A} r.
Arguments Allreduce {T A} op x k.
Arguments Exchange {T A} sends k.

Fixpoint collective_bind {T A B} (c : collective T A) (f : A → collective T B)
    : collective T B :=
  match c with
  | Done (Ok a) => f a
  | Done (Raise e) => Done (Raise e)
  | Allreduce op x k => Allreduce op x (λ v, collective_bind (k v) f)
  | Exchange sends k => Exchange sends (λ net, collective_bind (k net) f)
  end.

(** A rank's run followed by local work only. *)
Definition then_done {T A B} (c : collective T A) (h : A → result B) : collective T B :=
  collective_bind c (λ a, Done (h a)).

(** Modelled from the spec: [mpiutil.allreduce] is not part of the sources
    at hand; the spec has Allreduce with op in {SUM, MAX}, every rank
    receiving the reduction of all contributions. *)
Definition reduce (op : reduce_op) (xs : list N) : N :=
  match op with SUM => foldr N.add 0%N xs | MAX => foldr N.max 0%N xs end.

Definition is_done {T A} (c : collective T A) : bool :=
  match c with Done _ => true | _ => false end.
Definition at_allreduce {T A} (op : reduce_op) (c : collective T A) : bool :=
  match c with Allreduce op' _ _ => bool_decide (op' = op) | _ => false end.
Definition at_exchange {T A} (c : collective T A) : bool :=
  match c with Exchange _ _ => true | _ => false end.
Definition contribution {T A} (c : collective T A) : N :=
  match c with Allreduce _ x _ => x | _ => 0%N end.
Definition sends_of {T A} (c : collective T A) : list (message T) :=
  match c with Exchange sends _ => sends | _ => [] end.
Definition resume_reduce {T A} (v : N) (c : collective T A) : collective T A :=
  match c with Allreduce _ _ k => k v | _ => c end.
Definition resume_exchange {T A} (net : list (list (message T))) (c : collective T A)
    : collective T A :=
  match c with Exchange _ k => k net | _ => c end.

(** A rank that has returned keeps its result; a rank waiting at a point
    that not every rank has entered never returns. *)
Definition settle {T A} (c : collective T A) : result A :=
  match c with Done r => r | _ => Raise Deadlock end.

(** Lock-step run of one program per rank, rank [r] at position [r].  The
    fuel bounds the number of collective points; [None] only means that
    the fuel ran out. *)
Fixpoint run_world {T A} (fuel : nat) (progs : list (collective T A))
    : option (list (result A)) :=
  if forallb is_done progs then Some (settle <$> progs)
  else
    match fuel with
    | 0 => None
    | S fuel' =>
        match progs with
        | Allreduce op _ _ :: _ =>
            if forallb (at_allreduce op) progs
            then run_world fuel' (resume_reduce (reduce op (contribution <$> progs)) <$> progs)
            else Some (settle <$> progs)
        | Exchange _ _ :: _ =>
            if forallb at_exchange progs
            then run_world fuel' (resume_exchange (sends_of <$> progs) <$> progs)
            else Some (settle <$> progs)
        | _ => Some (settle <$> progs)
        end
    end.

(** ** MPIArray *)

(** The attributes set by [__new__], [wrap] and [__array_finalize__], and
    the buffer the object is a view of. *)
Record MPIArray (dtype : Type) := mkMPIArray {
  _global_shape : list nat;
  _axis : nat;
  _local_shape : list nat;
  _local_offset : list nat;
  _comm : option Comm;
  _dtype : dtype;
  base : loc
}.
Arguments mkMPIArray {dtype}.
Arguments _global_shape {dtype} m.
Arguments _axis {dtype} m.
Arguments _local_shape {dtype} m.
Arguments _local_offset {dtype} m.
Arguments _comm {dtype} m.
Arguments _dtype {dtype} m.
Arguments base {dtype} m.

Inductive warning :=
  | WarnCompoundDatatype   (* "Cannot redistribute array of compound datatypes." *)
  | WarnDirectIndex        (* "You are indexing directly into the distributed axis." *)
  | WarnDirectSubslice.    (* "You are directly sub-slicing the distributed axis." *)

(** A posted receive: where from, under which tag, into a buffer of which
    shape. *)
Record request := mkRequest { source : nat; rtag : nat; buffer_shape : list nat }.

(** What [global_slice[...]] is subscripted with: one index, or a tuple of
    indices in which [...] may occur. *)
Inductive slobj_item :=
  | Item (ix : index)
  | Ellipsis.

Inductive slobj :=
  | Single (ix : index)
  | Tuple (l : list slobj_item).

Global Instance slobj_item_eq_dec : EqDecision slobj_item.
Proof. solve_decision. Defined.

Definition is_int (ix : index) : bool :=
  match ix with Int _ => true | Slice _ => false end.

(** The pairs (ir, ic) in the order of the two nested loops over ranks. *)
Definition rank_pairs (size : nat) : list (nat * nat) :=
  ir ← seq 0 size; ic ← seq 0 size; [(ir, ic)].

(** What a ufunc is applied through: ["__call__"], ["reduce"],
    ["reduceat"], ["accumulate"], ["outer"], ["at"]. *)
Inductive method := Call | Reduce | Reduceat | Accumulate | Outer | At.

Global Instance method_eq_dec : EqDecision method.
Proof. solve_decision. Defined.

(** ["reduce" in method] *)
Definition names_reduce (meth : method) : bool :=
  match meth with Reduce | Reduceat => true | _ => false end.

(** A value of the [axis] keyword: [None], one integer, or a tuple of
    integers.  numpy counts a negative one from the last axis; the code
    compares the keyword as the number it is. *)
Inductive axis_arg := AxisNone | AxisInt (i : Z) | AxisTuple (l : list Z).

(** An input or an output of a ufunc, each a view of a buffer: an
    MPIArray, an MPIArray that has lost its attributes, as after pickling,
    any other array, or an MPIArray whose [axis] attribute is the negative
    number [axis], as [wrap] makes it when its axis argument is negative;
    [m] then has the other attributes, and the axis counted from the
    front. *)
Inductive operand (dtype : Type) :=
  | OpMPI (m : MPIArray dtype)
  | OpBare (l : loc)
  | OpArray (l : loc)
  | OpMPIAt (axis : Z) (m : MPIArray dtype).
Arguments OpMPI {dtype} m.
Arguments OpBare {dtype} l.
Arguments OpArray {dtype} l.
Arguments OpMPIAt {dtype} axis m.

(** The keywords [__array_ufunc__] looks at.  [kw_axis] and [kw_keepdims]
    are [None] when the keyword is absent; an absent [out] is []. *)
Record kwargs (dtype : Type) := mk_kwargs {
  kw_axis : option axis_arg;
  kw_out : list (option (operand dtype));
  kw_keepdims : option bool
}.
Arguments mk_kwargs {dtype}.
Arguments kw_axis {dtype} k.
Arguments kw_out {dtype} k.
Arguments kw_keepdims {dtype} k.

Inductive returned (dtype : Type) :=
  | NotImplemented
  | RetNone
  | RetOne (o : operand dtype)
  | RetTuple (os : list (operand dtype)).
Arguments NotImplemented {dtype}.
Arguments RetNone {dtype}.
Arguments RetOne {dtype} o.
Arguments RetTuple {dtype} os.

(** ** numpy: transposed views *)

(** The element at a full index. *)
Fixpoint item {T} (a : nested T) (idx : list nat) {struct idx} : option T :=
  match idx, a with
  | [], Leaf x => Some x
  | i :: idx', Node xs => x ← xs !! i; item x idx'
  | _, _ => None
  end.

(** The array of shape [s] that has [f idx] at every index [idx]. *)
Fixpoint tabulate {T} (s : list nat) (f : list nat → T) : nested T :=
  match s with
  | [] => Leaf (f [])
  | n :: s' => Node ((λ i, tabulate s' (λ idx, f (i :: idx))) <$> seq 0 n)
  end.

(** Where the element that a transposed array has at [idx] is in the
    source: axis [m] of the result is axis [axes[m]] of the source. *)
Definition source_index (perm : list nat) (idx : list nat) : list nat :=
  foldr (λ (mi : nat * nat) acc, <[mi.1 := mi.2]> acc) (replicate (length perm) 0)
        (zip perm idx).

(** The axes [np.ndarray.transpose] permutes by.  [None] and no argument
    reverse the axes; a negative entry counts from the last axis.
    Anything but a permutation of the axes is numpy's [ValueError] (for
    an entry out of range its [AxisError], which is a [ValueError]). *)
Definition transpose_axes (ndim : nat) (axes : option (list Z)) : result (list nat) :=
  match axes with
  | None => Ok (reverse (seq 0 ndim))
  | Some l =>
      match mapM (λ z, match int_position z ndim with Ok k => Some k | Raise _ => None end) l
      with
      | Some perm =>
          if decide (length perm = ndim ∧ NoDup perm) then Ok perm else Raise ValueError
      | None => Raise ValueError
      end
  end.

(** What [transpose] is called with: nothing, [None], or the axes, as
    one sequence or one by one (then there is at least one). *)
Inductive transpose_args :=
  | NoAxes
  | AxesNone
  | Axes (l : list Z).

(** [t[ax]] for a tuple [t]. *)
Definition tuple_item {A} (t : list A) (ax : Z) : result A :=
  k ← int_position ax (length t);
  of_option IndexError (t !! k).

Section Caput.

Context {T dtype mpitype : Type}.

(** Contents of memory that has been allocated but not written. *)
Variable uninit : T.

(** [mpiutil.typemap]: the wire type of an element type; [None] is its
    [KeyError]. *)
Variable typemap : dtype → option mpitype.

(** [self.local_array], [self.view(np.ndarray)] *)
Definition local_array (p : process T) (self : MPIArray dtype) : result (ndarray T) :=
  of_option Dangling (mem p !! base self).

(** [MPIArray.__new__(cls, global_shape, axis, comm, dtype=dt)] *)
Definition __new__ (p : process T) (global_shape : list nat) (axis : nat)
    (comm : option Comm) (dt : dtype) : result (process T * MPIArray dtype) :=
  let comm := match comm with None => world p | Some _ => comm end in
  n ← of_option IndexError (global_shape !! axis);
  let '(local_num, local_start, _) := split_local n comm in
  let lshape := <[axis := local_num]> global_shape in
  let loffset := <[axis := local_start]> (replicate (length global_shape) 0) in
  let '(p', l) := alloc p (mk_ndarray lshape (full lshape uninit)) in
  Ok (p', mkMPIArray global_shape axis lshape loffset comm dt l).

(** [self[:] = value] for a value of the shape of the local buffer.
    numpy would also broadcast a value of another, compatible shape;
    that is not modelled and is reported as the mismatch it is for
    incompatible shapes. *)
Definition assign_all (p : process T) (self : MPIArray dtype) (value : ndarray T)
    : result (process T) :=
  dst ← local_array p self;
  if decide (shape value = shape dst)
  then Ok (write p (base self) (mk_ndarray (shape dst) (items value)))
  else Raise ValueError.

(** [MPIArray.wrap(array, axis, comm)], [array] being the buffer at
    [array] with element type [dt]. *)
Definition wrap (p : process T) (array : loc) (dt : dtype) (axis : nat)
    (comm : option Comm) : collective T (MPIArray dtype) :=
  let comm := match comm with None => world p | Some _ => comm end in
  match mem p !! array with
  | None => Done (Raise Dangling)
  | Some arr =>
      match shape arr !! axis with
      | None => Done (Raise AxisException)
      | Some axlen =>
          Allreduce SUM (N.of_nat axlen) (λ total,
            let totallen := N.to_nat total in
            let '(local_num, local_start, _) := split_local totallen comm in
            Allreduce MAX (if bool_decide (axlen ≠ local_num) then 1%N else 0%N)
              (λ layout_issue,
                if bool_decide (layout_issue ≠ 0%N) then Done (Raise LayoutException)
                else
                  let lshape := shape arr in
                  let global_shape := <[axis := totallen]> lshape in
                  let loffset := <[axis := local_start]> (replicate (length lshape) 0) in
                  Done (Ok (mkMPIArray global_shape axis lshape loffset comm dt array))))
      end
  end.

(** *** redistribute *)

(** Everything [redistribute] computes before the first message: the
    shape of the new local section, the sends of this rank and the
    receives it posts. *)
Definition exchange_plan (comm : Comm) (self : MPIArray dtype) (arr : ndarray T)
    (axis : nat) : result (list nat * list (message T) * list request) :=
  n_new ← of_option IndexError (shape arr !! axis);
  let '(pc, _, _) := split_local n_new (Some comm) in
  n_cur ← of_option IndexError (_global_shape self !! _axis self);
  let '(_, sar, ear) := split_all n_cur (Some comm) in
  let '(_, sac, eac) := split_all n_new (Some comm) in
  _ ← of_option IndexError (_global_shape self !! axis);
  let new_shape := <[axis := pc]> (_global_shape self) in
  let blocks := tail (np_array_split arr ((sac !!! 0) :: eac) axis) in
  let sends :=
    omap (λ '(ir, ic),
      if decide (rank comm = ir)
      then Some (mkMessage ic (ir * size comm + ic)
                   (flatten (items (default (mk_ndarray [] (Leaf uninit)) (blocks !! ic)))))
      else None) (rank_pairs (size comm)) in
  let recvs :=
    omap (λ '(ir, ic),
      if decide (rank comm = ic)
      then Some (mkRequest ir (ir * size comm + ic)
                   (<[_axis self := ear !!! ir - sar !!! ir]>
                      (<[axis := eac !!! ic - sac !!! ic]> new_shape)))
      else None) (rank_pairs (size comm)) in
  Ok (new_shape, sends, recvs).

(** The message a posted receive is matched with: the first one its
    source sent to this rank under its tag. *)
Definition deliver (net : list (list (message T))) (me : nat) (rq : request)
    : option (list T) :=
  sent ← net !! source rq;
  payload <$> head (filter (λ m, dest m = me ∧ tag m = rtag rq) sent).

(** Waiting on a receive.  A missing message or one that does not fill
    the buffer exactly leaves the buffer undefined; both are reported
    as a failed request. *)
Definition receive (net : list (list (message T))) (me : nat) (rq : request)
    : result (ndarray T) :=
  data ← of_option MPIError (deliver net me rq);
  its ← of_option MPIError (unflatten (buffer_shape rq) data);
  Ok (mk_ndarray (buffer_shape rq) its).

(** The tail of [redistribute]: a fresh array over the new axis, filled
    with the transposed section. *)
Definition populate (p : process T) (self : MPIArray dtype) (axis : nat)
    (trans_arr : ndarray T) : result (process T * MPIArray dtype * list warning) :=
  '(p', dist_arr) ← __new__ p (_global_shape self) axis (_comm self) (_dtype self);
  p'' ← assign_all p' dist_arr trans_arr;
  Ok (p'', dist_arr, []).

(** [MPIArray.redistribute(self, axis)].  The result carries the state of
    the process afterwards and the warnings issued. *)
Definition redistribute (p : process T) (self : MPIArray dtype) (axis : nat)
    : collective T (process T * MPIArray dtype * list warning) :=
  match _comm self with
  | None => Done (Ok (p, self, []))
  | Some comm =>
      if decide (_axis self = axis) then Done (Ok (p, self, []))
      else
        match typemap (_dtype self) with
        | None =>
            Done (Ok (p, self,
                      if decide (rank comm = 0) then [WarnCompoundDatatype] else []))
        | Some _ =>
            match local_array p self with
            | Raise e => Done (Raise e)
            | Ok arr =>
                if decide (size comm = 1) then
                  Done (n_loc ← of_option IndexError (shape arr !! _axis self);
                        n_glob ← of_option IndexError (_global_shape self !! _axis self);
                        if decide (n_loc = n_glob) then populate p self axis arr
                        else Raise ValueError)
                else
                  match exchange_plan comm self arr axis with
                  | Raise e => Done (Raise e)
                  | Ok (new_shape, sends, recvs) =>
                      Exchange sends (λ net,
                        Done (buffers ← mapM (receive net (rank comm)) recvs;
                              trans_arr ← np_concatenate_out buffers (_axis self) new_shape;
                              populate p self axis trans_arr))
                  end
            end
        end
  end.

(** *** Direct subscripting: [MPIArray.__getitem__], [__setitem__] *)

(** What a subscript returns: [None], a plain numpy array or scalar, an
    MPIArray that is a view of its source (its attributes and what it
    shows), or an MPIArray with a buffer of its own. *)
Inductive fetched :=
  | Nothing
  | Plain (a : ndarray T)
  | View (m : MPIArray dtype) (a : ndarray T)
  | Fresh (m : MPIArray dtype).

(** [__array_finalize__(self, obj)] for a view of shape [lshape] taken
    from the MPIArray [obj]. *)
Definition __array_finalize__ (obj : MPIArray dtype) (lshape : list nat)
    : result (MPIArray dtype) :=
  let comm := _comm obj in
  let axis := _axis obj in
  axlen ← of_option AxisException (_global_shape obj !! axis);
  _ ← of_option IndexError (lshape !! axis);
  let global_shape := <[axis := axlen]> lshape in
  let '(_, local_start, _) := split_local axlen comm in
  let loffset := <[axis := local_start]> (replicate (length lshape) 0) in
  Ok (mkMPIArray global_shape axis lshape loffset comm (_dtype obj) (base obj)).

(** A subscript shorter than the number of axes is extended with full
    slices. *)
Definition pad_index (ndim : nat) (v : list index) : list index :=
  v ++ replicate (ndim - length v) (Slice full_slice).

(** The part of [__getitem__] that keeps the distributed axis whole: the
    result is an MPIArray again, a view when the axis keeps its number and
    a fresh array when integer indices before it lower the number. *)
Definition getitem_distributed (p : process T) (self : MPIArray dtype)
    (local : ndarray T) (v : list index) : result (process T * fetched) :=
  let kept := omap id (imap (λ k sl, if is_int sl then None else Some k) v) in
  dist_axis ← of_option AxisException (fst <$> list_find (λ k, k = _axis self) kept);
  if decide (dist_axis = _axis self) then
    r ← np_getitem local v;
    m ← __array_finalize__ self (shape r);
    Ok (p, View m r)
  else
    arr_sliced ← np_getitem local v;
    if decide (shape arr_sliced = []) then Ok (p, Plain arr_sliced)
    else
      n ← of_option IndexError (_global_shape self !! _axis self);
      _ ← of_option IndexError (shape arr_sliced !! dist_axis);
      let new_global_shape := <[dist_axis := n]> (shape arr_sliced) in
      '(p', arr_mpi) ← __new__ p new_global_shape dist_axis (_comm self) (_dtype self);
      p'' ← assign_all p' arr_mpi arr_sliced;
      Ok (p'', Fresh arr_mpi).

(** [MPIArray.__getitem__(self, v)], [v] a tuple of integers and slices.
    The warnings are those issued before the call returns or raises. *)
Definition __getitem__ (p : process T) (self : MPIArray dtype) (v : list index)
    : list warning * result (process T * fetched) :=
  let v := pad_index (length (_global_shape self)) v in
  match v !! _axis self, local_array p self with
  | None, _ => ([], Raise IndexError)
  | _, Raise e => ([], Raise e)
  | Some dist_axis_index, Ok local =>
      let direct : result bool :=
        if decide (dist_axis_index = Slice full_slice) then Ok false
        else
          n ← of_option IndexError (shape local !! _axis self);
          Ok (bool_decide
                (dist_axis_index ≠ Slice (mk_slice (Some 0%Z) (Some (Z.of_nat n)) None))) in
      match direct with
      | Raise e => ([], Raise e)
      | Ok true =>
          match dist_axis_index with
          | Int _ => ([WarnDirectIndex], r ← np_getitem local v; Ok (p, Plain r))
          | Slice _ => ([WarnDirectSubslice], r ← np_getitem local v; Ok (p, Plain r))
          end
      | Ok false => ([], getitem_distributed p self local v)
      end
  end.

(** [MPIArray.__setitem__(self, slobj, value)] *)
Definition __setitem__ (p : process T) (self : MPIArray dtype) (v : list index)
    (value : ndarray T) : result (process T) :=
  local ← local_array p self;
  new ← np_setitem local v value;
  Ok (write p (base self) new).

(** *** Global subscripting: [_global_resolver] *)

(** A single index is followed by [...]; a tuple that is too short and has
    no [...] gets one at the end; every [...] then becomes as many full
    slices as are missing. *)
Definition expand_slobj (ndim : nat) (so : slobj) : list index :=
  let its :=
    match so with
    | Single ix => [Item ix; Ellipsis]
    | Tuple l => if decide (length l < ndim ∧ Ellipsis ∉ l) then l ++ [Ellipsis] else l
    end in
  sl ← its;
  match sl with
  | Ellipsis => replicate (ndim + 1 - length its) (Slice full_slice)
  | Item ix => [ix]
  end.

(** A bound of a slice on the distributed axis, in local coordinates:
    counted from the end of the global axis when negative, then shifted
    by the offset of the rank. *)
Definition resolve_bound (bound : option Z) (glen offset : nat) (missing : Z) : Z :=
  match bound with
  | Some b => ((if decide (0 ≤ b)%Z then b else b + Z.of_nat glen) - Z.of_nat offset)%Z
  | None => missing
  end.

(** [_global_resolver._resolve_slice(self, slobj)] for the resolver of
    [self]; [None] entries are kept as [None]. *)
Definition _resolve_slice (p : process T) (self : MPIArray dtype) (so : slobj)
    : result (list (option index) * bool) :=
  offset ← of_option IndexError (_local_offset self !! _axis self);
  glen ← of_option IndexError (_global_shape self !! _axis self);
  local ← local_array p self;
  let ndim := length (shape local) in
  local_length ← of_option IndexError (shape local !! _axis self);
  let slice_list := expand_slobj ndim so in
  entry ← of_option IndexError (slice_list !! _axis self);
  match entry with
  | Int i =>
      let index := (i - Z.of_nat offset)%Z in
      Ok (<[_axis self :=
              if decide (index < 0 ∨ index >= Z.of_nat local_length)%Z then None
              else Some (Int index)]> (Some <$> slice_list),
          false)
  | Slice s =>
      let start' := resolve_bound (start s) glen offset 0%Z in
      let stop' := resolve_bound (stop s) glen offset (Z.of_nat local_length) in
      let fullslice := bool_decide (start s = None ∧ stop s = None ∧ step s = None) in
      Ok (<[_axis self :=
              if decide (start' >= Z.of_nat local_length ∨ stop' < 0)%Z then None
              else Some (Slice (mk_slice
                     (Some (Z.max (Z.min start' (Z.of_nat local_length)) 0))
                     (Some (Z.max (Z.min stop' (Z.of_nat local_length)) 0))
                     (step s)))]> (Some <$> slice_list),
          fullslice)
  end.

(** [_global_resolver.__getitem__(self, slobj)] *)
Definition resolver__getitem__ (p : process T) (self : MPIArray dtype) (so : slobj)
    : list warning * result (process T * fetched) :=
  match _resolve_slice p self so with
  | Raise e => ([], Raise e)
  | Ok (sl, is_fullslice) =>
      if is_fullslice then __getitem__ p self (default (Slice full_slice) <$> sl)
      else
        match sl !! _axis self with
        | Some None => ([], Ok (p, Nothing))
        | _ => ([], local ← local_array p self;
                    r ← np_getitem local (omap id sl);
                    Ok (p, Plain r))
        end
  end.

(** [_global_resolver.__setitem__(self, slobj, value)] *)
Definition resolver__setitem__ (p : process T) (self : MPIArray dtype) (so : slobj)
    (value : ndarray T) : result (process T) :=
  '(sl, _) ← _resolve_slice p self so;
  match sl !! _axis self with
  | Some None => Ok p
  | _ => __setitem__ p self (omap id sl) value
  end.

(** *** I/O partitions: [_partition_io] *)

(** [self.dtype.itemsize] *)
Variable itemsize : dtype → N.

Definition nbytes (self : MPIArray dtype) (local : ndarray T) : N :=
  itemsize (_dtype self) * N.of_nat (prod_list (shape local)).

(** [int(np.ceil(largest_size / threshold_bytes))] for a threshold of
    [num/den] GB, in exact arithmetic. *)
Definition num_split_of (largest_size : N) (num den : positive) : nat :=
  let threshold_num := (N.pos num * 2 ^ 30)%N in
  N.to_nat ((largest_size * N.pos den + (threshold_num - 1)) / threshold_num).

(** The [for ... else] loop over the candidate axes. *)
Fixpoint find_split_axis (self : MPIArray dtype) (num_split : nat) (candidates : list nat)
    : result nat :=
  match candidates with
  | [] => Raise RuntimeError
  | split_axis :: rest =>
      if decide (split_axis ≠ _axis self) then
        n ← of_option IndexError (_global_shape self !! split_axis);
        if decide (num_split ≤ n) then Ok split_axis
        else find_split_axis self num_split rest
      else find_split_axis self num_split rest
  end.

(** [_partition_io] once the largest local size is known.  The slices are
    given as pairs (start, stop).  [mpiutil.split_m], which is not among
    the sources at hand, divides by the number of parts. *)
Definition partition_plan (self : MPIArray dtype) (local : ndarray T) (skip : bool)
    (num den : positive) (largest_size : N) : result (nat * list (nat * nat)) :=
  let num_split := num_split_of largest_size num den in
  if skip || bool_decide (num_split = 1) then
    n0 ← of_option IndexError (_local_shape self !! 0);
    Ok (0, [(0, n0)])
  else if decide (length (shape local) = 1) then Raise RuntimeError
  else
    split_axis ← find_split_axis self num_split (seq 0 (length (shape local)));
    n ← of_option IndexError (_global_shape self !! split_axis);
    if decide (num_split = 0) then Raise ZeroDivisionError
    else
      let '(_, starts, ends) := split_m n num_split in
      Ok (split_axis, zip starts ends).

(** [MPIArray._partition_io(self, skip, threshold)] with
    [threshold = num/den]. *)
Definition _partition_io (p : process T) (self : MPIArray dtype) (skip : bool)
    (num den : positive) : collective T (nat * list (nat * nat)) :=
  match local_array p self with
  | Raise e => Done (Raise e)
  | Ok local =>
      Allreduce MAX (nbytes self local)
        (λ largest_size, Done (partition_plan self local skip num den largest_size))
  end.

(** *** __array_ufunc__ *)

Variable ufunc : Type.

(** [ufunc.nout] *)
Variable nout : ufunc → nat.

(** [super().__array_ufunc__(ufunc, method, *args, **kwargs)], numpy's own
    dispatch on plain arrays, given the arguments, [axis], [keepdims] and
    the views for [out]: the exception numpy raises, [None] for
    [NotImplemented], or the results, each with its element type, as the
    tuple the code makes of them.  For ["at"], which works in place, the
    one result is what the first argument holds afterwards. *)
Variable super__array_ufunc__ :
  ufunc → method → list (option (ndarray T)) → option axis_arg → option bool →
  list (option (ndarray T)) → result (option (list (ndarray T * dtype))).

Definition operand_base (o : operand dtype) : loc :=
  match o with OpMPI m | OpMPIAt _ m => base m | OpBare l | OpArray l => l end.

(** [output.axis], where [hasattr(output, "axis")]. *)
Definition operand_axis (o : operand dtype) : option Z :=
  match o with
  | OpMPI m => Some (Z.of_nat (_axis m))
  | OpMPIAt axis _ => Some axis
  | OpBare _ | OpArray _ => None
  end.

(** [if dist_axis is None: dist_axis = array.axis], and otherwise the
    check [dist_axis != array.axis]. *)
Definition same_axis (dist_axis : option Z) (axis : Z) : result (option Z) :=
  match dist_axis with
  | None => Ok (Some axis)
  | Some d => if decide (d ≠ axis) then Raise AxisException else Ok (Some d)
  end.

(** The loop of [_mpi_to_ndarray], with its two accumulators. *)
Fixpoint mpi_to_ndarray_loop (p : process T) (inputs : list (option (operand dtype)))
    (args : list (option (ndarray T))) (dist_axis : option Z)
    : result (list (option (ndarray T)) * option Z) :=
  match inputs with
  | [] => Ok (args, dist_axis)
  | None :: rest => mpi_to_ndarray_loop p rest (args ++ [None]) dist_axis
  | Some (OpBare _) :: _ => Raise AxisException
  | Some (OpMPI array) :: rest =>
      dist_axis ← same_axis dist_axis (Z.of_nat (_axis array));
      a ← local_array p array;
      mpi_to_ndarray_loop p rest (args ++ [Some a]) dist_axis
  | Some (OpMPIAt axis array) :: rest =>
      dist_axis ← same_axis dist_axis axis;
      a ← local_array p array;
      mpi_to_ndarray_loop p rest (args ++ [Some a]) dist_axis
  | Some (OpArray l) :: rest =>
      a ← of_option Dangling (mem p !! l);
      mpi_to_ndarray_loop p rest (args ++ [Some a]) dist_axis
  end.

(** [_mpi_to_ndarray(inputs)] *)
Definition _mpi_to_ndarray (p : process T) (inputs : list (option (operand dtype)))
    : result (list (option (ndarray T)) * option Z) :=
  mpi_to_ndarray_loop p inputs [] None.

(** ["axis" in kwargs and (kwargs["axis"] == dist_axis)]: the two are
    compared as they are, so that a negative keyword is never equal to
    the axis of an array that numbers it from the front. *)
Definition axis_is_dist_axis (axis : option axis_arg) (dist_axis : option Z) : bool :=
  match axis, dist_axis with
  | Some AxisNone, None => true
  | Some (AxisInt i), Some d => bool_decide (i = d)
  | _, _ => false
  end.

(** [if not kwargs.get("keepdims", False) and (kwargs["axis"] < dist_axis):
    dist_axis -= 1], on Python's integers: a negative keyword is below
    every axis numbered from the front. *)
Definition reduced_axis (kw : kwargs dtype) (dist_axis : option Z) : result (option Z) :=
  if default false (kw_keepdims kw) then Ok dist_axis
  else
    match kw_axis kw, dist_axis with
    | None, _ => Raise KeyError
    | Some (AxisInt i), Some d => Ok (Some (if bool_decide (i < d)%Z then (d - 1)%Z else d))
    | Some _, _ => Raise TypeError
    end.

(** The distributed axis of the results: moved down for a reducing method
    whose first result, or first output, has a shape. *)
Definition result_axis (p : process T) (meth : method) (kw : kwargs dtype)
    (results : list (ndarray T * dtype)) (outputs : list (option (operand dtype)))
    (dist_axis : option Z) : result (option Z) :=
  if names_reduce meth then
    first ← of_option IndexError (results !! 0);
    shaped ← match shape first.1 with
             | _ :: _ => Ok true
             | [] =>
                 output ← of_option IndexError (outputs !! 0);
                 match output with
                 | None => Ok false
                 | Some o =>
                     a ← of_option Dangling (mem p !! operand_base o);
                     Ok (bool_decide (shape a ≠ []))
                 end
             end;
    if shaped : bool then reduced_axis kw dist_axis else Ok dist_axis
  else Ok dist_axis.

(** What numpy has written through the views in [out]. *)
Fixpoint store_out (p : process T)
    (pairs : list ((ndarray T * dtype) * option (operand dtype))) : process T :=
  match pairs with
  | [] => p
  | (res, Some o) :: rest => store_out (write p (operand_base o) res.1) rest
  | (_, None) :: rest => store_out p rest
  end.

(** How [wrap] takes an integer [axis] for an array of shape [sh]: the
    axis it subscripts [array.shape], [global_shape] and [loffset] with,
    counted from the front, and the array it returns, whose attribute is
    [axis] as it is.  A negative [axis] that is not an axis of the array
    is the [IndexError] that [wrap] turns into [AxisException]. *)
Definition wrap_axis (sh : list nat) (axis : Z)
    : option (nat * (MPIArray dtype → operand dtype)) :=
  if decide (0 ≤ axis)%Z then Some (Z.to_nat axis, OpMPI)
  else
    match int_position axis (length sh) with
    | Ok k => Some (k, OpMPIAt axis)
    | Raise _ => None
    end.

(** The loop over [zip(results, outputs)] that builds [ret], and the
    [return] after it.  [wrap(result, axis=None)] is the [TypeError] of
    [array.shape[None]]. *)
Fixpoint wrap_results (p : process T) (dist_axis : option Z)
    (pairs : list ((ndarray T * dtype) * option (operand dtype)))
    (ret : list (operand dtype)) : collective T (process T * returned dtype) :=
  match pairs with
  | [] => Done (Ok (p, match ret with [o] => RetOne o | _ => RetTuple ret end))
  | (_, Some output) :: rest =>
      match operand_axis output with
      | Some axis =>
          if decide (Some axis ≠ dist_axis) then Done (Raise AxisException)
          else wrap_results p dist_axis rest (ret ++ [output])
      | None => wrap_results p dist_axis rest (ret ++ [output])
      end
  | (res, None) :: rest =>
      match shape res.1 with
      | _ :: _ =>
          match dist_axis with
          | None => Done (Raise TypeError)
          | Some axis =>
              let '(p', l) := alloc p res.1 in
              match wrap_axis (shape res.1) axis with
              | None => Done (Raise AxisException)
              | Some (k, made) =>
                  collective_bind (wrap p' l res.2 k None)
                    (λ m, wrap_results p' dist_axis rest (ret ++ [made m]))
              end
          end
      | [] =>
          let '(p', l) := alloc p (mk_ndarray [1] (Node [items res.1])) in
          collective_bind (wrap p' l res.2 0 None)
            (λ m, wrap_results p' dist_axis rest (ret ++ [OpMPI m]))
      end
  end.

(** [MPIArray.__array_ufunc__(self, ufunc, method, *inputs, **kwargs)] *)
Definition __array_ufunc__ (p : process T) (u : ufunc) (meth : method)
    (inputs : list (operand dtype)) (kw : kwargs dtype)
    : collective T (process T * returned dtype) :=
  match
    '(args, dist_axis) ← _mpi_to_ndarray p (Some <$> inputs);
    if axis_is_dist_axis (kw_axis kw) dist_axis then Raise AxisException
    else
      '(out_args, outputs) ← match kw_out kw with
                             | [] => Ok ([], replicate (nout u) None)
                             | outputs =>
                                 out ← _mpi_to_ndarray p outputs; Ok (out.1, outputs)
                             end;
      results ← super__array_ufunc__ u meth args (kw_axis kw) (kw_keepdims kw) out_args;
      Ok (dist_axis, outputs, results)
  with
  | Raise e => Done (Raise e)
  | Ok (_, _, None) => Done (Ok (p, NotImplemented))
  | Ok (dist_axis, outputs, Some results) =>
      if decide (meth = At)
      then Done (Ok (match inputs, results with
                     | o :: _, res :: _ => write p (operand_base o) res.1
                     | _, _ => p
                     end, RetNone))
      else
        let p := store_out p (zip results outputs) in
        match result_axis p meth kw results outputs dist_axis with
        | Raise e => Done (Raise e)
        | Ok dist_axis => wrap_results p dist_axis (zip results outputs) []
        end
  end.

(** *** gather *)

(** The receiving side of the loop of [gather], once the messages are
    there: for every rank [ri], with its extent and range [(n, s, e)],
    the buffer received from [ri] goes to the range [s:e] of the
    distributed axis of [arr]. *)
Fixpoint gather_place (net : list (list (message T))) (me : nat) (self : MPIArray dtype)
    (ndim : nat) (arr : ndarray T) (splits : list (nat * (nat * nat * nat)))
    : result (ndarray T) :=
  match splits with
  | [] => Ok arr
  | (ri, (n, s, e)) :: rest =>
      tbuf ← receive net me (mkRequest ri 0 (<[_axis self := n]> (_global_shape self)));
      let dest_slice :=
        <[_axis self := Slice (mk_slice (Some (Z.of_nat s)) (Some (Z.of_nat e)) None)]>
          (replicate ndim (Slice full_slice)) in
      arr' ← np_setitem arr dest_slice tbuf;
      gather_place net me self ndim arr' rest
  end.

(** [MPIArray.gather(self, rank)] for an array over the communicator
    [comm].  Every rank sends its local buffer once, without waiting;
    the receiving rank takes the buffers in rank order.  A request that
    fails is reported by [receive]; the code logs it and goes on. *)
Definition gather (comm : Comm) (p : process T) (self : MPIArray dtype) (rank_ : nat)
    : collective T (option (ndarray T)) :=
  match of_option IndexError (_global_shape self !! _axis self), local_array p self with
  | Raise e, _ | _, Raise e => Done (Raise e)
  | Ok n, Ok local =>
      let '(ns, ss, es) := split_all n (Some comm) in
      Exchange [mkMessage rank_ 0 (flatten (items local))]
        (λ net,
           if decide (rank comm = rank_) then
             Done (arr ← gather_place net (rank comm) self (length (shape local))
                           (mk_ndarray (_global_shape self)
                              (full (_global_shape self) uninit))
                           (imap (λ ri x, (ri, x)) (zip (zip ns ss) es));
                   Ok (Some arr))
           else Done (Ok None))
  end.

(** *** allgather *)

(** The loop of [allgather].  In the turn of rank [ri] every rank makes
    a buffer for the section of [ri]; rank [ri] fills it with its local
    array, and [Bcast] with root [ri] hands the root's buffer to every
    rank of the communicator, the root included.  Every rank then puts
    the buffer at the range [s:e] of the distributed axis of [arr]. *)
Fixpoint allgather_loop (comm : Comm) (self : MPIArray dtype) (local : ndarray T)
    (arr : ndarray T) (splits : list (nat * (nat * nat * nat)))
    : collective T (ndarray T) :=
  match splits with
  | [] => Done (Ok arr)
  | (ri, (n, s, e)) :: rest =>
      let tshape := <[_axis self := n]> (_global_shape self) in
      let tbuf := mk_ndarray tshape (full tshape uninit) in
      match (if decide (rank comm = ri)
             then np_setitem tbuf [Slice full_slice] local else Ok tbuf) with
      | Raise e => Done (Raise e)
      | Ok tbuf =>
          Exchange (if decide (rank comm = ri)
                    then (λ d, mkMessage d 0 (flatten (items tbuf))) <$> seq 0 (size comm)
                    else [])
            (λ net,
               let dest_slice :=
                 <[_axis self := Slice (mk_slice (Some (Z.of_nat s)) (Some (Z.of_nat e)) None)]>
                   (replicate (length (shape local)) (Slice full_slice)) in
               match (tbuf ← receive net (rank comm) (mkRequest ri 0 tshape);
                      np_setitem arr dest_slice tbuf) with
               | Raise e => Done (Raise e)
               | Ok arr' => allgather_loop comm self local arr' rest
               end)
      end
  end.

(** [MPIArray.allgather(self)] for an array over the communicator
    [comm]. *)
Definition allgather (comm : Comm) (p : process T) (self : MPIArray dtype)
    : collective T (ndarray T) :=
  match of_option IndexError (_global_shape self !! _axis self), local_array p self with
  | Raise e, _ | _, Raise e => Done (Raise e)
  | Ok n, Ok local =>
      let '(ns, ss, es) := split_all n (Some comm) in
      allgather_loop comm self local
        (mk_ndarray (_global_shape self) (full (_global_shape self) uninit))
        (imap (λ ri x, (ri, x)) (zip (zip ns ss) es))
  end.

(** *** reshape *)

(** [MPIArray.reshape(self, *shape)] for a shape given as one sequence,
    [None] standing for the distributed axis.  The result is a view of
    the buffer of [self]: numpy makes it, which runs
    [__array_finalize__], and the attributes are then set anew.  The
    bare [Exception] is the one [wrap] raises.  (The list function
    [reshape] has the short name.) *)
Definition MPIArray_reshape (p : process T) (self : MPIArray dtype)
    (shape_ : list (option nat))
    : result fetched :=
  new_axis ← of_option ValueError (fst <$> list_find (λ x, x = None) shape_);
  n_loc ← of_option IndexError (_local_shape self !! _axis self);
  n_glob ← of_option IndexError (_global_shape self !! _axis self);
  off ← of_option IndexError (_local_offset self !! _axis self);
  let local_shape := <[new_axis := Some n_loc]> shape_ in
  let global_shape := <[new_axis := Some n_glob]> shape_ in
  let local_offset := <[new_axis := off]> (replicate (length shape_) 0) in
  lshape ← of_option TypeError (mapM id local_shape);
  if decide (prod_list lshape ≠ prod_list (_local_shape self)) then Raise LayoutException
  else
    local ← local_array p self;
    its ← of_option ValueError (unflatten lshape (flatten (items local)));
    _ ← __array_finalize__ self lshape;
    gshape ← of_option TypeError (mapM id global_shape);
    Ok (View (mkMPIArray gshape new_axis lshape local_offset (_comm self) (_dtype self)
                (base self))
             (mk_ndarray lshape its)).

(** *** transpose *)

(** [np.ndarray.transpose(a, *axes)]; reading outside of the buffer, which
    an array of its shape never does, gives what is there. *)
Definition np_transpose (a : ndarray T) (axes : option (list Z)) : result (ndarray T) :=
  perm ← transpose_axes (length (shape a)) axes;
  let s := (λ k, default 0 (shape a !! k)) <$> perm in
  Ok (mk_ndarray s
        (tabulate s (λ idx, default uninit (item (items a) (source_index perm idx))))).

(** [MPIArray.transpose(self, *axes)] for the array [self] with the
    contents [local].  numpy makes the view, which runs
    [__array_finalize__]; the attributes are then set from [axes] as
    they were passed. *)
Definition transpose_view (self : MPIArray dtype) (local : ndarray T) (args : transpose_args)
    : result (MPIArray dtype * ndarray T) :=
  tdata ← np_transpose local (match args with Axes l => Some l | _ => None end);
  _ ← __array_finalize__ self (shape tdata);
  axes ← match args with
         | Axes l => Ok l
         | NoAxes => Ok (Z.of_nat <$> reverse (seq 0 (length (shape local))))
         | AxesNone => Raise TypeError   (* [self.global_shape[None]] *)
         end;
  global_shape ← mapM (tuple_item (_global_shape self)) axes;
  local_shape ← mapM (tuple_item (_local_shape self)) axes;
  local_offset ← mapM (tuple_item (_local_offset self)) axes;
  axis ← of_option ValueError (fst <$> list_find (λ z, z = Z.of_nat (_axis self)) axes);
  Ok (mkMPIArray global_shape axis local_shape local_offset (_comm self) (_dtype self)
        (base self),
      tdata).

Definition transpose (p : process T) (self : MPIArray dtype) (args : transpose_args)
    : result fetched :=
  local ← local_array p self;
  r ← transpose_view self local args;
  Ok (View r.1 r.2).

(** *** enumerate, copy *)

(** [MPIArray.enumerate(self, axis)]: the pairs (local index, global
    index) of [enumerate(range(start, end))]. *)
Definition enumerate (self : MPIArray dtype) (axis : nat) : result (list (nat * nat)) :=
  start ← of_option IndexError (_local_offset self !! axis);
  n ← of_option IndexError (_local_shape self !! axis);
  let end_ := start + n in
  Ok (imap (λ i g, (i, g)) (seq start (end_ - start))).

(** [MPIArray.copy(self)]: [self.view(np.ndarray).copy()] is a new buffer
    with the contents of the local one. *)
Definition copy (p : process T) (self : MPIArray dtype)
    : collective T (process T * MPIArray dtype) :=
  match local_array p self with
  | Raise e => Done (Raise e)
  | Ok local =>
      let '(p', l) := alloc p local in
      then_done (wrap p' l (_dtype self) (_axis self) (_comm self)) (λ m, Ok (p', m))
  end.

End Caput.

(** ** Selections for file I/O

    The helpers at the end of the module, on selections that are
    sequences of slices. *)

(** [_len_slice(slice_, n)]; [//] rounds down, as [Z.div] does. *)
Definition _len_slice (slice_ : slice) (n : nat) : result Z :=
  r ← slice_indices slice_ n;
  Ok (1 + (r.1.2 - r.1.1 - 1) `div` r.2)%Z.

(** [_reslice(slice_, n, subslice)] *)
Definition _reslice (slice_ : slice) (n : nat) (subslice : slice) : result slice :=
  r ← slice_indices slice_ n;
  let '(dstart, dstop, dstep) := r in
  if match step subslice with Some k => bool_decide (1 < k)%Z | None => false end
  then Raise ValueError
  else
    a ← of_option TypeError (start subslice);
    b ← of_option TypeError (stop subslice);
    Ok (mk_slice (Some (dstart + a * dstep)%Z)
                 (Some (Z.min (dstart + b * dstep) dstop))
                 (Some dstep)).

(** [_expand_sel(sel, naxis)] *)
Definition _expand_sel (sel : option (list slice)) (naxis : nat) : list slice :=
  let sel := match sel with None => replicate naxis full_slice | Some sel => sel end in
  if decide (length sel < naxis)
  then sel ++ replicate (naxis - length sel) full_slice
  else sel.

(** [_partition_sel(sel, split_axis, n, slice_)]: the selection in the
    initial space and the selection in the final space. *)
Definition _partition_sel (sel : list slice) (split_axis n : nat) (slice_ : slice)
    : result (list slice * list slice) :=
  s ← of_option IndexError (sel !! split_axis);
  slice_init ← _reslice s n slice_;
  let sel_final := <[split_axis := slice_]> (replicate (length sel) full_slice) in
  let sel_initial := <[split_axis := slice_init]> sel in
  Ok (sel_initial, sel_final).

(** ** Specification vocabulary *)

Section Invariant.

Context {T dtype : Type}.

(** The attributes of rank [r]'s part of an array of global shape [gs]
    split along [ax] over [sz] ranks, as [__new__] and [wrap] set them. *)
Definition metadata (sz : nat) (gs : list nat) (ax : nat) (dt : dtype) (r : nat)
    (l : loc) : MPIArray dtype :=
  let n := default 0 (gs !! ax) in
  mkMPIArray gs ax (<[ax := extent n sz r]> gs)
    (<[ax := offset_of n sz r]> (replicate (length gs) 0))
    (Some (mkComm sz r)) dt l.

(** The invariant of a distributed array held by [sz] processes: every
    rank has the attributes above and a buffer of its local shape. *)
Definition distributed (sz : nat) (gs : list nat) (ax : nat) (dt : dtype)
    (ps : list (process T)) (As : list (MPIArray dtype)) : Prop :=
  length ps = sz ∧ length As = sz ∧ ax < length gs ∧
  ∀ r p A, ps !! r = Some p → As !! r = Some A →
    A = metadata sz gs ax dt r (base A) ∧
    ∃ arr, mem p !! base A = Some arr ∧ shape arr = _local_shape A ∧ wf_ndarray arr.

(** Rank [r]'s section of the global contents [G] split along [ax]. *)
Definition section_of (G : nested T) (sz : nat) (gs : list nat) (ax r : nat) : nested T :=
  let n := default 0 (gs !! ax) in
  slice_items ax (offset_of n sz r) (offset_of n sz (S r)) G.

(** The messages rank [r] sends when the array with contents [G], split
    along [i], moves onto axis [j]. *)
Definition block_sends (G : nested T) (sz : nat) (gs : list nat) (i j r : nat)
    : list (message T) :=
  (λ ic, mkMessage ic (r * sz + ic)
           (flatten (section_of (section_of G sz gs i r) sz gs j ic))) <$> seq 0 sz.

(** The same, for the array whose global contents are [G]. *)
Definition sections_of (G : nested T) (sz : nat) (gs : list nat) (ax : nat) (dt : dtype)
    (ps : list (process T)) (As : list (MPIArray dtype)) : Prop :=
  length ps = sz ∧ length As = sz ∧ ax < length gs ∧
  ∀ r p A, ps !! r = Some p → As !! r = Some A →
    A = metadata sz gs ax dt r (base A) ∧
    mem p !! base A = Some (mk_ndarray (_local_shape A) (section_of G sz gs ax r)).

(** The logical global array: the local sections joined in rank order
    along the distributed axis, into an array of the global shape. *)
Definition global_array (ps : list (process T)) (As : list (MPIArray dtype))
    : result (ndarray T) :=
  match As with
  | [] => Raise ValueError
  | A0 :: _ =>
      locals ← mapM (λ w, of_option Dangling (mem w.1 !! base w.2)) (zip ps As);
      np_concatenate_out locals (_axis A0) (_global_shape A0)
  end.

(** The processes and the arrays in the results of a collective call. *)
Definition states {W : Type} (outs : list (process T * MPIArray dtype * W))
    : list (process T) := (λ o, o.1.1) <$> outs.
Definition arrays {W : Type} (outs : list (process T * MPIArray dtype * W))
    : list (MPIArray dtype) := (λ o, o.1.2) <$> outs.

(** The state [redistribute] leaves on rank [r] when it moves the array
    with contents [G] onto axis [ax]. *)
Definition redistributed (G : nested T) (sz : nat) (gs : list nat) (ax : nat) (dt : dtype)
    (r : nat) (p : process T) : process T * MPIArray dtype * list warning :=
  let A := metadata sz gs ax dt r (length (mem p)) in
  (mkProcess (world p) (mem p ++ [mk_ndarray (_local_shape A) (section_of G sz gs ax r)]),
   A, []).

(** An operand [_mpi_to_ndarray] takes on process [p] without raising
    when the distributed axis is [d]: its buffer is there, and an MPIArray
    has its attributes and is distributed along [d]. *)
Definition shares_axis (p : process T) (d : nat) (o : operand dtype) : Prop :=
  is_Some (mem p !! operand_base o) ∧
  match o with
  | OpMPI m => _axis m = d
  | OpBare _ | OpMPIAt _ _ => False
  | OpArray _ => True
  end.

Definition is_mpi (o : operand dtype) : Prop := ∃ m, o = OpMPI m.

(** The arguments numpy gets for [inputs]. *)
Definition views (p : process T) (inputs : list (operand dtype)) : list (option (ndarray T)) :=
  (λ o, mem p !! operand_base o) <$> inputs.

(** [np.reshape(result, (1,))] for a scalar result; any other result as
    it is. *)
Definition boxed (res : ndarray T) : ndarray T :=
  match shape res with [] => mk_ndarray [1] (Node [items res]) | _ :: _ => res end.

(** What [wrap] returns on rank [r] of [sz] for the buffer [arr] at [l],
    once [totallen] is agreed and the layout check has passed. *)
Definition wrapped (sz axis : nat) (dt : dtype) (totallen r : nat) (arr : ndarray T)
    (l : loc) : MPIArray dtype :=
  mkMPIArray (<[axis := totallen]> (shape arr)) axis (shape arr)
    (<[axis := offset_of totallen sz r]> (replicate (length (shape arr)) 0))
    (Some (mkComm sz r)) dt l.

(** Every rank of a communicator calling [wrap], rank [r] on the buffer at
    position [r] of [ws]. *)
Definition wrap_all (dt : dtype) (axis : nat) (ws : list (process T * loc * ndarray T))
    : list (collective T (MPIArray dtype)) :=
  imap (λ r w, wrap w.1.1 w.1.2 dt axis (Some (mkComm (length ws) r))) ws.

End Invariant.

(** ** numpy.add on integers

    [np.add] in the two applications that the statements on ufuncs are
    run on: two arrays of one shape added element by element, and the
    reduction of one array over all its axes.  Every other application is
    outside this stand-in, which answers it with [NotImplemented]. *)

Fixpoint add_items (a b : nested Z) : nested Z :=
  match a, b with
  | Leaf x, Leaf y => Leaf (x + y)%Z
  | Node xs, Node ys => Node (zip_with add_items xs ys)
  | _, _ => a
  end.

(** The serial sum of all the elements of an array of integers, exact:
    it stands for numpy's sum only on the small integers of the examples,
    where neither rounding nor wrap-around occurs. *)
Definition np_sum (a : nested Z) : Z := foldr Z.add 0%Z (flatten a).

Definition np_add (u : ()) (meth : method) (args : list (option (ndarray Z)))
    (axis : option axis_arg) (keepdims : option bool) (out : list (option (ndarray Z)))
    : result (option (list (ndarray Z * ()))) :=
  match meth, args, axis, out with
  | Call, [Some a; Some b], None, [] =>
      if decide (shape a = shape b)
      then Ok (Some [(mk_ndarray (shape a) (add_items (items a) (items b)), ())])
      else Ok None
  | Reduce, [Some a], Some AxisNone, [] =>
      Ok (Some [(mk_ndarray [] (Leaf (np_sum (items a))), ())])
  | _, _, _, _ => Ok None
  end.

(** * Properties *)

(** ** The balanced split *)

Lemma cumsum_length acc part : length (cumsum acc part) = length part.
Proof. revert acc. induction part as [|p ps IH]; intros acc; simpl; [done|]. by rewrite IH. Qed.

Lemma cumsum_lookup acc part r :
  r < length part → cumsum acc part !! r = Some (acc + sum_list (take r part)).
Proof.
  revert acc r. induction part as [|p ps IH]; intros acc r Hr; simpl in *; [lia|].
  destruct r as [|r]; simpl.
  - f_equal. lia.
  - rewrite IH by lia. f_equal. lia.
Qed.

Lemma extent_cases n m r :
  extent n m r = n / m + 1 ∧ r < n `mod` m ∨ extent n m r = n / m ∧ n `mod` m ≤ r.
Proof. unfold extent. case_bool_decide; [left|right]; lia. Qed.

Lemma sum_extent_prefix n m k a :
  sum_list (extent n m <$> seq a k) =
    k * (n / m) + (min (a + k) (n `mod` m) - min a (n `mod` m)).
Proof.
  revert a. induction k as [|k IH]; intros a; simpl; [lia|].
  rewrite IH. destruct (extent_cases n m a) as [[-> ?]|[-> ?]]; lia.
Qed.

Lemma split_parts_length n m : length (extent n m <$> seq 0 m) = m.
Proof. by rewrite length_fmap, length_seq. Qed.

Lemma split_parts_lookup n m r :
  r < m → (extent n m <$> seq 0 m) !! r = Some (extent n m r).
Proof. intros Hr. by rewrite list_lookup_fmap, lookup_seq_lt. Qed.

Lemma split_parts_take_sum n m r :
  r ≤ m → sum_list (take r (extent n m <$> seq 0 m)) = r * (n / m) + min r (n `mod` m).
Proof.
  intros Hr. rewrite <-fmap_take, take_seq, Nat.min_l by done.
  rewrite (sum_extent_prefix n m r 0). simpl. lia.
Qed.

Lemma split_parts_sum n m : 0 < m → sum_list (extent n m <$> seq 0 m) = n.
Proof.
  intros Hm. rewrite (sum_extent_prefix n m m 0). simpl.
  pose proof (Nat.div_mod_eq n m). pose proof (Nat.mod_upper_bound n m). lia.
Qed.

Lemma offset_of_0 n m : offset_of n m 0 = 0.
Proof. unfold offset_of. lia. Qed.

Lemma offset_of_S n m r : offset_of n m (S r) = offset_of n m r + extent n m r.
Proof. unfold offset_of. destruct (extent_cases n m r) as [[-> ?]|[-> ?]]; lia. Qed.

Lemma offset_of_total n m : 0 < m → offset_of n m m = n.
Proof.
  intros Hm. unfold offset_of.
  pose proof (Nat.div_mod_eq n m). pose proof (Nat.mod_upper_bound n m). lia.
Qed.

Lemma offset_of_mono n m r s : r ≤ s → offset_of n m r ≤ offset_of n m s.
Proof. unfold offset_of. intros. nia. Qed.

Lemma offset_of_le n m r : 0 < m → r ≤ m → offset_of n m r ≤ n.
Proof. intros Hm Hr. rewrite <-(offset_of_total n m Hm) at 2. by apply offset_of_mono. Qed.

Lemma split_m_part n m r : r < m → (split_m n m).1.1 !! r = Some (extent n m r).
Proof. apply split_parts_lookup. Qed.

Lemma split_m_start n m r : r < m → (split_m n m).1.2 !! r = Some (offset_of n m r).
Proof.
  intros Hr. simpl. rewrite cumsum_lookup by (by rewrite split_parts_length).
  rewrite split_parts_take_sum by lia. done.
Qed.

Lemma split_m_end n m r : r < m → (split_m n m).2 !! r = Some (offset_of n m (S r)).
Proof.
  intros Hr. simpl. rewrite lookup_zip_with.
  pose proof (split_m_start n m r Hr) as Hs. simpl in Hs. rewrite Hs. simpl.
  rewrite split_parts_lookup by done. simpl. by rewrite offset_of_S.
Qed.

Lemma split_m_lengths n m :
  length (split_m n m).1.1 = m ∧ length (split_m n m).1.2 = m ∧ length (split_m n m).2 = m.
Proof.
  simpl. rewrite length_zip_with, cumsum_length, split_parts_length. lia.
Qed.

Lemma split_local_eq n sz r :
  r < sz →
  split_local n (Some (mkComm sz r)) = (extent n sz r, offset_of n sz r, offset_of n sz (S r)).
Proof.
  intros Hr. unfold split_local, split_all. simpl comm_size. simpl comm_rank.
  pose proof (split_m_part n sz r Hr) as H1.
  pose proof (split_m_start n sz r Hr) as H2.
  pose proof (split_m_end n sz r Hr) as H3.
  destruct (split_m n sz) as [[part starts] ends]. simpl in *.
  by rewrite !list_lookup_total_alt, H1, H2, H3.
Qed.

(** C1.  For a non-negative extent [n] and a communicator of [size > 0]
    ranks, the balanced split gives rank [r] the extent
    [n//size + (1 if r < n%size else 0)], its start is the sum of the
    extents of the ranks before it and its end the sum up to and including
    its own; the extents add up to [n]; the ranges start at 0, each one
    begins where the previous one ends and the last one ends at [n]; two
    extents differ by at most one.  [MPIArray.__new__] puts the rank's
    extent and start on the distributed axis of the local shape and
    offset. *)
Theorem balanced_split_correct (n size : nat) (Hsize : 0 < size) :
  let '(part, starts, ends) := split_m n size in
  (length part = size ∧ length starts = size ∧ length ends = size) ∧
  (∀ r, r < size →
     part !! r = Some (n / size + (if bool_decide (r < n `mod` size) then 1 else 0)) ∧
     starts !! r = Some (sum_list (take r part)) ∧
     ends !! r = Some (sum_list (take (S r) part))) ∧
  sum_list part = n ∧
  starts !! 0 = Some 0 ∧
  (∀ r, S r < size → starts !! S r = ends !! r) ∧
  ends !! (size - 1) = Some n ∧
  (∀ r s er es, part !! r = Some er → part !! s = Some es → er ≤ es + 1) ∧
  (∀ (T dtype : Type) (uninit : T) (p : process T) (gs : list nat) (axis : nat)
     (dt : dtype) (r : nat),
     gs !! axis = Some n → r < size →
     ∃ p' A, __new__ uninit p gs axis (Some (mkComm size r)) dt = Ok (p', A) ∧
       _local_shape A = <[axis := part !!! r]> gs ∧
       _local_offset A = <[axis := starts !!! r]> (replicate (length gs) 0) ∧
       mem p' !! base A = Some (mk_ndarray (_local_shape A) (full (_local_shape A) uninit))).
Proof.
  pose proof (split_m_lengths n size) as (Hl1 & Hl2 & Hl3).
  pose proof (λ r, split_m_part n size r) as Hp.
  pose proof (λ r, split_m_start n size r) as Hs.
  pose proof (λ r, split_m_end n size r) as He.
  pose proof (λ r, split_local_eq n size r) as Hloc.
  pose proof (split_parts_sum n size Hsize) as Hsum.
  pose proof (λ r, split_parts_take_sum n size r) as Htake.
  unfold split_local, split_all in Hloc. simpl comm_size in Hloc. simpl comm_rank in Hloc.
  destruct (split_m n size) as [[part starts] ends] eqn:Hsplit.
  assert (part = extent n size <$> seq 0 size) as Hpart by (by inversion Hsplit).
  cbn [fst snd] in *. rewrite <-Hpart in *.
  split_and!; try done.
  - intros r Hr. rewrite Hp, Hs, He by done. rewrite !Htake by lia. done.
  - rewrite Hs by done. by rewrite offset_of_0.
  - intros r Hr. rewrite Hs, He by lia. done.
  - rewrite He by lia. replace (S (size - 1)) with size by lia.
    by rewrite offset_of_total.
  - intros r s er es Hr Hs'.
    assert (r < size) by (apply lookup_lt_Some in Hr; lia).
    assert (s < size) by (apply lookup_lt_Some in Hs'; lia).
    rewrite Hp in Hr, Hs' by done.
    destruct (extent_cases n size r) as [[? ?]|[? ?]],
             (extent_cases n size s) as [[? ?]|[? ?]]; simplify_eq; lia.
  - intros T dtype uninit p gs axis dt r Hgs Hr.
    unfold __new__. rewrite Hgs. simpl.
    unfold split_m in Hsplit. injection Hsplit as <- <- <-.
    eexists _, _. split; [reflexivity|]. simpl.
    split_and!; try done.
    by rewrite list_lookup_middle.
Qed.

Lemma balanced_split_correct_witness :
  let '(part, starts, ends) := split_m 7 4 in
  part = [2; 2; 2; 1] ∧ starts = [0; 2; 4; 6] ∧ ends = [2; 4; 6; 7] ∧ sum_list part = 7.
Proof.
  pose proof (balanced_split_correct 7 4 ltac:(lia)) as H.
  destruct (split_m 7 4) as [[part starts] ends] eqn:E.
  vm_compute in E. inversion E; subst. destruct H as (_ & _ & Hsum & _).
  split_and!; done.
Defined.

(** ** Arrays: shapes, slices and joins *)

Section list_facts.
Context {A B C : Type}.

Lemma zip_with_fmap_diag (g : B → C → A) (f1 : A → B) (f2 : A → C) (xs : list A) :
  zip_with g (f1 <$> xs) (f2 <$> xs) = (λ x, g (f1 x) (f2 x)) <$> xs.
Proof. induction xs as [|x xs IH]; csimpl; [done|]. by rewrite IH. Qed.

Lemma take_drop_tile (xs : list A) (a b c : nat) :
  a ≤ b → b ≤ c →
  take (b - a) (drop a xs) ++ take (c - b) (drop b xs) = take (c - a) (drop a xs).
Proof.
  intros Hab Hbc.
  replace (drop b xs) with (drop (b - a) (drop a xs))
    by (rewrite drop_drop; f_equal; lia).
  rewrite take_take_drop. f_equal. lia.
Qed.

Lemma Forall2_fmap_zip_with (P : B → Prop) (Q : C → Prop) (f : A → A)
    (g : B → C → A) (h : B → C → A) (xs : list B) (ys : list C) :
  Forall P xs → Forall Q ys →
  (∀ x y, P x → Q y → f (g x y) = h x y) →
  f <$> zip_with g xs ys = zip_with h xs ys.
Proof.
  intros Hxs. revert ys. induction Hxs as [|x xs Hx Hxs IH]; intros ys Hys Hfg; [done|].
  destruct Hys as [|y ys Hy Hys]; [done|]. simpl. rewrite Hfg by done. f_equal. by apply IH.
Qed.

Lemma Forall_zip_with_both (P : B → Prop) (Q : C → Prop) (R : A → Prop)
    (g : B → C → A) (xs : list B) (ys : list C) :
  Forall P xs → Forall Q ys →
  (∀ x y, P x → Q y → R (g x y)) →
  Forall R (zip_with g xs ys).
Proof.
  intros Hxs. revert ys. induction Hxs as [|x xs Hx Hxs IH]; intros ys Hys Hg; [by constructor|].
  destruct Hys as [|y ys Hy Hys]; [by constructor|]. simpl. constructor; auto.
Qed.

Lemma zip_with_proj_l (P : B → Prop) (Q : C → Prop) (g : B → C → B)
    (xs : list B) (ys : list C) :
  length xs = length ys → Forall P xs → Forall Q ys →
  (∀ x y, P x → Q y → g x y = x) →
  zip_with g xs ys = xs.
Proof.
  intros Hlen Hxs. revert ys Hlen.
  induction Hxs as [|x xs Hx Hxs IH]; intros ys Hlen Hys Hg; [by destruct ys|].
  destruct Hys as [|y ys Hy Hys]; [done|]. simpl in *. rewrite Hg by done.
  f_equal. apply IH; [lia|done..].
Qed.

Lemma zip_with_proj_r (P : B → Prop) (Q : C → Prop) (g : B → C → C)
    (xs : list B) (ys : list C) :
  length xs = length ys → Forall P xs → Forall Q ys →
  (∀ x y, P x → Q y → g x y = y) →
  zip_with g xs ys = ys.
Proof.
  intros Hlen Hxs. revert ys Hlen.
  induction Hxs as [|x xs Hx Hxs IH]; intros ys Hlen Hys Hg; [by destruct ys|].
  destruct Hys as [|y ys Hy Hys]; [done|]. simpl in *. rewrite Hg by done.
  f_equal. apply IH; [lia|done..].
Qed.
End list_facts.

Section nested_facts.
Context {T : Type}.
Implicit Types (a b : nested T) (s : list nat).

Lemma has_shape_nil a : has_shape [] a ↔ ∃ x, a = Leaf x.
Proof. destruct a; simpl; naive_solver. Qed.

Lemma has_shape_cons n s a :
  has_shape (n :: s) a ↔ ∃ xs, a = Node xs ∧ length xs = n ∧ Forall (has_shape s) xs.
Proof. destruct a; simpl; naive_solver. Qed.

Lemma full_shape s (x : T) : has_shape s (full s x).
Proof.
  induction s as [|n s IH]; simpl; [done|].
  split; [by rewrite length_replicate|]. by apply Forall_replicate.
Qed.

Lemma slice_items_shape s k lo hi a :
  has_shape s a →
  has_shape (alter (λ n, (hi - lo) `min` (n - lo)) k s) (slice_items k lo hi a).
Proof.
  revert k a. induction s as [|n s IH]; intros k a Ha.
  - apply has_shape_nil in Ha as [x ->]. by destruct k.
  - apply has_shape_cons in Ha as (xs & -> & Hlen & Hxs). destruct k as [|k]; simpl.
    + split; [rewrite length_take, length_drop; lia|].
      by apply Forall_take, Forall_drop.
    + split; [by rewrite length_fmap|].
      apply Forall_fmap. eapply Forall_impl; [done|]. intros x Hx. by apply IH.
Qed.

Lemma slice_items_full s k n hi a :
  has_shape s a → s !! k = Some n → n ≤ hi → slice_items k 0 hi a = a.
Proof.
  revert k a. induction s as [|m s IH]; intros k a Ha Hk Hhi; [done|].
  apply has_shape_cons in Ha as (xs & -> & Hlen & Hxs). destruct k as [|k]; simpl in *.
  - simplify_eq. rewrite Nat.sub_0_r, take_ge; [done|]. rewrite length_drop. lia.
  - f_equal. rewrite <-(list_fmap_id xs) at 2. apply Forall_fmap_ext.
    eapply Forall_impl; [done|]. intros x Hx. simpl. by eapply IH.
Qed.

Lemma slice_items_tile k lo mid hi a :
  lo ≤ mid → mid ≤ hi →
  cat2 k (slice_items k lo mid a) (slice_items k mid hi a) = slice_items k lo hi a.
Proof.
  intros Hlo Hhi. revert a. induction k as [|k IH]; intros [x|xs]; simpl; try done.
  - by rewrite take_drop_tile.
  - rewrite zip_with_fmap_diag. f_equal. apply list_fmap_ext. intros _ x _. apply IH.
Qed.

Lemma slice_items_cat2 i j lo hi a b :
  i ≠ j →
  slice_items j lo hi (cat2 i a b) =
    cat2 i (slice_items j lo hi a) (slice_items j lo hi b).
Proof.
  revert j a b. induction i as [|i IH]; intros [|j] [x|xs] [y|ys] Hij; simpl; try done.
  - by rewrite fmap_app.
  - by rewrite zip_with_drop, zip_with_take.
  - f_equal. rewrite zip_with_fmap_l, zip_with_fmap_r.
    apply (Forall2_fmap_zip_with (λ _, True) (λ _, True)); [by apply Forall_true..|].
    intros x y _ _. apply IH. lia.
Qed.

Lemma slice_items_cat_list i j lo hi a (rest : list (nested T)) :
  i ≠ j →
  slice_items j lo hi (cat_list i a rest) =
    cat_list i (slice_items j lo hi a) (slice_items j lo hi <$> rest).
Proof.
  intros Hij. revert a. induction rest as [|b rest IH]; intros a; simpl; [done|].
  by rewrite slice_items_cat2, IH.
Qed.

Lemma cat2_shape s k ea eb a b :
  k < length s →
  has_shape (<[k := ea]> s) a → has_shape (<[k := eb]> s) b →
  has_shape (<[k := ea + eb]> s) (cat2 k a b).
Proof.
  revert k a b. induction s as [|n s IH]; intros k a b Hk Ha Hb; simpl in Hk; [lia|].
  destruct k as [|k]; simpl in *.
  - apply has_shape_cons in Ha as (xs & -> & Hlx & Hxs).
    apply has_shape_cons in Hb as (ys & -> & Hly & Hys). simpl.
    split; [rewrite length_app; lia|]. by apply Forall_app.
  - apply has_shape_cons in Ha as (xs & -> & Hlx & Hxs).
    apply has_shape_cons in Hb as (ys & -> & Hly & Hys). simpl.
    split; [rewrite length_zip_with; lia|].
    eapply Forall_zip_with_both; [done..|]. intros x y Hx Hy. apply IH; [lia|done..].
Qed.

(** A slice that ends inside the first operand of a join sees only the
    first operand; one that starts after it sees only the second. *)
Lemma slice_items_cat2_l s k ea eb lo hi a b :
  k < length s →
  has_shape (<[k := ea]> s) a → has_shape (<[k := eb]> s) b →
  hi ≤ ea →
  slice_items k lo hi (cat2 k a b) = slice_items k lo hi a.
Proof.
  revert k a b. induction s as [|n s IH]; intros k a b Hk Ha Hb Hhi; simpl in Hk; [lia|].
  destruct k as [|k]; simpl in *.
  - apply has_shape_cons in Ha as (xs & -> & Hlx & Hxs).
    apply has_shape_cons in Hb as (ys & -> & Hly & Hys). simpl. f_equal.
    destruct (decide (lo ≤ length xs)).
    + rewrite drop_app_le by done. rewrite take_app_le; [done|]. rewrite length_drop. lia.
    + replace (hi - lo) with 0 by lia. done.
  - apply has_shape_cons in Ha as (xs & -> & Hlx & Hxs).
    apply has_shape_cons in Hb as (ys & -> & Hly & Hys). simpl. f_equal.
    erewrite Forall2_fmap_zip_with with (h := λ x _, slice_items k lo hi x); [|done..|].
    + rewrite <-(zip_with_fmap_l (λ x _, x) (slice_items k lo hi)).
      eapply (zip_with_proj_l (λ _, True) (λ _, True));
        [rewrite length_fmap; lia|by apply Forall_true..|done].
    + intros x y Hx Hy. simpl. by eapply IH; [lia|..].
Qed.

Lemma slice_items_cat2_r s k ea eb lo hi a b :
  k < length s →
  has_shape (<[k := ea]> s) a → has_shape (<[k := eb]> s) b →
  ea ≤ lo →
  slice_items k lo hi (cat2 k a b) = slice_items k (lo - ea) (hi - ea) b.
Proof.
  revert k a b. induction s as [|n s IH]; intros k a b Hk Ha Hb Hlo; simpl in Hk; [lia|].
  destruct k as [|k]; simpl in *.
  - apply has_shape_cons in Ha as (xs & -> & Hlx & Hxs).
    apply has_shape_cons in Hb as (ys & -> & Hly & Hys). simpl. f_equal.
    rewrite drop_app_ge by lia. rewrite Hlx. f_equal. lia.
  - apply has_shape_cons in Ha as (xs & -> & Hlx & Hxs).
    apply has_shape_cons in Hb as (ys & -> & Hly & Hys). simpl. f_equal.
    erewrite Forall2_fmap_zip_with
      with (h := λ _ y, slice_items k (lo - ea) (hi - ea) y); [|done..|].
    + rewrite <-(zip_with_fmap_r (λ _ y, y) (slice_items k (lo - ea) (hi - ea))).
      eapply (zip_with_proj_r (λ _, True) (λ _, True));
        [rewrite length_fmap; lia|by apply Forall_true..|done].
    + intros x y Hx Hy. simpl. by eapply IH; [lia|..].
Qed.

End nested_facts.

Section nested_lists.
Context {T : Type}.
Implicit Types (a b : nested T) (s : list nat).

(** Joining consecutive slices gives the slice over the whole range. *)
Lemma cat_list_tile k (bound : nat → nat) (first count : nat) a :
  (∀ r, bound r ≤ bound (S r)) →
  cat_list k (slice_items k (bound first) (bound (S first)) a)
    ((λ r, slice_items k (bound r) (bound (S r)) a) <$> seq (S first) count)
  = slice_items k (bound first) (bound (S first + count)) a.
Proof.
  intros Hmono.
  assert (∀ r m, bound r ≤ bound (r + m)) as Hle.
  { intros r m. induction m as [|m IH]; [by rewrite Nat.add_0_r|].
    etrans; [exact IH|]. replace (r + S m) with (S (r + m)) by lia. apply Hmono. }
  revert first. induction count as [|count IH]; intros first; csimpl.
  - by rewrite Nat.add_0_r.
  - rewrite IH. rewrite slice_items_tile; [|done|].
    + f_equal. f_equal. lia.
    + replace (S (S first) + count) with (S first + S count) by lia. apply Hle.
Qed.

Lemma cat_list_shape s k (ext : nat → nat) (X : nat → nested T) (first count : nat) :
  k < length s →
  (∀ r, first ≤ r ≤ first + count → has_shape (<[k := ext r]> s) (X r)) →
  has_shape (<[k := sum_list (ext <$> seq first (S count))]> s)
    (cat_list k (X first) (X <$> seq (S first) count)).
Proof.
  intros Hk. revert first. induction count as [|count IH]; intros first HX; csimpl.
  - rewrite Nat.add_0_r. apply HX. lia.
  - apply cat2_shape; [done|apply HX; lia|].
    apply IH. intros r Hr. apply HX. lia.
Qed.

(** Slicing a join at the bounds of its [r]-th operand gives that
    operand back. *)
Lemma cat_list_pick s k (ext : nat → nat) (X : nat → nested T) (first count r : nat) :
  k < length s →
  (∀ t, first ≤ t ≤ first + count → has_shape (<[k := ext t]> s) (X t)) →
  first ≤ r ≤ first + count →
  slice_items k (sum_list (ext <$> seq first (r - first)))
                (sum_list (ext <$> seq first (S (r - first))))
    (cat_list k (X first) (X <$> seq (S first) count))
  = X r.
Proof.
  intros Hk. revert first. induction count as [|count IH]; intros first HX Hr.
  - assert (r = first) as -> by lia. rewrite Nat.sub_diag. csimpl.
    rewrite Nat.add_0_r. eapply slice_items_full; [apply HX; lia| |done].
    by rewrite list_lookup_insert_eq.
  - csimpl. destruct (decide (r = first)) as [->|Hne].
    + rewrite Nat.sub_diag. csimpl. rewrite Nat.add_0_r.
      erewrite slice_items_cat2_l; [|done|apply HX; lia| |done].
      * eapply slice_items_full; [apply HX; lia| |done]. by rewrite list_lookup_insert_eq.
      * apply (cat_list_shape s k ext X (S first) count); [done|].
        intros t Ht. apply HX. lia.
    + replace (r - first) with (S (r - S first)) by lia.
      erewrite slice_items_cat2_r; [|done|apply HX; lia| |csimpl; lia].
      * csimpl. replace (ext first + sum_list (ext <$> seq (S first) (r - S first)) - ext first)
          with (sum_list (ext <$> seq (S first) (r - S first))) by lia.
        replace (ext first + (ext (S first) + sum_list (ext <$> seq (S (S first)) (r - S first)))
                 - ext first)
          with (sum_list (ext <$> seq (S first) (S (r - S first)))) by (csimpl; lia).
        apply IH; [|lia]. intros t Ht. apply HX. lia.
      * apply (cat_list_shape s k ext X (S first) count); [done|].
        intros t Ht. apply HX. lia.
Qed.

(** *** Flat runs of elements *)

Lemma flatten_length s a : has_shape s a → length (flatten a) = prod_list s.
Proof.
  revert a. induction s as [|n s IH]; intros a Ha.
  - by apply has_shape_nil in Ha as [x ->].
  - apply has_shape_cons in Ha as (xs & -> & <- & Hxs). simpl.
    induction Hxs as [|x xs Hx Hxs IHxs]; csimpl; [done|].
    rewrite length_app, IH, IHxs by done. done.
Qed.

Lemma reshape_join_same (p : nat) (ls : list (list T)) :
  Forall (λ l, length l = p) ls →
  reshape (replicate (length ls) p) (mjoin ls) = ls.
Proof.
  induction 1 as [|l ls Hl Hls IH]; csimpl; [done|].
  rewrite take_app_length', drop_app_length' by done. by rewrite IH.
Qed.

Lemma unflatten_flatten s a : has_shape s a → unflatten s (flatten a) = Some a.
Proof.
  revert a. induction s as [|n s IH]; intros a Ha.
  - by apply has_shape_nil in Ha as [x ->].
  - pose proof (flatten_length _ _ Ha) as Hlen.
    apply has_shape_cons in Ha as (xs & -> & <- & Hxs). simpl in *.
    rewrite decide_True by done.
    rewrite <-(length_fmap flatten xs), reshape_join_same.
    + assert (mapM (unflatten s) (flatten <$> xs) = Some xs) as ->; [|done].
      apply mapM_Some. apply Forall2_fmap_l, Forall_Forall2_diag.
      eapply Forall_impl; [done|]. intros x Hx. by apply IH.
    + apply Forall_fmap. eapply Forall_impl; [done|]. intros x Hx. by apply flatten_length.
Qed.

End nested_lists.

(** ** The exchange of [redistribute] *)

Lemma split_all_eq n (c : Comm) :
  split_all n (Some c) =
    (extent n (size c) <$> seq 0 (size c),
     offset_of n (size c) <$> seq 0 (size c),
     (λ r, offset_of n (size c) (S r)) <$> seq 0 (size c)).
Proof.
  unfold split_all. simpl comm_size. generalize (size c). intros m.
  pose proof (split_m_lengths n m) as (Hl1 & Hl2 & Hl3).
  pose proof (λ r, split_m_start n m r) as Hs.
  pose proof (λ r, split_m_end n m r) as He.
  destruct (split_m n m) as [[part starts] ends] eqn:Hsplit.
  assert (part = extent n m <$> seq 0 m) as Hpart by (by inversion Hsplit).
  cbn [fst snd] in *. f_equal; [f_equal; [done|]|].
  - apply list_eq. intros r. destruct (decide (r < m)) as [Hr|Hr].
    + rewrite Hs by done. by rewrite list_lookup_fmap, lookup_seq_lt.
    + rewrite !lookup_ge_None_2; [done|rewrite length_fmap, length_seq; lia|lia].
  - apply list_eq. intros r. destruct (decide (r < m)) as [Hr|Hr].
    + rewrite He by done. by rewrite list_lookup_fmap, lookup_seq_lt.
    + rewrite !lookup_ge_None_2; [done|rewrite length_fmap, length_seq; lia|lia].
Qed.

Lemma lookup_total_fmap_seq {A} `{Inhabited A} (f : nat → A) (n r : nat) :
  r < n → (f <$> seq 0 n) !!! r = f r.
Proof. intros Hr. by rewrite list_lookup_total_alt, list_lookup_fmap, lookup_seq_lt. Qed.

Section rank_loops.
Context {B : Type}.

Lemma omap_rank_pairs (g : nat * nat → option B) (l1 l2 : list nat) :
  omap g (ir ← l1; ic ← l2; [(ir, ic)]) = ir ← l1; omap (λ ic, g (ir, ic)) l2.
Proof.
  induction l1 as [|ir l1 IH]; csimpl; [done|]. rewrite omap_app, IH. f_equal.
  clear IH. induction l2 as [|ic l2 IH]; csimpl; [done|]. by rewrite IH.
Qed.

Lemma bind_seq_pick (X : list B) (r a n : nat) :
  (ir ← seq a n; if decide (r = ir) then X else []) =
    if decide (a ≤ r < a + n) then X else [].
Proof.
  revert a. induction n as [|n IH]; intros a; csimpl.
  - by rewrite decide_False by lia.
  - rewrite IH. repeat case_decide; try lia; by rewrite ?app_nil_r.
Qed.

Lemma omap_seq_pick (f : nat → B) (r a n : nat) :
  omap (λ ic, if decide (r = ic) then Some (f ic) else None) (seq a n) =
    if decide (a ≤ r < a + n) then [f r] else [].
Proof.
  revert a. induction n as [|n IH]; intros a; csimpl.
  - by rewrite decide_False by lia.
  - rewrite IH. repeat case_decide; try lia; by subst.
Qed.

Lemma omap_rank_pairs_row (f : nat → nat → B) (sz r : nat) :
  r < sz →
  omap (λ '(ir, ic), if decide (r = ir) then Some (f ir ic) else None) (rank_pairs sz)
  = f r <$> seq 0 sz.
Proof.
  intros Hr. unfold rank_pairs. rewrite omap_rank_pairs.
  rewrite (list_bind_ext _ (λ ir, if decide (r = ir) then f r <$> seq 0 sz else [])
             (seq 0 sz) (seq 0 sz)); [|intros ir|done].
  - rewrite bind_seq_pick. by rewrite decide_True by lia.
  - case_decide; [subst|].
    + generalize (seq 0 sz). intros l. induction l as [|x l IH]; csimpl; [done|].
      by rewrite IH.
    + generalize (seq 0 sz). intros l. by induction l.
Qed.

Lemma omap_rank_pairs_col (f : nat → nat → B) (sz r : nat) :
  r < sz →
  omap (λ '(ir, ic), if decide (r = ic) then Some (f ir ic) else None) (rank_pairs sz)
  = (λ ir, f ir r) <$> seq 0 sz.
Proof.
  intros Hr. unfold rank_pairs. rewrite omap_rank_pairs.
  rewrite (list_bind_ext _ (λ ir, [f ir r]) (seq 0 sz) (seq 0 sz)); [|intros ir|done].
  - generalize (seq 0 sz). intros l. induction l as [|x l IH]; csimpl; [done|].
    by rewrite IH.
  - rewrite (omap_seq_pick (f ir)). by rewrite decide_True by lia.
Qed.
End rank_loops.

Lemma mapM_result_Ok {A B} (f : A → result B) (g : A → B) (l : list A) :
  Forall (λ x, f x = Ok (g x)) l → mapM f l = Ok (g <$> l).
Proof.
  induction 1 as [|x l Hx Hl IH]; [done|]. cbn [mapM]. rewrite Hx, IH. done.
Qed.

Section exchange.
Context {T dtype mpitype : Type}.
Variable uninit : T.
Variable typemap : dtype → option mpitype.

Lemma tail_split_points {A} (f : nat * nat → A) (x : nat) (e m : list nat) :
  tail (f <$> zip (0 :: x :: e) ((x :: e) ++ m)) = f <$> zip (x :: e) (e ++ m).
Proof. done. Qed.

Lemma blocks_lookup (arr : ndarray T) (n sz j ic : nat) :
  ic < sz →
  tail (np_array_split arr
          (((offset_of n sz <$> seq 0 sz) !!! 0) ::
             ((λ r, offset_of n sz (S r)) <$> seq 0 sz)) j) !! ic
  = Some (nd_slice j (offset_of n sz ic) (offset_of n sz (S ic)) arr).
Proof.
  intros Hic. assert (0 < sz) as Hsz by lia.
  rewrite lookup_total_fmap_seq by done.
  unfold np_array_split. rewrite tail_split_points.
  rewrite list_lookup_fmap, lookup_zip_with.
  rewrite lookup_app_l by (rewrite length_fmap, length_seq; lia).
  rewrite (list_lookup_fmap _ (seq 0 sz) ic), lookup_seq_lt by lia.
  destruct ic as [|ic]; csimpl; [done|].
  rewrite list_lookup_fmap, lookup_seq_lt by lia. done.
Qed.

Lemma exchange_plan_eq (sz r i j : nat) (gs : list nat) (dt : dtype) (l : loc)
    (L : nested T) :
  r < sz → i < length gs → j < length gs → i ≠ j →
  let ni := default 0 (gs !! i) in
  let nj := default 0 (gs !! j) in
  exchange_plan uninit (mkComm sz r) (metadata sz gs i dt r l)
    (mk_ndarray (<[i := extent ni sz r]> gs) L) j
  = Ok (<[j := extent nj sz r]> gs,
        (λ ic, mkMessage ic (r * sz + ic)
                 (flatten (slice_items j (offset_of nj sz ic) (offset_of nj sz (S ic)) L)))
          <$> seq 0 sz,
        (λ ir, mkRequest ir (ir * sz + r)
                 (<[i := extent ni sz ir]> (<[j := extent nj sz r]> gs)))
          <$> seq 0 sz).
Proof.
  intros Hr Hi Hj Hij ni nj.
  destruct (lookup_lt_is_Some_2 gs i Hi) as [ni' Hni].
  destruct (lookup_lt_is_Some_2 gs j Hj) as [nj' Hnj].
  assert (ni = ni') as -> by (unfold ni; by rewrite Hni).
  assert (nj = nj') as -> by (unfold nj; by rewrite Hnj).
  unfold exchange_plan, metadata. cbn [shape _global_shape _axis size rank].
  rewrite list_lookup_insert_ne, Hnj, Hni by done.
  cbn [of_option mbind result_bind].
  rewrite split_local_eq by done. rewrite !split_all_eq. cbn [size rank].
  f_equal. f_equal; [f_equal|].
  - rewrite (omap_rank_pairs_row
      (λ ir ic, mkMessage ic (ir * sz + ic)
         (flatten (items (default (mk_ndarray [] (Leaf uninit))
            (tail (np_array_split (mk_ndarray (<[i:=extent ni' sz r]> gs) L)
               (((offset_of nj' sz <$> seq 0 sz) !!! 0) ::
                  ((λ r, offset_of nj' sz (S r)) <$> seq 0 sz)) j) !! ic)))))) by done.
    apply Forall_fmap_ext, Forall_seq. intros ic Hic.
    rewrite blocks_lookup by lia. done.
  - rewrite (omap_rank_pairs_col
      (λ ir ic, mkRequest ir (ir * sz + ic)
         (<[i:=((λ r, offset_of ni' sz (S r)) <$> seq 0 sz) !!! ir
               - (offset_of ni' sz <$> seq 0 sz) !!! ir]>
            (<[j:=((λ r, offset_of nj' sz (S r)) <$> seq 0 sz) !!! ic
                  - (offset_of nj' sz <$> seq 0 sz) !!! ic]>
               (<[j:=extent nj' sz r]> gs))))) by done.
    apply Forall_fmap_ext, Forall_seq. intros ir Hir.
    rewrite !lookup_total_fmap_seq by lia. rewrite !offset_of_S.
    rewrite list_insert_insert_eq. do 2 f_equal; [lia|f_equal; lia].
Qed.

End exchange.

Lemma list_alter_lookup {A} (f : A → A) (l : list A) (k : nat) (x : A) :
  l !! k = Some x → alter f k l = <[k := f x]> l.
Proof.
  intros Hk. apply list_eq. intros i. destruct (decide (i = k)) as [->|Hne].
  - rewrite list_lookup_alter, Hk.
    rewrite list_lookup_insert_eq by (by eapply lookup_lt_Some).
    by rewrite decide_True by done.
  - by rewrite list_lookup_alter_ne, list_lookup_insert_ne.
Qed.

Lemma section_shape {T} (G : nested T) (gs : list nat) (k n sz r : nat) :
  has_shape gs G → gs !! k = Some n → 0 < sz → r < sz →
  has_shape (<[k := extent n sz r]> gs)
    (slice_items k (offset_of n sz r) (offset_of n sz (S r)) G).
Proof.
  intros HG Hk Hsz Hr.
  pose proof (slice_items_shape gs k (offset_of n sz r) (offset_of n sz (S r)) G HG) as H.
  rewrite (list_alter_lookup _ _ _ _ Hk) in H.
  pose proof (offset_of_le n sz (S r) Hsz ltac:(lia)). rewrite offset_of_S in *.
  replace ((offset_of n sz r + extent n sz r - offset_of n sz r)
             `min` (n - offset_of n sz r)) with (extent n sz r) in H by lia.
  done.
Qed.

Section transport.
Context {T : Type}.

Lemma filter_sends_pick (f : nat → message T) (c t a n : nat) :
  (∀ ic, dest (f ic) = ic) →
  a ≤ c < a + n →
  tag (f c) = t →
  head (filter (λ m, dest m = c ∧ tag m = t) (f <$> seq a n)) = Some (f c).
Proof.
  intros Hdest. revert a. induction n as [|n IH]; intros a Hc Htag; [lia|]. csimpl.
  destruct (decide (a = c)) as [->|Hne].
  - rewrite filter_cons_True; [done|]. by rewrite Hdest.
  - rewrite filter_cons_False; [apply IH; [lia|done]|]. rewrite Hdest. naive_solver.
Qed.

Lemma receive_eq (net : list (list (message T))) (sz c ir : nat) (s : list nat)
    (X : nat → nested T) :
  c < sz →
  net !! ir = Some ((λ ic, mkMessage ic (ir * sz + ic) (flatten (X ic))) <$> seq 0 sz) →
  has_shape s (X c) →
  receive net c (mkRequest ir (ir * sz + c) s) = Ok (mk_ndarray s (X c)).
Proof.
  intros Hc Hnet HX. unfold receive, deliver. cbn [source rtag buffer_shape].
  rewrite Hnet. cbn [mbind option_bind].
  rewrite (filter_sends_pick (λ ic, mkMessage ic (ir * sz + ic) (flatten (X ic))))
    by (done || lia).
  cbn [fmap option_fmap option_map payload of_option mbind result_bind].
  rewrite unflatten_flatten by done. done.
Qed.

Lemma np_concatenate_sections (B : nat → ndarray T) (s : list nat) (k n sz : nat)
    (ext : nat → nat) :
  0 < sz → s !! k = Some n →
  (∀ r, r < sz → shape (B r) = <[k := ext r]> s) →
  sum_list (ext <$> seq 0 sz) = n →
  np_concatenate_out (B <$> seq 0 sz) k s =
    Ok (mk_ndarray s (cat_list k (items (B 0)) ((items ∘ B) <$> seq 1 (sz - 1)))).
Proof.
  intros Hsz Hk HB Hsum. destruct sz as [|sz]; [lia|].
  assert (k < length s) as Hlt by (by eapply lookup_lt_Some).
  unfold np_concatenate_out, np_concatenate. cbn [seq fmap list_fmap].
  change (list_fmap nat (ndarray T) B (seq 1 sz)) with (B <$> seq 1 sz).
  rewrite (HB 0) by lia. rewrite list_lookup_insert_eq by done.
  cbn [of_option mbind result_bind].
  assert (forallb (λ b, bool_decide (<[k:=0]> (shape b) = <[k:=0]> (<[k:=ext 0]> s)))
            (B <$> seq 1 sz) = true) as ->.
  { apply forallb_forall. intros b Hb. apply list_elem_of_In in Hb.
    apply list_elem_of_fmap in Hb as (r & -> & Hr). apply elem_of_seq in Hr.
    rewrite HB by lia. rewrite !list_insert_insert_eq. by apply bool_decide_eq_true. }
  cbn [shape]. rewrite list_insert_insert_eq.
  assert (sum_list (axis_extent k (B 0) :: (axis_extent k <$> (B <$> seq 1 sz))) = n) as ->.
  { rewrite <-Hsum. change (axis_extent k (B 0) :: (axis_extent k <$> (B <$> seq 1 sz)))
      with (axis_extent k <$> (B <$> seq 0 (S sz))).
    rewrite <-list_fmap_compose. f_equal. apply Forall_fmap_ext, Forall_seq.
    intros r Hr. unfold axis_extent. simpl. rewrite HB by lia.
    by rewrite list_lookup_insert_eq. }
  rewrite list_insert_id by done. cbn [mbind result_bind shape].
  rewrite decide_True by done.
  rewrite Nat.sub_succ, Nat.sub_0_r. by rewrite <-list_fmap_compose.
Qed.

End transport.

Section redistribute_facts.
Context {T dtype mpitype : Type}.
Variable uninit : T.
Variable typemap : dtype → option mpitype.

Lemma section_of_shape (G : nested T) (gs : list nat) (k sz r : nat) :
  has_shape gs G → k < length gs → r < sz →
  has_shape (<[k := extent (default 0 (gs !! k)) sz r]> gs) (section_of G sz gs k r).
Proof.
  intros HG Hk Hr. destruct (lookup_lt_is_Some_2 gs k Hk) as [n Hn].
  unfold section_of. rewrite Hn. simpl. apply section_shape; [done..|lia|done].
Qed.

Lemma populate_eq (p : process T) (sz r i j : nat) (gs : list nat) (dt : dtype) (l : loc)
    (trans_arr : ndarray T) :
  j < length gs → r < sz →
  shape trans_arr = <[j := extent (default 0 (gs !! j)) sz r]> gs →
  populate uninit p (metadata sz gs i dt r l) j trans_arr =
    Ok (mkProcess (world p)
          (mem p ++ [mk_ndarray (<[j := extent (default 0 (gs !! j)) sz r]> gs)
                       (items trans_arr)]),
        metadata sz gs j dt r (length (mem p)), []).
Proof.
  intros Hj Hr Hshape. destruct (lookup_lt_is_Some_2 gs j Hj) as [n Hn].
  rewrite Hn in *. simpl in Hshape.
  unfold populate, __new__, metadata. cbn [_global_shape _comm _dtype].
  rewrite Hn. cbn [of_option mbind result_bind default].
  rewrite split_local_eq by done. unfold alloc.
  cbn [mbind result_bind]. unfold assign_all, local_array.
  cbn [base mem]. rewrite list_lookup_middle by done.
  cbn [of_option mbind result_bind shape]. rewrite decide_True by done.
  unfold write. cbn [world mem base].
  rewrite insert_app_r_alt by done. by rewrite Nat.sub_diag.
Qed.

(** What rank [r] does up to the exchange, for more than one rank. *)
Lemma redistribute_rank_eq (p : process T) (G : nested T) (sz r i j : nat)
    (gs : list nat) (dt : dtype) (l : loc) :
  r < sz → sz ≠ 1 → i < length gs → j < length gs → i ≠ j →
  is_Some (typemap dt) →
  mem p !! l = Some (mk_ndarray (<[i := extent (default 0 (gs !! i)) sz r]> gs)
                       (section_of G sz gs i r)) →
  redistribute uninit typemap p (metadata sz gs i dt r l) j =
    Exchange (block_sends G sz gs i j r)
      (λ net,
         Done (buffers ← mapM (receive net r)
                 ((λ ir, mkRequest ir (ir * sz + r)
                    (<[i := extent (default 0 (gs !! i)) sz ir]>
                       (<[j := extent (default 0 (gs !! j)) sz r]> gs))) <$> seq 0 sz);
               trans_arr ← np_concatenate_out buffers i
                 (<[j := extent (default 0 (gs !! j)) sz r]> gs);
               populate uninit p (metadata sz gs i dt r l) j trans_arr)).
Proof.
  intros Hr Hsz Hi Hj Hij [m Hm] Hmem.
  unfold redistribute.
  change (_comm (metadata sz gs i dt r l)) with (Some (mkComm sz r)).
  change (_axis (metadata sz gs i dt r l)) with i.
  change (_dtype (metadata sz gs i dt r l)) with dt. cbv iota beta.
  rewrite decide_False by done. rewrite Hm.
  unfold local_array. change (base (metadata sz gs i dt r l)) with l.
  rewrite Hmem. cbn [of_option size rank]. rewrite decide_False by done.
  rewrite (exchange_plan_eq uninit sz r i j gs dt l) by done.
  done.
Qed.

(** What rank [c] assembles from the messages of all ranks. *)
Lemma redistribute_assemble (p : process T) (G : nested T) (sz c i j : nat)
    (gs : list nat) (dt : dtype) (l : loc) (net : list (list (message T))) :
  c < sz → i < length gs → j < length gs → i ≠ j →
  has_shape gs G →
  (∀ ir, ir < sz → net !! ir = Some (block_sends G sz gs i j ir)) →
  (buffers ← mapM (receive net c)
     ((λ ir, mkRequest ir (ir * sz + c)
        (<[i := extent (default 0 (gs !! i)) sz ir]>
           (<[j := extent (default 0 (gs !! j)) sz c]> gs))) <$> seq 0 sz);
   trans_arr ← np_concatenate_out buffers i
     (<[j := extent (default 0 (gs !! j)) sz c]> gs);
   populate uninit p (metadata sz gs i dt c l) j trans_arr)
  = Ok (redistributed G sz gs j dt c p).
Proof.
  intros Hc Hi Hj Hij HG Hnet.
  destruct (lookup_lt_is_Some_2 gs i Hi) as [ni Hni].
  destruct (lookup_lt_is_Some_2 gs j Hj) as [nj Hnj].
  set (sj := <[j := extent (default 0 (gs !! j)) sz c]> gs).
  assert (has_shape sj (section_of G sz gs j c)) as HGj by (by apply section_of_shape).
  assert (sj !! i = Some ni) as Hsji by (unfold sj; by rewrite list_lookup_insert_ne).
  assert (i < length sj) as Hisj by (by eapply lookup_lt_Some).
  set (X := λ ir, section_of (section_of G sz gs i ir) sz gs j c).
  assert (∀ ir, ir < sz →
            has_shape (<[i := extent (default 0 (gs !! i)) sz ir]> sj) (X ir)) as HX.
  { intros ir Hir. unfold sj, X. rewrite list_insert_insert_ne by done.
    pose proof (section_of_shape G gs i sz ir HG Hi Hir) as H1.
    pose proof (section_of_shape _ _ j sz c H1) as H2.
    rewrite length_insert in H2. specialize (H2 Hj Hc).
    unfold section_of in H2 |- *. by rewrite list_lookup_insert_ne in H2 by done. }
  rewrite (mapM_result_Ok _
    (λ rq, mk_ndarray (buffer_shape rq) (X (source rq)))).
  2:{ apply Forall_fmap, Forall_seq. intros ir Hir. simpl.
      apply (receive_eq net sz c ir _
               (λ ic, section_of (section_of G sz gs i ir) sz gs j ic)); [done| |].
      - rewrite Hnet by lia. done.
      - apply HX. lia. }
  cbn [mbind result_bind]. rewrite <-list_fmap_compose.
  change ((λ rq : request, mk_ndarray (buffer_shape rq) (X (source rq)))
          ∘ (λ ir, mkRequest ir (ir * sz + c)
                     (<[i:=extent (default 0 (gs !! i)) sz ir]> sj)))
    with (λ ir, mk_ndarray (<[i := extent (default 0 (gs !! i)) sz ir]> sj) (X ir)).
  rewrite (np_concatenate_sections
             (λ ir, mk_ndarray (<[i := extent (default 0 (gs !! i)) sz ir]> sj) (X ir))
             sj i ni sz (extent ni sz)); [|lia|done| |].
  2:{ intros r Hr. by rewrite Hni. }
  2:{ apply split_parts_sum. lia. }
  assert (cat_list i (X 0) (X <$> seq 1 (sz - 1)) = section_of G sz gs j c) as Hcat.
  { unfold X. unfold section_of at 1 3. rewrite Hnj. cbn [default].
    rewrite (list_fmap_compose (section_of G sz gs i)
               (slice_items j (offset_of nj sz c) (offset_of nj sz (S c)))).
    rewrite <-slice_items_cat_list by done.
    unfold section_of. rewrite Hni, Hnj. cbn [default]. f_equal.
    rewrite (cat_list_tile i (offset_of ni sz) 0 (sz - 1)).
    - replace (1 + (sz - 1)) with sz by lia. rewrite offset_of_total by lia.
      rewrite offset_of_0. by eapply slice_items_full.
    - intros r. rewrite offset_of_S. lia. }
  cbn [mbind result_bind]. rewrite populate_eq by done.
  unfold redistributed. cbn [items].
  change (items ∘ (λ ir, mk_ndarray (<[i:=extent (default 0 (gs !! i)) sz ir]> sj) (X ir)))
    with X.
  rewrite Hcat. done.
Qed.

End redistribute_facts.

(** ** Lock-step runs *)

Section run_world_facts.
Context {T A : Type}.
Implicit Types (progs : list (collective T A)).

Lemma run_world_done fuel progs :
  Forall (λ c, is_done c = true) progs → run_world fuel progs = Some (settle <$> progs).
Proof.
  intros Hall. assert (forallb is_done progs = true) as Hb.
  { apply forallb_forall. intros c Hc. apply list_elem_of_In in Hc.
    by eapply Forall_forall in Hall. }
  destruct fuel; simpl; by rewrite Hb.
Qed.

Lemma run_world_returned fuel (outs : list A) :
  run_world fuel ((λ o, @Done T A (Ok o)) <$> outs) = Some (Ok <$> outs).
Proof.
  rewrite run_world_done by (by apply Forall_fmap, Forall_true).
  by rewrite <-list_fmap_compose.
Qed.

Lemma run_world_returned_zip {B C} fuel (f : B → C → A) (l : list B) (k : list C) :
  run_world fuel (zip_with (λ x y, @Done T A (Ok (f x y))) l k)
  = Some (Ok <$> zip_with f l k).
Proof.
  rewrite <-(run_world_returned fuel). f_equal.
  revert k. induction l as [|x l IH]; intros [|y k]; csimpl; try done. by rewrite IH.
Qed.

Lemma run_world_exchange fuel progs :
  progs ≠ [] → Forall (λ c, at_exchange c = true) progs →
  run_world (S fuel) progs =
    run_world fuel (resume_exchange (sends_of <$> progs) <$> progs).
Proof.
  intros Hne Hall. assert (forallb at_exchange progs = true) as Hb.
  { apply forallb_forall. intros c Hc. apply list_elem_of_In in Hc.
    by eapply Forall_forall in Hall. }
  destruct progs as [|c progs]; [done|].
  destruct c as [r|op x k|sends k]; try (by inversion Hall).
  simpl in Hb. cbn [run_world forallb is_done at_exchange andb]. by rewrite Hb.
Qed.

Lemma run_world_allreduce fuel op progs :
  progs ≠ [] → Forall (λ c, at_allreduce op c = true) progs →
  run_world (S fuel) progs =
    run_world fuel (resume_reduce (reduce op (contribution <$> progs)) <$> progs).
Proof.
  intros Hne Hall. assert (forallb (at_allreduce op) progs = true) as Hb.
  { apply forallb_forall. intros c Hc. apply list_elem_of_In in Hc.
    by eapply Forall_forall in Hall. }
  destruct progs as [|c progs]; [done|].
  destruct c as [r|op' x k|sends k]; try (by inversion Hall).
  assert (op' = op) as ->.
  { inversion Hall as [|?? Hc ?]; subst. simpl in Hc. by apply bool_decide_eq_true in Hc. }
  simpl in Hb. rewrite bool_decide_eq_true_2 in Hb by done. simpl in Hb.
  cbn [run_world forallb is_done at_allreduce andb].
  rewrite bool_decide_eq_true_2 by done. cbn [andb]. by rewrite Hb.
Qed.

End run_world_facts.

Section redistribute_world.
Context {T dtype mpitype : Type}.
Variable uninit : T.
Variable typemap : dtype → option mpitype.

Lemma extent_single n : extent n 1 0 = n.
Proof.
  unfold extent. rewrite Nat.div_1_r, Nat.mod_1_r.
  rewrite bool_decide_eq_false_2 by lia. lia.
Qed.

Lemma section_of_single (G : nested T) (gs : list nat) (k : nat) :
  has_shape gs G → k < length gs → section_of G 1 gs k 0 = G.
Proof.
  intros HG Hk. destruct (lookup_lt_is_Some_2 gs k Hk) as [n Hn].
  unfold section_of. rewrite Hn. cbn [default].
  rewrite offset_of_0. eapply slice_items_full; [done..|].
  rewrite <-(offset_of_total n 1) at 1 by lia. done.
Qed.

Lemma redistribute_single_eq (p : process T) (G : nested T) (i j : nat)
    (gs : list nat) (dt : dtype) (l : loc) :
  i < length gs → j < length gs → i ≠ j →
  is_Some (typemap dt) → has_shape gs G →
  mem p !! l = Some (mk_ndarray (<[i := extent (default 0 (gs !! i)) 1 0]> gs)
                       (section_of G 1 gs i 0)) →
  redistribute uninit typemap p (metadata 1 gs i dt 0 l) j =
    Done (Ok (redistributed G 1 gs j dt 0 p)).
Proof.
  intros Hi Hj Hij [m Hm] HG Hmem.
  destruct (lookup_lt_is_Some_2 gs i Hi) as [ni Hni].
  destruct (lookup_lt_is_Some_2 gs j Hj) as [nj Hnj].
  unfold redistribute.
  change (_comm (metadata 1 gs i dt 0 l)) with (Some (mkComm 1 0)).
  change (_axis (metadata 1 gs i dt 0 l)) with i.
  change (_dtype (metadata 1 gs i dt 0 l)) with dt.
  change (_global_shape (metadata 1 gs i dt 0 l)) with gs. cbv iota beta.
  rewrite decide_False by done. rewrite Hm.
  unfold local_array. change (base (metadata 1 gs i dt 0 l)) with l.
  rewrite Hmem. cbn [of_option size rank shape]. rewrite decide_True by done.
  rewrite list_lookup_insert_eq by done. rewrite Hni.
  cbn [of_option mbind result_bind default]. rewrite extent_single, decide_True by done.
  rewrite populate_eq; [|done|lia|].
  - unfold redistributed. cbn [items]. by rewrite !section_of_single.
  - cbn [shape]. rewrite Hnj. cbn [default]. rewrite !extent_single.
    by rewrite !list_insert_id.
Qed.

(** Moving the array with contents [G] from axis [i] onto axis [j]: every
    rank returns, with a fresh buffer holding its section of [G] along
    [j]. *)
Lemma redistribute_sections (G : nested T) (sz i j fuel : nat) (gs : list nat) (dt : dtype)
    (ps : list (process T)) (As : list (MPIArray dtype)) :
  sections_of G sz gs i dt ps As → has_shape gs G →
  i ≠ j → j < length gs → is_Some (typemap dt) → 1 ≤ fuel →
  run_world fuel (zip_with (λ p A, redistribute uninit typemap p A j) ps As)
  = Some (Ok <$> imap (redistributed G sz gs j dt) ps).
Proof.
  intros (Hlp & HlA & Hi & Hsec) HG Hij Hj Htm Hfuel.
  set (progs := zip_with (λ p A, redistribute uninit typemap p A j) ps As).
  assert (length progs = sz) as Hlen
    by (unfold progs; rewrite length_zip_with; lia).
  assert (∀ r p, ps !! r = Some p → ∃ l,
            progs !! r = Some (redistribute uninit typemap p (metadata sz gs i dt r l) j) ∧
            mem p !! l = Some (mk_ndarray (<[i := extent (default 0 (gs !! i)) sz r]> gs)
                                 (section_of G sz gs i r))) as Hprog.
  { intros r p Hp. assert (r < sz) as Hr by (apply lookup_lt_Some in Hp; lia).
    destruct (lookup_lt_is_Some_2 As r ltac:(lia)) as [A HA].
    destruct (Hsec r p A Hp HA) as [HAeq Hmem]. exists (base A). split.
    - unfold progs. rewrite lookup_zip_with, Hp, HA. csimpl. by rewrite <-HAeq.
    - rewrite Hmem. by rewrite HAeq at 1. }
  destruct (decide (sz = 1)) as [->|Hsz1].
  - destruct ps as [|p [|??]]; try done. clear Hlp.
    destruct (Hprog 0 p eq_refl) as (l & Hp0 & Hmem).
    destruct progs as [|c [|??]]; try done. simpl in Hp0. injection Hp0 as ->.
    rewrite (redistribute_single_eq p G) by done.
    apply (run_world_returned fuel [_]).
  - destruct fuel as [|fuel]; [lia|].
    destruct (decide (sz = 0)) as [->|Hsz0].
    { destruct ps; [|done]. by destruct progs. }
    assert (∀ r, r < sz → ∃ p l, ps !! r = Some p ∧
              progs !! r = Some (redistribute uninit typemap p (metadata sz gs i dt r l) j) ∧
              mem p !! l = Some (mk_ndarray (<[i := extent (default 0 (gs !! i)) sz r]> gs)
                                   (section_of G sz gs i r))) as Hprog'.
    { intros r Hr. destruct (lookup_lt_is_Some_2 ps r ltac:(lia)) as [p Hp].
      destruct (Hprog r p Hp) as (l & ? & ?). eauto. }
    rewrite run_world_exchange.
    + assert (resume_exchange (sends_of <$> progs) <$> progs
              = (λ o, @Done T _ (Ok o)) <$> imap (redistributed G sz gs j dt) ps) as ->;
        [|apply run_world_returned].
      apply list_eq. intros r. rewrite !list_lookup_fmap, list_lookup_imap.
      destruct (decide (r < sz)) as [Hr|Hr].
      * destruct (Hprog' r Hr) as (p & l & Hp & Hpr & Hmem).
        rewrite Hpr, Hp. csimpl. f_equal.
        rewrite (redistribute_rank_eq uninit typemap p G) by done.
        cbn [resume_exchange]. f_equal.
        apply redistribute_assemble; try done.
        intros ir Hir. rewrite list_lookup_fmap.
        destruct (Hprog' ir Hir) as (p' & l' & Hp' & Hpr' & Hmem').
        rewrite Hpr'. csimpl.
        by rewrite (redistribute_rank_eq uninit typemap p' G) by done.
      * rewrite !lookup_ge_None_2 by lia. done.
    + intros ->. simpl in Hlen. lia.
    + apply Forall_lookup. intros r c Hc.
      assert (r < sz) as Hr by (apply lookup_lt_Some in Hc; lia).
      destruct (Hprog' r Hr) as (p & l & Hp & Hpr & Hmem).
      rewrite Hpr in Hc. injection Hc as <-.
      by rewrite (redistribute_rank_eq uninit typemap p G) by done.
Qed.

End redistribute_world.

Lemma mapM_result_lookup {A B} (f : A → result B) (g : nat → B) (l : list A) :
  (∀ r x, l !! r = Some x → f x = Ok (g r)) →
  mapM f l = Ok (g <$> seq 0 (length l)).
Proof.
  revert g. induction l as [|x l IH]; intros g Hg; [done|].
  cbn [mapM]. rewrite (Hg 0 x eq_refl). rewrite (IH (g ∘ S)).
  - cbn [mbind result_bind mret result_ret length seq]. csimpl. do 2 f_equal.
    rewrite <-fmap_S_seq. by rewrite <-list_fmap_compose.
  - intros r y Hr. apply (Hg (S r) y Hr).
Qed.

Lemma sum_extent_offset n sz r : sum_list (extent n sz <$> seq 0 r) = offset_of n sz r.
Proof. rewrite sum_extent_prefix. unfold offset_of. simpl. lia. Qed.

Section roundtrip.
Context {T dtype mpitype : Type}.
Variable uninit : T.
Variable typemap : dtype → option mpitype.

Lemma redistributed_sections (G : nested T) (sz j : nat) (gs : list nat) (dt : dtype)
    (ps : list (process T)) :
  length ps = sz → j < length gs →
  sections_of G sz gs j dt (states (imap (redistributed G sz gs j dt) ps))
                           (arrays (imap (redistributed G sz gs j dt) ps)).
Proof.
  intros Hlen Hj. unfold states, arrays. split_and!; try done.
  - by rewrite length_fmap, length_imap.
  - by rewrite length_fmap, length_imap.
  - intros r p' A'. rewrite !list_lookup_fmap, !list_lookup_imap.
    destruct (ps !! r) as [p|]; [|done]. csimpl. intros [= <-] [= <-].
    split; [done|]. cbn [mem base metadata]. by rewrite list_lookup_middle.
Qed.

Lemma sections_global_array (G : nested T) (sz i : nat) (gs : list nat) (dt : dtype)
    (ps : list (process T)) (As : list (MPIArray dtype)) :
  sections_of G sz gs i dt ps As → has_shape gs G → 0 < sz →
  global_array ps As = Ok (mk_ndarray gs G).
Proof.
  intros (Hlp & HlA & Hi & Hsec) HG Hsz.
  destruct (lookup_lt_is_Some_2 gs i Hi) as [ni Hni].
  unfold global_array. destruct As as [|A0 As']; [simpl in HlA; lia|].
  destruct (lookup_lt_is_Some_2 ps 0 ltac:(lia)) as [p0 Hp0].
  destruct (Hsec 0 p0 A0 Hp0 eq_refl) as [HA0 _].
  rewrite HA0. cbn [_axis _global_shape metadata]. fold (metadata sz gs i dt 0 (base A0)).
  rewrite <-HA0.
  rewrite (mapM_result_lookup _
    (λ r, mk_ndarray (<[i := extent ni sz r]> gs) (section_of G sz gs i r))).
  2:{ intros r [p A] Hr. apply lookup_zip_with_Some in Hr as (? & ? & [= <- <-] & Hp & HA).
      destruct (Hsec r p A Hp HA) as [HAeq Hmem]. cbn [fst snd].
      rewrite Hmem. rewrite HAeq. cbn [of_option _local_shape metadata]. by rewrite Hni. }
  cbn [mbind result_bind]. rewrite length_zip_with, Hlp, HlA, Nat.min_id.
  rewrite (np_concatenate_sections _ gs i ni sz (extent ni sz)); try done.
  - cbn [items]. do 2 f_equal.
    change (items ∘ (λ r, mk_ndarray (<[i:=extent ni sz r]> gs) (section_of G sz gs i r)))
      with (λ r, section_of G sz gs i r).
    unfold section_of. rewrite Hni. cbn [default].
    rewrite (cat_list_tile i (offset_of ni sz) 0 (sz - 1)).
    + replace (1 + (sz - 1)) with sz by lia. rewrite offset_of_total by lia.
      rewrite offset_of_0. by eapply slice_items_full.
    + intros r. rewrite offset_of_S. lia.
  - by apply split_parts_sum.
Qed.

(** A distributed array is the set of sections of the join of its local
    buffers. *)
Lemma distributed_sections (sz i : nat) (gs : list nat) (dt : dtype)
    (ps : list (process T)) (As : list (MPIArray dtype)) :
  distributed sz gs i dt ps As → 0 < sz →
  ∃ G, has_shape gs G ∧ sections_of G sz gs i dt ps As.
Proof.
  intros (Hlp & HlA & Hi & Hloc) Hsz.
  destruct (lookup_lt_is_Some_2 gs i Hi) as [ni Hni].
  set (X := λ r, default (Leaf uninit)
              (p ← ps !! r; A ← As !! r; items <$> mem p !! base A)).
  assert (∀ r, r < sz → has_shape (<[i := extent ni sz r]> gs) (X r) ∧
            ∀ p A, ps !! r = Some p → As !! r = Some A →
              mem p !! base A = Some (mk_ndarray (_local_shape A) (X r))) as HX.
  { intros r Hr.
    destruct (lookup_lt_is_Some_2 ps r ltac:(lia)) as [p Hp].
    destruct (lookup_lt_is_Some_2 As r ltac:(lia)) as [A HA].
    destruct (Hloc r p A Hp HA) as (HAeq & arr & Hmem & Hshape & Hwf).
    assert (X r = items arr) as HXr by (unfold X; rewrite Hp, HA; csimpl; by rewrite Hmem).
    assert (_local_shape A = <[i := extent ni sz r]> gs) as Hls
      by (rewrite HAeq; cbn [_local_shape metadata]; by rewrite Hni).
    split.
    - rewrite HXr, <-Hls, <-Hshape. exact Hwf.
    - intros p' A' Hp' HA'. simplify_eq. rewrite Hmem, HXr, <-Hshape. by destruct arr. }
  exists (cat_list i (X 0) (X <$> seq 1 (sz - 1))). split.
  - pose proof (cat_list_shape gs i (extent ni sz) X 0 (sz - 1) Hi) as Hs.
    replace (S (sz - 1)) with sz in Hs by lia.
    rewrite split_parts_sum, list_insert_id in Hs by done.
    apply Hs. intros r Hr. apply HX. lia.
  - split_and!; try done. intros r p A Hp HA.
    assert (r < sz) as Hr by (apply lookup_lt_Some in Hp; lia).
    destruct (Hloc r p A Hp HA) as (HAeq & _). split; [done|].
    destruct (HX r Hr) as [_ Hmem]. rewrite (Hmem p A Hp HA). do 2 f_equal.
    unfold section_of. rewrite Hni. cbn [default].
    rewrite <-!sum_extent_offset.
    pose proof (cat_list_pick gs i (extent ni sz) X 0 (sz - 1) r Hi) as Hpick.
    rewrite Nat.sub_0_r in Hpick. symmetry. apply Hpick; [|lia].
    intros t Ht. apply HX. lia.
Qed.

End roundtrip.

Section roundtrip_theorem.
Context {T dtype mpitype : Type}.
Variable uninit : T.
Variable typemap : dtype → option mpitype.

Lemma redistribute_same_axis (p : process T) (A : MPIArray dtype) :
  redistribute uninit typemap p A (_axis A) = Done (Ok (p, A, [])).
Proof. unfold redistribute. destruct (_comm A); [|done]. by rewrite decide_True. Qed.

Lemma redistribute_unsupported (p : process T) (A : MPIArray dtype) (c : Comm) (j : nat) :
  _comm A = Some c → _axis A ≠ j → typemap (_dtype A) = None →
  redistribute uninit typemap p A j =
    Done (Ok (p, A, if decide (rank c = 0) then [WarnCompoundDatatype] else [])).
Proof.
  intros Hc Hj Htm. unfold redistribute. rewrite Hc, decide_False, Htm by done. done.
Qed.

Lemma states_zip_with {W} (w : MPIArray dtype → W) (ps : list (process T))
    (As : list (MPIArray dtype)) :
  length ps = length As →
  states (zip_with (λ p A, (p, A, w A)) ps As) = ps ∧
  arrays (zip_with (λ p A, (p, A, w A)) ps As) = As.
Proof.
  revert As. induction ps as [|p ps IH]; intros [|A As] Hlen; try done.
  simpl in Hlen. destruct (IH As ltac:(lia)) as [H1 H2].
  unfold states, arrays in *. csimpl. by rewrite H1, H2.
Qed.

Lemma zip_with_lookup_ext {A B C} (f g : A → B → C) (l : list A) (k : list B) :
  (∀ r x y, l !! r = Some x → k !! r = Some y → f x y = g x y) →
  zip_with f l k = zip_with g l k.
Proof.
  revert k. induction l as [|x l IH]; intros [|y k] Hfg; try done. simpl.
  rewrite (Hfg 0 x y) by done. f_equal. apply IH. intros r. apply (Hfg (S r)).
Qed.

End roundtrip_theorem.

(** The round trip for any number of ranks. *)
Lemma redistribute_roundtrip_any_size {T dtype mpitype : Type} (uninit : T)
    (typemap : dtype → option mpitype) (sz i j fuel : nat) (gs : list nat) (dt : dtype)
    (ps : list (process T)) (As : list (MPIArray dtype)) :
  0 < sz → distributed sz gs i dt ps As → j < length gs → i ≠ j → 1 ≤ fuel →
  ∃ outs1 outs2,
    run_world fuel (zip_with (λ p A, redistribute uninit typemap p A j) ps As)
      = Some (Ok <$> outs1) ∧
    run_world fuel (zip_with (λ p A, redistribute uninit typemap p A i)
                      (states outs1) (arrays outs1))
      = Some (Ok <$> outs2) ∧
    (∃ g, global_array ps As = Ok g ∧
          global_array (states outs1) (arrays outs1) = Ok g ∧
          global_array (states outs2) (arrays outs2) = Ok g) ∧
    (∀ r p A p2 A2,
       ps !! r = Some p → As !! r = Some A →
       states outs2 !! r = Some p2 → arrays outs2 !! r = Some A2 →
       is_ok (local_array p A) = true ∧
       local_array p2 A2 = local_array p A ∧
       _global_shape A2 = _global_shape A ∧ _axis A2 = _axis A ∧
       _local_shape A2 = _local_shape A ∧ _local_offset A2 = _local_offset A ∧
       _comm A2 = _comm A ∧ _dtype A2 = _dtype A) ∧
    (∀ r p A p1 p2,
       ps !! r = Some p → As !! r = Some A →
       states outs1 !! r = Some p1 → states outs2 !! r = Some p2 →
       local_array p1 A = local_array p A ∧ local_array p2 A = local_array p A).
Proof.
  intros Hsz Hdist Hj Hij Hfuel.
  destruct (distributed_sections uninit sz i gs dt ps As Hdist Hsz) as (G & HG & Hsec).
  pose proof (sections_global_array G sz i gs dt ps As Hsec HG Hsz) as Hglob.
  destruct Hdist as (Hlp & HlA & Hi & Hloc).
  destruct (typemap dt) as [m|] eqn:Htm.
  - (* the element type has a wire type: two real exchanges *)
    set (outs1 := imap (redistributed G sz gs j dt) ps).
    set (outs2 := imap (redistributed G sz gs i dt) (states outs1)).
    assert (length (states outs1) = sz) as Hl1
      by (unfold states, outs1; by rewrite length_fmap, length_imap).
    pose proof (redistributed_sections G sz j gs dt ps Hlp Hj) as Hsec1. fold outs1 in Hsec1.
    pose proof (redistributed_sections G sz i gs dt (states outs1) Hl1 Hi) as Hsec2.
    fold outs2 in Hsec2.
    assert (∀ r p, ps !! r = Some p →
              states outs1 !! r = Some (redistributed G sz gs j dt r p).1.1) as Hst1.
    { intros r p Hp. unfold states, outs1. by rewrite list_lookup_fmap, list_lookup_imap, Hp. }
    assert (∀ r p1, states outs1 !! r = Some p1 →
              states outs2 !! r = Some (redistributed G sz gs i dt r p1).1.1 ∧
              arrays outs2 !! r = Some (redistributed G sz gs i dt r p1).1.2) as Hst2.
    { intros r p1 Hp1. unfold outs2. unfold states at 1, arrays.
      by rewrite !list_lookup_fmap, !list_lookup_imap, Hp1. }
    exists outs1, outs2. split_and!.
    + by apply (redistribute_sections uninit typemap G sz i j).
    + by apply (redistribute_sections uninit typemap G sz j i).
    + exists (mk_ndarray gs G). split_and!; [done|..].
      * by eapply sections_global_array.
      * by eapply sections_global_array.
    + intros r p A p2 A2 Hp HA Hp2 HA2.
      destruct (Hsec) as (_ & _ & _ & Hsec0). destruct (Hsec0 r p A Hp HA) as [HAeq Hmem].
      destruct (Hst2 r _ (Hst1 r p Hp)) as [Hp2' HA2']. simplify_eq.
      unfold local_array. rewrite Hmem. cbn [mem base redistributed metadata fst snd].
      rewrite list_lookup_middle by done. rewrite HAeq. cbn. done.
    + intros r p A p1 p2 Hp HA Hp1 Hp2.
      destruct (Hloc r p A Hp HA) as (_ & arr & Hmem & _).
      pose proof (lookup_lt_Some _ _ _ Hmem) as Hlt.
      pose proof (Hst1 r p Hp) as Hp1'. destruct (Hst2 r _ Hp1') as [Hp2' _]. simplify_eq.
      unfold local_array. cbn [mem redistributed fst snd].
      rewrite !lookup_app_l; [done|try done; rewrite ?length_app; lia..].
  - (* no wire type: both calls hand the input back *)
    set (w := λ A : MPIArray dtype,
           if decide (comm_rank (_comm A) = 0) then [WarnCompoundDatatype] else []).
    destruct (states_zip_with w ps As ltac:(lia)) as [Hs1 Ha1].
    destruct (states_zip_with (λ _, @nil warning) ps As ltac:(lia)) as [Hs2 Ha2].
    exists (zip_with (λ p A, (p, A, w A)) ps As), (zip_with (λ p A, (p, A, [])) ps As).
    rewrite Hs1, Ha1, Hs2, Ha2. split_and!.
    + rewrite (zip_with_lookup_ext _ (λ p A, Done (Ok (p, A, w A)))).
      * apply run_world_returned_zip.
      * intros r p A Hp HA. destruct (Hloc r p A Hp HA) as (HAeq & _).
        rewrite (redistribute_unsupported uninit typemap p A (mkComm sz r)).
        -- unfold w. by rewrite HAeq.
        -- by rewrite HAeq.
        -- by rewrite HAeq.
        -- by rewrite HAeq.
    + rewrite (zip_with_lookup_ext _ (λ p A, Done (Ok (p, A, [])))).
      * apply run_world_returned_zip.
      * intros r p A Hp HA. destruct (Hloc r p A Hp HA) as (HAeq & _).
        rewrite <-(redistribute_same_axis uninit typemap p A). f_equal. by rewrite HAeq.
    + eauto.
    + intros r p A p2 A2 Hp HA Hp2 HA2.
      rewrite Hp in Hp2. rewrite HA in HA2. injection Hp2 as <-. injection HA2 as <-.
      destruct (Hloc r p A Hp HA) as (_ & arr & Hmem & _).
      unfold local_array. by rewrite Hmem.
    + intros r p A p1 p2 Hp HA Hp1 Hp2. by simplify_eq.
Qed.

(** C2.  Take an array distributed along axis [i] over 1, 2 or 4 ranks and
    another axis [j] of it.  Redistributing to [j] returns on every rank,
    and so does redistributing the result back to [i]; the logical global
    array of the input, of the intermediate array and of the final array
    is the same; on every rank the final array has the attributes and the
    local contents of the input; and the buffer of the input still holds
    what it held, after the first call and after the second. *)
Theorem redistribute_roundtrip {T dtype mpitype : Type} (uninit : T)
    (typemap : dtype → option mpitype) (sz i j fuel : nat) (gs : list nat) (dt : dtype)
    (ps : list (process T)) (As : list (MPIArray dtype)) :
  sz = 1 ∨ sz = 2 ∨ sz = 4 →
  distributed sz gs i dt ps As → j < length gs → i ≠ j → 1 ≤ fuel →
  ∃ outs1 outs2,
    run_world fuel (zip_with (λ p A, redistribute uninit typemap p A j) ps As)
      = Some (Ok <$> outs1) ∧
    run_world fuel (zip_with (λ p A, redistribute uninit typemap p A i)
                      (states outs1) (arrays outs1))
      = Some (Ok <$> outs2) ∧
    (∃ g, global_array ps As = Ok g ∧
          global_array (states outs1) (arrays outs1) = Ok g ∧
          global_array (states outs2) (arrays outs2) = Ok g) ∧
    (∀ r p A p2 A2,
       ps !! r = Some p → As !! r = Some A →
       states outs2 !! r = Some p2 → arrays outs2 !! r = Some A2 →
       is_ok (local_array p A) = true ∧
       local_array p2 A2 = local_array p A ∧
       _global_shape A2 = _global_shape A ∧ _axis A2 = _axis A ∧
       _local_shape A2 = _local_shape A ∧ _local_offset A2 = _local_offset A ∧
       _comm A2 = _comm A ∧ _dtype A2 = _dtype A) ∧
    (∀ r p A p1 p2,
       ps !! r = Some p → As !! r = Some A →
       states outs1 !! r = Some p1 → states outs2 !! r = Some p2 →
       local_array p1 A = local_array p A ∧ local_array p2 A = local_array p A).
Proof. intros Hsz. apply redistribute_roundtrip_any_size. lia. Qed.

Lemma redistribute_roundtrip_witness :
  let ps := [mkProcess (Some (mkComm 2 0))
               [mk_ndarray [2; 3] (Node [Node [Leaf 1%Z; Leaf 2%Z; Leaf 3%Z];
                                         Node [Leaf 4%Z; Leaf 5%Z; Leaf 6%Z]])];
             mkProcess (Some (mkComm 2 1))
               [mk_ndarray [1; 3] (Node [Node [Leaf 7%Z; Leaf 8%Z; Leaf 9%Z]])]] in
  let As := [metadata 2 [3; 3] 0 () 0 0; metadata 2 [3; 3] 0 () 1 0] in
  ∃ outs1 outs2,
    run_world 1 (zip_with (λ p A, redistribute 0%Z (λ _ : (), Some ()) p A 1) ps As)
      = Some (Ok <$> outs1) ∧
    run_world 1 (zip_with (λ p A, redistribute 0%Z (λ _ : (), Some ()) p A 0)
                   (states outs1) (arrays outs1))
      = Some (Ok <$> outs2) ∧
    (∃ g, global_array ps As = Ok g ∧
          global_array (states outs1) (arrays outs1) = Ok g ∧
          global_array (states outs2) (arrays outs2) = Ok g).
Proof.
  intros ps As.
  destruct (redistribute_roundtrip 0%Z (λ _ : (), Some ()) 2 0 1 1 [3; 3] () ps As)
    as (outs1 & outs2 & H1 & H2 & H3 & _).
  - right. left. reflexivity.
  - split; [reflexivity|]. split; [reflexivity|]. split; [simpl; lia|].
    intros [|[|r]] p A Hp HA; simpl in Hp, HA; try discriminate.
    + injection Hp as <-. injection HA as <-. split; [reflexivity|].
      eexists. split; [reflexivity|]. split; [reflexivity|].
      repeat (constructor; simpl).
    + injection Hp as <-. injection HA as <-. split; [reflexivity|].
      eexists. split; [reflexivity|]. split; [reflexivity|].
      repeat (constructor; simpl).
  - simpl. lia.
  - lia.
  - lia.
  - exists outs1, outs2. split; [exact H1|]. split; [exact H2|exact H3].
Defined.

(** ** redistribute and element types without a wire type *)

(** C9, as stated, fails: on a rank other than 0 no warning is issued.
    Rank 1 of 2 holds an array of an unmapped element type, distributed
    along axis 0, and is asked for axis 1: it gets its array back and the
    list of warnings is empty. *)
Lemma redistribute_unsupported_counterexample :
  ¬ (∀ (p : process Z) (A : MPIArray ()) (axis : nat),
       ∃ w, w ≠ [] ∧
         redistribute 0%Z (λ _ : (), @None ()) p A axis = Done (Ok (p, A, w))).
Proof.
  intros H.
  destruct (H (mkProcess (Some (mkComm 2 1)) [mk_ndarray [1; 2] (Node [Node [Leaf 5%Z; Leaf 6%Z]])])
              (metadata 2 [2; 2] 0 () 1 0) 1) as (w & Hw & Heq).
  vm_compute in Heq. injection Heq as <-. by apply Hw.
Qed.

(** C9, amended.  For an array whose element type has no wire type, held
    over a communicator, and a target axis other than the current one,
    [redistribute] returns at once, without a message and without raising:
    the result is the input array itself, in unchanged memory.  The warning
    is issued on rank 0 and on no other rank. *)
Theorem redistribute_unsupported_dtype {T dtype mpitype : Type} (uninit : T)
    (typemap : dtype → option mpitype) (p : process T) (A : MPIArray dtype)
    (c : Comm) (axis : nat) :
  _comm A = Some c → _axis A ≠ axis → typemap (_dtype A) = None →
  redistribute uninit typemap p A axis =
    Done (Ok (p, A, if decide (rank c = 0) then [WarnCompoundDatatype] else [])).
Proof. intros Hc Hax Htm. by apply redistribute_unsupported. Qed.

Lemma redistribute_unsupported_dtype_witness :
  redistribute 0%Z (λ _ : (), @None ())
    (mkProcess (Some (mkComm 2 0)) [mk_ndarray [1; 2] (Node [Node [Leaf 5%Z; Leaf 6%Z]])])
    (metadata 2 [2; 2] 0 () 0 0) 1
  = Done (Ok (mkProcess (Some (mkComm 2 0))
                [mk_ndarray [1; 2] (Node [Node [Leaf 5%Z; Leaf 6%Z]])],
              metadata 2 [2; 2] 0 () 0 0, [WarnCompoundDatatype])).
Proof.
  apply (redistribute_unsupported_dtype 0%Z (λ _ : (), @None ()) _ _ (mkComm 2 0) 1);
    [reflexivity|simpl; lia|reflexivity].
Defined.

(** ** wrap *)

Section wrap_facts.
Context {T dtype : Type}.

Lemma reduce_sum_of_nat (ns : list nat) :
  N.to_nat (reduce SUM (N.of_nat <$> ns)) = sum_list ns.
Proof.
  induction ns as [|n ns IH]; [done|]. cbn [fmap list_fmap reduce foldr sum_list_with] in *.
  rewrite N2Nat.inj_add, IH. unfold id. lia.
Qed.

Lemma reduce_max_zero (ns : list N) : reduce MAX ns = 0%N ↔ Forall (λ n, n = 0%N) ns.
Proof.
  induction ns as [|n ns IH]; cbn [reduce foldr] in *; [by split|]. split.
  - intros Hmax. constructor; [lia|]. apply IH. lia.
  - intros Hall. inversion Hall as [|?? Hn Hns]; subst. apply IH in Hns. lia.
Qed.

(** The two reductions of [wrap] on rank [r] of [sz], and the attributes
    it sets once the total extent is agreed. *)
Lemma wrap_rank_eq (p : process T) (l : loc) (dt : dtype) (axis sz r : nat)
    (arr : ndarray T) (axlen : nat) :
  r < sz → mem p !! l = Some arr → shape arr !! axis = Some axlen →
  at_allreduce SUM (wrap p l dt axis (Some (mkComm sz r))) = true ∧
  contribution (wrap p l dt axis (Some (mkComm sz r))) = N.of_nat axlen ∧
  ∀ total,
    resume_reduce total (wrap p l dt axis (Some (mkComm sz r))) =
      Allreduce MAX (if bool_decide (axlen ≠ extent (N.to_nat total) sz r) then 1%N else 0%N)
        (λ layout_issue,
           if bool_decide (layout_issue ≠ 0%N) then Done (Raise LayoutException)
           else Done (Ok (wrapped sz axis dt (N.to_nat total) r arr l))).
Proof.
  intros Hr Hmem Hax. unfold wrap. rewrite Hmem, Hax. split_and!; [done..|].
  intros total. cbn [resume_reduce]. cbv zeta. by rewrite split_local_eq.
Qed.

Lemma layout_flags (axis sz total : nat) (ws : list (process T * loc * ndarray T)) :
  length ws = sz →
  bool_decide (reduce MAX (imap (λ r w,
      if bool_decide (axis_extent axis w.2 ≠ extent total sz r) then 1%N else 0%N) ws) ≠ 0%N)
  = negb (bool_decide ((λ w, axis_extent axis w.2) <$> ws = extent total sz <$> seq 0 sz)).
Proof.
  intros Hlen.
  set (flags := imap _ ws).
  destruct (decide (Forall (λ n, n = 0%N) flags)) as [Hall|Hnot].
  - rewrite bool_decide_eq_false_2 by (intros H; by apply H, reduce_max_zero).
    rewrite bool_decide_eq_true_2; [done|].
    apply list_eq. intros r. rewrite !list_lookup_fmap.
    destruct (ws !! r) as [w|] eqn:Hw.
    + assert (r < sz) as Hr by (apply lookup_lt_Some in Hw; lia).
      rewrite lookup_seq_lt by done. csimpl. f_equal.
      assert (flags !! r = Some (if bool_decide (axis_extent axis w.2 ≠ extent total sz r)
                                 then 1%N else 0%N)) as Hf
        by (unfold flags; by rewrite list_lookup_imap, Hw).
      eapply Forall_lookup_1 in Hf; [|exact Hall]. simpl in Hf.
      case_bool_decide; [done|]. by destruct (decide (axis_extent axis w.2 = extent total sz r)).
    + apply lookup_ge_None in Hw. rewrite lookup_seq_ge by lia. done.
  - rewrite bool_decide_eq_true_2 by (intros H; by apply Hnot, reduce_max_zero).
    rewrite bool_decide_eq_false_2; [done|]. intros Heq. apply Hnot.
    apply Forall_lookup. intros r n Hn. unfold flags in Hn.
    rewrite list_lookup_imap in Hn. destruct (ws !! r) as [w|] eqn:Hw; [|done].
    assert (r < sz) as Hr by (apply lookup_lt_Some in Hw; lia).
    injection Hn as <-.
    assert (((λ w, axis_extent axis w.2) <$> ws) !! r = (extent total sz <$> seq 0 sz) !! r)
      as Hr' by (by rewrite Heq).
    rewrite !list_lookup_fmap, Hw, lookup_seq_lt in Hr' by done. injection Hr' as Hr'.
    by rewrite bool_decide_eq_false_2 by (by intros ?).
Qed.

Lemma wrap_all_run (dt : dtype) (axis fuel : nat) (ws : list (process T * loc * ndarray T)) :
  ws ≠ [] →
  Forall (λ w, mem w.1.1 !! w.1.2 = Some w.2 ∧ is_Some (shape w.2 !! axis)) ws →
  2 ≤ fuel →
  let sz := length ws in
  let axlens := (λ w, axis_extent axis w.2) <$> ws in
  let totallen := sum_list axlens in
  run_world fuel (wrap_all dt axis ws) =
    Some (imap (λ r w,
            if bool_decide (axlens = extent totallen sz <$> seq 0 sz)
            then Ok (wrapped sz axis dt totallen r w.2 w.1.2)
            else Raise LayoutException) ws).
Proof.
  intros Hne Hws Hfuel sz axlens totallen.
  destruct fuel as [|[|fuel]]; [lia..|].
  change (wrap_all dt axis ws)
    with (imap (λ r w, wrap w.1.1 w.1.2 dt axis (Some (mkComm sz r))) ws).
  assert (∀ r w, ws !! r = Some w →
            r < sz ∧ mem w.1.1 !! w.1.2 = Some w.2 ∧
            shape w.2 !! axis = Some (axis_extent axis w.2)) as Hrank.
  { intros r w Hw. pose proof (lookup_lt_Some _ _ _ Hw).
    eapply Forall_lookup_1 in Hws as [Hmem [n Hn]]; [|exact Hw].
    split_and!; [done..|]. unfold axis_extent. by rewrite Hn. }
  set (flag := λ r (w : process T * loc * ndarray T),
         if bool_decide (axis_extent axis w.2 ≠ extent totallen sz r) then 1%N else 0%N).
  rewrite (run_world_allreduce _ SUM).
  2:{ intros Heq. apply (f_equal length) in Heq.
      rewrite length_imap in Heq. by destruct ws. }
  2:{ apply Forall_lookup. intros r c Hc.
      rewrite list_lookup_imap in Hc. destruct (ws !! r) as [w|] eqn:Hw; [|done].
      injection Hc as <-. destruct (Hrank r w Hw) as (Hr & Hmem & Hax).
      by destruct (wrap_rank_eq w.1.1 w.1.2 dt axis sz r w.2 _ Hr Hmem Hax) as (-> & _). }
  assert (contribution <$> imap (λ r w, wrap w.1.1 w.1.2 dt axis (Some (mkComm sz r))) ws
          = N.of_nat <$> axlens) as ->.
  { unfold axlens. rewrite fmap_imap, <-list_fmap_compose, <-imap_const. apply imap_ext.
    intros r w Hw. destruct (Hrank r w Hw) as (Hr & Hmem & Hax). simpl.
    by destruct (wrap_rank_eq w.1.1 w.1.2 dt axis sz r w.2 _ Hr Hmem Hax) as (_ & -> & _). }
  assert (resume_reduce (reduce SUM (N.of_nat <$> axlens))
            <$> imap (λ r w, wrap w.1.1 w.1.2 dt axis (Some (mkComm sz r))) ws
          = imap (λ r w, Allreduce MAX (flag r w)
              (λ layout_issue,
                 if bool_decide (layout_issue ≠ 0%N) then Done (Raise LayoutException)
                 else Done (Ok (wrapped sz axis dt totallen r w.2 w.1.2)))) ws) as ->.
  { rewrite fmap_imap. apply imap_ext.
    intros r w Hw. destruct (Hrank r w Hw) as (Hr & Hmem & Hax). unfold compose.
    destruct (wrap_rank_eq w.1.1 w.1.2 dt axis sz r w.2 _ Hr Hmem Hax) as (_ & _ & ->).
    by rewrite reduce_sum_of_nat. }
  rewrite (run_world_allreduce _ MAX).
  2:{ intros Heq. apply (f_equal length) in Heq. rewrite length_imap in Heq. by destruct ws. }
  2:{ apply Forall_lookup. intros r c Hc. rewrite list_lookup_imap in Hc.
      destruct (ws !! r) as [w|]; [|done]. by injection Hc as <-. }
  rewrite !fmap_imap.
  rewrite run_world_done.
  2:{ apply Forall_lookup. intros r c Hc. rewrite list_lookup_imap in Hc.
      destruct (ws !! r) as [w|]; [|done]. injection Hc as <-. simpl.
      by case_bool_decide. }
  f_equal. rewrite fmap_imap. apply imap_ext. intros r w Hw.
  change (imap (λ n, contribution ∘ _) ws) with (imap flag ws).
  unfold compose. cbn [resume_reduce].
  unfold flag. rewrite (layout_flags axis sz totallen ws eq_refl). fold axlens.
  by destruct (bool_decide (axlens = _)).
Qed.

End wrap_facts.

Lemma lists_differ_at (l k : list nat) :
  length l = length k → l ≠ k →
  ∃ r x y, l !! r = Some x ∧ k !! r = Some y ∧ x ≠ y.
Proof.
  revert k. induction l as [|x l IH]; intros [|y k] Hlen Hne; simpl in *; try done.
  destruct (decide (x = y)) as [->|Hxy].
  - destruct (IH k ltac:(lia)) as (r & x' & y' & ? & ? & ?); [congruence|].
    by exists (S r), x', y'.
  - by exists 0, x, y.
Qed.

(** C8.  All ranks of a communicator call [wrap], each on its own local
    buffer in which the axis exists.  The total extent is the sum of the
    local extents along the axis.  If the list of local extents is not the
    balanced split of that total, which is the case exactly when some
    rank's extent differs from its share, every rank raises the layout
    exception.  Otherwise every rank gets a view of its buffer whose
    global shape is the local shape with the total on the axis, whose
    offset is the rank's start in the balanced split, and whose
    communicator is the one passed in; these are the attributes of the
    distributed-array invariant. *)
Theorem wrap_layout_check {T dtype : Type} (dt : dtype) (axis fuel : nat)
    (ws : list (process T * loc * ndarray T)) :
  ws ≠ [] →
  Forall (λ w, mem w.1.1 !! w.1.2 = Some w.2 ∧ is_Some (shape w.2 !! axis)) ws →
  2 ≤ fuel →
  let sz := length ws in
  let axlens := (λ w, axis_extent axis w.2) <$> ws in
  let totallen := N.to_nat (reduce SUM (N.of_nat <$> axlens)) in
  run_world fuel (wrap_all dt axis ws) =
    Some (imap (λ r w,
            if bool_decide (axlens = extent totallen sz <$> seq 0 sz)
            then Ok (mkMPIArray (<[axis := totallen]> (shape w.2)) axis (shape w.2)
                       (<[axis := offset_of totallen sz r]> (replicate (length (shape w.2)) 0))
                       (Some (mkComm sz r)) dt w.1.2)
            else Raise LayoutException) ws) ∧
  (axlens ≠ extent totallen sz <$> seq 0 sz ↔
     ∃ r n, axlens !! r = Some n ∧ n ≠ extent totallen sz r) ∧
  (∀ r w, ws !! r = Some w → axis_extent axis w.2 = extent totallen sz r →
     mkMPIArray (<[axis := totallen]> (shape w.2)) axis (shape w.2)
       (<[axis := offset_of totallen sz r]> (replicate (length (shape w.2)) 0))
       (Some (mkComm sz r)) dt w.1.2
     = metadata sz (<[axis := totallen]> (shape w.2)) axis dt r w.1.2).
Proof.
  intros Hne Hws Hfuel sz axlens totallen.
  assert (totallen = sum_list axlens) as Htotal by apply reduce_sum_of_nat.
  clearbody totallen. subst totallen. split_and!.
  - apply (wrap_all_run dt axis fuel ws Hne Hws Hfuel).
  - split.
    + intros Hdiff. apply lists_differ_at in Hdiff as (r & x & y & Hx & Hy & Hxy).
      * exists r, x. split; [done|].
        apply lookup_lt_Some in Hx as Hr. unfold axlens in Hr. rewrite length_fmap in Hr.
        rewrite list_lookup_fmap, lookup_seq_lt in Hy by done. by injection Hy as <-.
      * unfold axlens. by rewrite !length_fmap, length_seq.
    + intros (r & n & Hn & Hne') Heq. rewrite Heq in Hn.
      apply lookup_lt_Some in Hn as Hr. rewrite length_fmap, length_seq in Hr.
      rewrite list_lookup_fmap, lookup_seq_lt in Hn by done. by injection Hn as <-.
  - intros r w Hw Hext.
    eapply Forall_lookup_1 in Hws as [_ [n Hn]]; [|exact Hw].
    assert (axis < length (shape w.2)) as Hlt by (by eapply lookup_lt_Some).
    unfold metadata. rewrite list_lookup_insert_eq by done. cbn [default from_option id].
    rewrite list_insert_insert_eq, <-Hext, length_insert. f_equal.
    symmetry. apply list_insert_id. unfold axis_extent. by rewrite Hn.
Qed.

Lemma wrap_layout_check_witness :
  let ws := [(mkProcess (Some (mkComm 2 0))
                [mk_ndarray [2; 3] (Node [Node [Leaf 1%Z; Leaf 2%Z; Leaf 3%Z];
                                          Node [Leaf 4%Z; Leaf 5%Z; Leaf 6%Z]])], 0,
              mk_ndarray [2; 3] (Node [Node [Leaf 1%Z; Leaf 2%Z; Leaf 3%Z];
                                       Node [Leaf 4%Z; Leaf 5%Z; Leaf 6%Z]]));
             (mkProcess (Some (mkComm 2 1))
                [mk_ndarray [1; 3] (Node [Node [Leaf 7%Z; Leaf 8%Z; Leaf 9%Z]])], 0,
              mk_ndarray [1; 3] (Node [Node [Leaf 7%Z; Leaf 8%Z; Leaf 9%Z]]))] in
  run_world 2 (wrap_all () 0 ws) =
    Some [Ok (mkMPIArray [3; 3] 0 [2; 3] [0; 0] (Some (mkComm 2 0)) () 0);
          Ok (mkMPIArray [3; 3] 0 [1; 3] [2; 0] (Some (mkComm 2 1)) () 0)].
Proof.
  intros ws.
  destruct (wrap_layout_check () 0 2 ws) as (Hrun & _).
  - discriminate.
  - repeat constructor; simpl; eauto.
  - lia.
  - exact Hrun.
Defined.

(** ** Global subscripting *)

(** C3.  The code at the input where it departs from the claim.  Four
    ranks hold an array of global shape (4, 3) split along axis 0, one row
    each.  [global_slice[:2, 2]] selects rows 0 and 1.  Rank 3 gets
    [None]; rank 2, whose row 2 is not selected either, gets an empty
    array instead.  With two ranks holding two rows each of a (4, 1)
    array, [global_slice[0:2] = value] for a (2, 1) value writes on rank 0
    and raises on rank 1, which holds none of the selected rows. *)
Theorem global_slice_boundary_rank :
  let row (x : Z) := Node [Leaf x; Leaf x; Leaf x] in
  let p (r : nat) := mkProcess (Some (mkComm 4 r)) [mk_ndarray [1; 3] (Node [row (Z.of_nat r)])] in
  let sel := Tuple [Item (Slice (mk_slice None (Some 2%Z) None)); Item (Int 2%Z)] in
  resolver__getitem__ 0%Z (p 3) (metadata 4 [4; 3] 0 () 3 0) sel = ([], Ok (p 3, Nothing)) ∧
  resolver__getitem__ 0%Z (p 2) (metadata 4 [4; 3] 0 () 2 0) sel
    = ([], Ok (p 2, Plain (mk_ndarray [0] (Node [])))) ∧
  let q (r : nat) :=
    mkProcess (Some (mkComm 2 r))
      [mk_ndarray [2; 1] (Node [Node [Leaf (Z.of_nat r)]; Node [Leaf (Z.of_nat r)]])] in
  let value := mk_ndarray [2; 1] (Node [Node [Leaf 7%Z]; Node [Leaf 8%Z]]) in
  let sel' := Single (Slice (mk_slice (Some 0%Z) (Some 2%Z) None)) in
  resolver__setitem__ (q 0) (metadata 2 [4; 1] 0 () 0 0) sel' value
    = Ok (mkProcess (Some (mkComm 2 0)) [value]) ∧
  resolver__setitem__ (q 1) (metadata 2 [4; 1] 0 () 1 0) sel' value = Raise ValueError.
Proof. vm_compute. done. Qed.

(** C4, as stated, fails: the resolver does not compare the clipped start
    with the clipped stop.  One rank holds all 8 elements; the slice
    [5:3] resolves to start 5 and stop 3, both inside the rank, the
    clipped range is empty, and the entry for the axis is the slice
    [5:3], not [None]. *)
Lemma resolve_slice_empty_range_counterexample :
  ¬ (∀ (p : process Z) (self : MPIArray ()) (so : slobj) (s : slice)
       (offset glen L : nat) (local : ndarray Z) sl full,
       _local_offset self !! _axis self = Some offset →
       _global_shape self !! _axis self = Some glen →
       local_array p self = Ok local →
       shape local !! _axis self = Some L →
       expand_slobj (length (shape local)) so !! _axis self = Some (Slice s) →
       _resolve_slice p self so = Ok (sl, full) →
       let start' := match start s with
                     | Some b => (if decide (0 ≤ b) then b else b + Z.of_nat glen) - Z.of_nat offset
                     | None => 0
                     end%Z in
       let stop' := match stop s with
                    | Some b => (if decide (0 ≤ b) then b else b + Z.of_nat glen) - Z.of_nat offset
                    | None => Z.of_nat L
                    end%Z in
       (Z.max (Z.min stop' (Z.of_nat L)) 0 ≤ Z.max (Z.min start' (Z.of_nat L)) 0)%Z →
       sl !! _axis self = Some None).
Proof.
  intros H.
  specialize (H (mkProcess (Some (mkComm 1 0))
                   [mk_ndarray [8] (Node (replicate 8 (Leaf 0%Z)))])
                (metadata 1 [8] 0 () 0 0)
                (Single (Slice (mk_slice (Some 5%Z) (Some 3%Z) None)))
                (mk_slice (Some 5%Z) (Some 3%Z) None) 0 8 8
                (mk_ndarray [8] (Node (replicate 8 (Leaf 0%Z)))) _ _
                eq_refl eq_refl eq_refl eq_refl eq_refl eq_refl).
  vm_compute in H. by specialize (H ltac:(discriminate)).
Qed.

(** C4, amended.  For a slice on the distributed axis the resolver counts
    a negative start or stop from the end of the global axis and
    subtracts the rank's offset from a start or stop that is given; an
    absent start is 0 and an absent stop the local extent; the selection
    is full exactly when start, stop and step are all absent, so a given
    bound or a non-unit step marks it not-full.  The rank has no data
    when the resolved start is at or beyond the local extent or the
    resolved stop is negative.  When the start is below the local extent
    and the stop is positive, the entry is the slice from the start to
    the stop, both clipped into [0, local extent], with the step as
    given, whether or not that range is empty. *)
Theorem resolve_slice_distributed_axis {T dtype : Type} (p : process T)
    (self : MPIArray dtype) (so : slobj) (s : slice) (offset glen L : nat)
    (local : ndarray T) :
  _local_offset self !! _axis self = Some offset →
  _global_shape self !! _axis self = Some glen →
  local_array p self = Ok local →
  shape local !! _axis self = Some L →
  expand_slobj (length (shape local)) so !! _axis self = Some (Slice s) →
  let start' := match start s with
                | Some b => (if decide (0 ≤ b) then b else b + Z.of_nat glen) - Z.of_nat offset
                | None => 0
                end%Z in
  let stop' := match stop s with
               | Some b => (if decide (0 ≤ b) then b else b + Z.of_nat glen) - Z.of_nat offset
               | None => Z.of_nat L
               end%Z in
  ∃ entry fullslice,
    _resolve_slice p self so
      = Ok (<[_axis self := entry]> (Some <$> expand_slobj (length (shape local)) so),
            fullslice) ∧
    (fullslice = true ↔ start s = None ∧ stop s = None ∧ step s = None) ∧
    (∀ k, step s = Some k → k ≠ 1%Z → fullslice = false) ∧
    ((Z.of_nat L ≤ start' ∨ stop' < 0)%Z → entry = None) ∧
    ((start' < Z.of_nat L)%Z → (0 < stop')%Z →
       ∃ a b, entry = Some (Slice (mk_slice (Some a) (Some b) (step s))) ∧
         a = Z.max (Z.min start' (Z.of_nat L)) 0 ∧
         b = Z.max (Z.min stop' (Z.of_nat L)) 0 ∧
         (0 ≤ a ≤ Z.of_nat L)%Z ∧ (0 ≤ b ≤ Z.of_nat L)%Z).
Proof.
  intros Hoff Hglen Hlocal HL Hentry start' stop'.
  unfold _resolve_slice. rewrite Hoff, Hglen, Hlocal. cbn [of_option mbind result_bind].
  rewrite HL, Hentry. cbn [of_option mbind result_bind].
  change (resolve_bound (start s) glen offset 0) with start'.
  change (resolve_bound (stop s) glen offset (Z.of_nat L)) with stop'.
  eexists _, _. split; [reflexivity|]. split_and!.
  - by rewrite bool_decide_eq_true.
  - intros k Hk _. apply bool_decide_eq_false. rewrite Hk. naive_solver.
  - intros Hout. rewrite decide_True; [done|lia].
  - intros Hlo Hhi. rewrite decide_False by lia. eexists _, _. split; [reflexivity|]. lia.
Qed.

Lemma resolve_slice_distributed_axis_witness :
  _resolve_slice
    (mkProcess (Some (mkComm 2 1)) [mk_ndarray [4] (Node (replicate 4 (Leaf 0%Z)))])
    (metadata 2 [8] 0 () 1 0)
    (Single (Slice (mk_slice (Some (-3)%Z) None None)))
  = Ok ([Some (Slice (mk_slice (Some 1%Z) (Some 4%Z) None))], false).
Proof.
  destruct (resolve_slice_distributed_axis
              (mkProcess (Some (mkComm 2 1)) [mk_ndarray [4] (Node (replicate 4 (Leaf 0%Z)))])
              (metadata 2 [8] 0 () 1 0)
              (Single (Slice (mk_slice (Some (-3)%Z) None None)))
              (mk_slice (Some (-3)%Z) None None) 4 8 4
              (mk_ndarray [4] (Node (replicate 4 (Leaf 0%Z))))
              eq_refl eq_refl eq_refl eq_refl eq_refl)
    as (entry & fullslice & Heq & Hfull & _ & _ & Hin).
  destruct Hin as (a & b & -> & -> & -> & _); [reflexivity..|].
  destruct fullslice; [destruct (proj1 Hfull eq_refl) as [? _]; discriminate|].
  rewrite Heq. reflexivity.
Defined.

(** ** Direct subscripting on the distributed axis *)

Lemma slice_positions_full (n : nat) : slice_positions full_slice n = Ok (seq 0 n).
Proof.
  unfold slice_positions, slice_indices, full_slice. cbn [step start stop default from_option id].
  rewrite decide_False by lia. rewrite !(decide_False (P := (1 < 0)%Z)) by lia.
  cbn [mbind result_bind fst snd]. f_equal.
  assert (range_length 0 (Z.of_nat n) 1 = n) as ->.
  { unfold range_length. rewrite decide_True by lia. case_decide; [|lia].
    rewrite Z.div_1_r. lia. }
  rewrite <-(list_fmap_id (seq 0 n)) at 2. apply list_fmap_ext. intros _ k _. simpl. lia.
Qed.

Lemma omap_lookup_range {A} (xs : list A) (a n : nat) :
  omap (λ k, xs !! k) (seq a n) = take n (drop a xs).
Proof.
  revert a. induction n as [|n IH]; intros a; csimpl; [done|].
  rewrite IH. destruct (xs !! a) as [x|] eqn:Hx.
  - by rewrite (drop_S _ _ _ Hx).
  - apply lookup_ge_None in Hx. rewrite !drop_ge by lia. by rewrite take_nil.
Qed.

Lemma omap_lookup_seq {A} (xs : list A) : omap (λ k, xs !! k) (seq 0 (length xs)) = xs.
Proof. rewrite omap_lookup_range. simpl. by rewrite take_ge. Qed.

Section padding.
Context {T : Type}.

Lemma index_shape_pad (sh : list nat) (v : list index) (k : nat) :
  length v + k ≤ length sh →
  index_shape sh (v ++ replicate k (Slice full_slice)) = index_shape sh v.
Proof.
  revert sh. induction v as [|ix v IH]; intros sh Hlen.
  - cbn [app length] in *. revert sh Hlen. induction k as [|k IHk]; intros sh Hlen; [done|].
    destruct sh as [|n sh]; cbn [length] in Hlen; [lia|].
    cbn [replicate index_shape].
    rewrite slice_positions_full. cbn [mbind result_bind]. rewrite IHk by lia.
    cbn [mbind result_bind index_shape]. by rewrite length_seq.
  - destruct sh as [|n sh]; cbn [length] in Hlen; [lia|].
    rewrite <-app_comm_cons. cbn [index_shape]. destruct ix as [i|s].
    + destruct (int_position i n); [|done]. cbn [mbind result_bind]. apply IH. lia.
    + destruct (slice_positions s n); [|done]. cbn [mbind result_bind].
      rewrite IH by lia. done.
Qed.

Lemma index_items_full (sh : list nat) (a : nested T) (k : nat) :
  has_shape sh a → index_items (replicate k (Slice full_slice)) a = a.
Proof.
  revert sh a. induction k as [|k IH]; intros sh a Ha; [done|].
  destruct sh as [|n sh].
  - by apply has_shape_nil in Ha as [x ->].
  - apply has_shape_cons in Ha as (xs & -> & Hlen & Hxs).
    cbn [replicate index_items].
    rewrite slice_positions_full, omap_lookup_seq. f_equal.
    rewrite <-(list_fmap_id xs) at 2. apply Forall_fmap_ext.
    eapply Forall_impl; [done|]. intros x Hx. simpl. by eapply IH.
Qed.

Lemma index_items_pad (sh : list nat) (a : nested T) (v : list index) (k : nat) :
  has_shape sh a →
  index_items (v ++ replicate k (Slice full_slice)) a = index_items v a.
Proof.
  revert sh a. induction v as [|ix v IH]; intros sh a Ha.
  - by eapply index_items_full.
  - destruct sh as [|n sh].
    { by apply has_shape_nil in Ha as [x ->]. }
    apply has_shape_cons in Ha as (xs & -> & Hlen & Hxs).
    rewrite <-app_comm_cons. cbn [index_items]. destruct ix as [i|s].
    + destruct (int_position i (length xs)) as [pos|]; [|done].
      destruct (xs !! pos) as [x|] eqn:Hx; [|done].
      eapply IH, Forall_lookup_1; done.
    + destruct (slice_positions s (length xs)) as [pos|]; [|done]. f_equal.
      apply Forall_fmap_ext, Forall_forall. intros x Hx.
      apply list_elem_of_omap in Hx as (j & _ & Hj).
      eapply IH, Forall_lookup_1; done.
Qed.

Lemma np_getitem_pad (a : ndarray T) (v : list index) (ndim : nat) :
  wf_ndarray a → length (shape a) = ndim →
  np_getitem a (pad_index ndim v) = np_getitem a v.
Proof.
  intros Hwf Hndim. unfold np_getitem, pad_index.
  destruct (decide (length v ≤ ndim)) as [Hle|Hgt].
  - rewrite index_shape_pad by lia. by erewrite index_items_pad.
  - replace (ndim - length v) with 0 by lia. simpl. by rewrite app_nil_r.
Qed.

End padding.

(** C10, as stated, fails: the call raises whenever indexing the local
    buffer does.  Six elements over four ranks leave rank 2 with one
    element; [darr[1]] is in range on ranks 0 and 1 and raises
    [IndexError] on rank 2. *)
Lemma getitem_direct_counterexample :
  ¬ (∀ (p : process Z) (self : MPIArray ()) (i : Z),
       is_ok (local_array p self) = true →
       is_ok (__getitem__ 0%Z p self [Int i]).2 = true).
Proof.
  intros H.
  specialize (H (mkProcess (Some (mkComm 4 2)) [mk_ndarray [1] (Node [Leaf 7%Z])])
                (metadata 4 [6] 0 () 2 0) 1%Z eq_refl).
  vm_compute in H. discriminate.
Qed.

(** C10, amended.  Direct subscripting with an integer, or with a slice
    that is neither [:] nor [0:local extent], on the distributed axis
    raises nothing of its own and reads no offset: it issues the warning
    and then gives exactly what indexing [local_array] with the same
    subscript gives, a plain array when that succeeds and the same
    exception when that raises, as for an integer outside the local
    extent.  The memory of the process is unchanged. *)
Theorem getitem_direct_index {T dtype : Type} (uninit : T) (p : process T)
    (self : MPIArray dtype) (v : list index) (local : ndarray T) (ix : index) (n : nat) :
  local_array p self = Ok local →
  wf_ndarray local → length (shape local) = length (_global_shape self) →
  shape local !! _axis self = Some n →
  pad_index (length (_global_shape self)) v !! _axis self = Some ix →
  ix ≠ Slice full_slice →
  ix ≠ Slice (mk_slice (Some 0%Z) (Some (Z.of_nat n)) None) →
  __getitem__ uninit p self v =
    ([if is_int ix then WarnDirectIndex else WarnDirectSubslice],
     match np_getitem local v with
     | Ok r => Ok (p, Plain r)
     | Raise e => Raise e
     end).
Proof.
  intros Hlocal Hwf Hndim Hn Hix Hfull Hwhole.
  unfold __getitem__. rewrite Hix, Hlocal. rewrite decide_False by done.
  rewrite Hn. cbn [of_option mbind result_bind]. rewrite bool_decide_eq_true_2 by done.
  rewrite np_getitem_pad by done.
  destruct ix; cbn [is_int]; by destruct (np_getitem local v).
Qed.

Lemma getitem_direct_index_witness :
  __getitem__ 0%Z (mkProcess (Some (mkComm 2 1))
                     [mk_ndarray [2; 2] (Node [Node [Leaf 5%Z; Leaf 6%Z];
                                               Node [Leaf 7%Z; Leaf 8%Z]])])
    (metadata 2 [4; 2] 0 () 1 0) [Int 1%Z]
  = ([WarnDirectIndex], Ok (mkProcess (Some (mkComm 2 1))
                              [mk_ndarray [2; 2] (Node [Node [Leaf 5%Z; Leaf 6%Z];
                                                        Node [Leaf 7%Z; Leaf 8%Z]])],
                            Plain (mk_ndarray [2] (Node [Leaf 7%Z; Leaf 8%Z])))).
Proof.
  rewrite (getitem_direct_index 0%Z _ _ _
             (mk_ndarray [2; 2] (Node [Node [Leaf 5%Z; Leaf 6%Z]; Node [Leaf 7%Z; Leaf 8%Z]]))
             (Int 1%Z) 2);
    [reflexivity|reflexivity|repeat (constructor; simpl)|reflexivity|reflexivity|
     reflexivity|discriminate|discriminate].
Defined.

(** ** I/O partitions *)

Section partition_facts.
Context {T dtype : Type}.
Variable itemsize : dtype → N.

(** The split count is the ceiling of the quotient. *)
Lemma num_split_of_spec (largest : N) (num den : positive) :
  let threshold := (N.pos num * 2 ^ 30)%N in
  let k := N.of_nat (num_split_of largest num den) in
  (k * threshold < largest * N.pos den + threshold ∧ largest * N.pos den ≤ k * threshold)%N.
Proof.
  intros threshold k. unfold k, num_split_of. fold threshold. rewrite N2Nat.id.
  assert (0 < threshold)%N as Hpos by (unfold threshold; lia).
  pose proof (N.div_mod (largest * N.pos den + (threshold - 1)) threshold ltac:(lia)) as Hdm.
  pose proof (N.mod_upper_bound (largest * N.pos den + (threshold - 1)) threshold ltac:(lia))
    as Hmod.
  set (q := ((largest * N.pos den + (threshold - 1)) / threshold)%N) in *.
  set (m := ((largest * N.pos den + (threshold - 1)) mod threshold)%N) in *.
  nia.
Qed.

Lemma find_split_axis_found (self : MPIArray dtype) (num_split a n first count : nat) :
  first ≤ a < first + count → a ≠ _axis self →
  _global_shape self !! a = Some n → num_split ≤ n →
  (∀ k, first ≤ k < a →
     k = _axis self ∨ ∃ m, _global_shape self !! k = Some m ∧ m < num_split) →
  find_split_axis self num_split (seq first count) = Ok a.
Proof.
  revert first. induction count as [|count IH]; intros first Ha Hax Hn Hle Hbefore; [lia|].
  cbn [seq find_split_axis]. destruct (decide (first = a)) as [->|Hne].
  - rewrite decide_True by done. rewrite Hn. cbn [of_option mbind result_bind].
    by rewrite decide_True.
  - assert (find_split_axis self num_split (seq (S first) count) = Ok a) as Hrest.
    { apply IH; [lia|done..|]. intros k Hk. apply Hbefore. lia. }
    destruct (Hbefore first ltac:(lia)) as [->|(m & Hm & Hlt)].
    + by rewrite decide_False by (by intros ?).
    + case_decide; [|done]. rewrite Hm. cbn [of_option mbind result_bind].
      by rewrite decide_False by lia.
Qed.

Lemma find_split_axis_none (self : MPIArray dtype) (num_split first count : nat) :
  (∀ k, first ≤ k < first + count →
     k = _axis self ∨ ∃ m, _global_shape self !! k = Some m ∧ m < num_split) →
  find_split_axis self num_split (seq first count) = Raise RuntimeError.
Proof.
  revert first. induction count as [|count IH]; intros first Hnone; [done|].
  cbn [seq find_split_axis].
  assert (find_split_axis self num_split (seq (S first) count) = Raise RuntimeError) as Hrest.
  { apply IH. intros k Hk. apply Hnone. lia. }
  destruct (Hnone first ltac:(lia)) as [->|(m & Hm & Hlt)].
  - by rewrite decide_False by (by intros ?).
  - case_decide; [|done]. rewrite Hm. cbn [of_option mbind result_bind].
    by rewrite decide_False by lia.
Qed.

Lemma partition_io_run (skip : bool) (num den : positive) (fuel : nat)
    (ws : list (process T * MPIArray dtype * ndarray T)) :
  ws ≠ [] → Forall (λ w, local_array w.1.1 w.1.2 = Ok w.2) ws → 1 ≤ fuel →
  run_world fuel ((λ w, _partition_io itemsize w.1.1 w.1.2 skip num den) <$> ws) =
    Some ((λ w, partition_plan w.1.2 w.2 skip num den
                  (reduce MAX ((λ w, nbytes itemsize w.1.2 w.2) <$> ws))) <$> ws).
Proof.
  intros Hne Hws Hfuel. destruct fuel as [|fuel]; [lia|].
  assert ((λ w, _partition_io itemsize w.1.1 w.1.2 skip num den) <$> ws
          = (λ w, Allreduce MAX (nbytes itemsize w.1.2 w.2)
               (λ largest_size,
                  Done (partition_plan w.1.2 w.2 skip num den largest_size))) <$> ws) as ->.
  { apply Forall_fmap_ext. eapply Forall_impl; [done|]. intros w Hw. cbv beta in *.
    unfold _partition_io. by rewrite Hw. }
  rewrite (run_world_allreduce _ MAX).
  - rewrite <-!list_fmap_compose. rewrite run_world_done.
    + by rewrite <-list_fmap_compose.
    + by apply Forall_fmap, Forall_true.
  - by destruct ws.
  - by apply Forall_fmap, Forall_true.
Qed.

End partition_facts.

Lemma split_m_eq (n m : nat) :
  split_m n m =
    (extent n m <$> seq 0 m, offset_of n m <$> seq 0 m,
     (λ r, offset_of n m (S r)) <$> seq 0 m).
Proof. apply (split_all_eq n (mkComm m 0)). Qed.

Lemma zip_fmap_diag {A B C} (f : A → B) (g : A → C) (l : list A) :
  zip (f <$> l) (g <$> l) = (λ x, (f x, g x)) <$> l.
Proof. induction l as [|x l IH]; csimpl; [done|]. by rewrite IH. Qed.

(** C7.  Every rank calls [_partition_io] without [skip].  Each rank
    gets the plan for the maximum of the local sizes in bytes.  The split
    count is the ceiling of that maximum over the threshold.  When the
    maximum is positive and at most the threshold there is one
    partition, the whole local leading axis.  When it exceeds the
    threshold the split count is at least 2; an array with one axis, or
    one in which every axis is the distributed one or shorter than the
    split count, raises; otherwise the axis chosen is the first one in
    order that is not the distributed axis and is at least as long as the
    split count, and its partitions are the ranges of the balanced split
    of its global extent into split-count parts: as many as the split
    count, from 0, each starting where the previous one ends, to the
    extent.  When the maximum is 0, no rank holding a byte, the split
    count is 0, the early return is not taken, and an array with one axis
    raises. *)
Theorem partition_io_plan {T dtype : Type} (itemsize : dtype → N) (num den : positive)
    (fuel : nat) (ws : list (process T * MPIArray dtype * ndarray T)) :
  ws ≠ [] → Forall (λ w, local_array w.1.1 w.1.2 = Ok w.2) ws → 1 ≤ fuel →
  let largest := reduce MAX ((λ w, nbytes itemsize w.1.2 w.2) <$> ws) in
  let threshold := (N.pos num * 2 ^ 30)%N in
  let num_split := num_split_of largest num den in
  run_world fuel ((λ w, _partition_io itemsize w.1.1 w.1.2 false num den) <$> ws) =
    Some ((λ w, partition_plan w.1.2 w.2 false num den largest) <$> ws) ∧
  (largest * N.pos den ≤ N.of_nat num_split * threshold
     ∧ N.of_nat num_split * threshold < largest * N.pos den + threshold)%N ∧
  ((0 < largest)%N → (largest * N.pos den ≤ threshold)%N →
     ∀ (self : MPIArray dtype) (local : ndarray T) n0,
       _local_shape self !! 0 = Some n0 →
       partition_plan self local false num den largest = Ok (0, [(0, n0)])) ∧
  ((threshold < largest * N.pos den)%N →
     2 ≤ num_split ∧
     ∀ (self : MPIArray dtype) (local : ndarray T),
       let ndim := length (shape local) in
       (ndim = 1 → partition_plan self local false num den largest = Raise RuntimeError) ∧
       (ndim ≠ 1 →
        (∀ k, k < ndim →
           k = _axis self ∨ ∃ m, _global_shape self !! k = Some m ∧ m < num_split) →
        partition_plan self local false num den largest = Raise RuntimeError) ∧
       (∀ a n,
          ndim ≠ 1 → a < ndim → a ≠ _axis self →
          _global_shape self !! a = Some n → num_split ≤ n →
          (∀ k, k < a →
             k = _axis self ∨ ∃ m, _global_shape self !! k = Some m ∧ m < num_split) →
          partition_plan self local false num den largest
            = Ok (a, zip (split_m n num_split).1.2 (split_m n num_split).2) ∧
          zip (split_m n num_split).1.2 (split_m n num_split).2
            = (λ r, (offset_of n num_split r, offset_of n num_split (S r))) <$> seq 0 num_split ∧
          offset_of n num_split 0 = 0 ∧ offset_of n num_split num_split = n)) ∧
  (largest = 0%N →
     num_split = 0 ∧
     ∀ (self : MPIArray dtype) (local : ndarray T),
       length (shape local) = 1 →
       partition_plan self local false num den largest = Raise RuntimeError).
Proof.
  intros Hne Hws Hfuel largest threshold num_split.
  pose proof (num_split_of_spec largest num den) as [Hlt Hle].
  fold threshold in Hlt, Hle. fold num_split in Hlt, Hle.
  assert (0 < threshold)%N as Hthr by (unfold threshold; lia).
  split_and!.
  - by apply partition_io_run.
  - done.
  - done.
  - intros Hpos Hunder self local n0 Hn0.
    assert (num_split = 1) as Hone by nia.
    unfold partition_plan. fold num_split. rewrite Hone.
    rewrite bool_decide_eq_true_2 by done. cbn [orb]. by rewrite Hn0.
  - intros Hover. assert (2 ≤ num_split) as Htwo by nia. split; [done|].
    intros self local ndim.
    assert (∀ X : result (nat * list (nat * nat)),
      partition_plan self local false num den largest =
        if decide (ndim = 1) then Raise RuntimeError
        else split_axis ← find_split_axis self num_split (seq 0 ndim);
             n ← of_option IndexError (_global_shape self !! split_axis);
             Ok (split_axis, zip (split_m n num_split).1.2 (split_m n num_split).2)) as Hplan.
    { intros _. unfold partition_plan. fold num_split. fold ndim.
      rewrite bool_decide_eq_false_2 by lia. cbn [orb].
      case_decide; [done|].
      destruct (find_split_axis self num_split (seq 0 ndim)) as [a|e]; [|done].
      cbn [mbind result_bind]. destruct (_global_shape self !! a) as [n|]; [|done].
      cbn [of_option mbind result_bind]. rewrite decide_False by lia.
      by destruct (split_m n num_split) as [[? ?] ?]. }
    specialize (Hplan (Raise RuntimeError)). split_and!.
    + intros Hndim. by rewrite Hplan, decide_True.
    + intros Hndim Hnone. rewrite Hplan, decide_False by done.
      rewrite find_split_axis_none; [done|]. intros k Hk. apply Hnone. lia.
    + intros a n Hndim Ha Hax Hn Hfit Hbefore. split_and!.
      * rewrite Hplan, decide_False by done.
        rewrite (find_split_axis_found self num_split a n 0 ndim); try done; try lia.
        -- cbn [mbind result_bind]. by rewrite Hn.
        -- intros k Hk. apply Hbefore. lia.
      * rewrite split_m_eq. cbn [fst snd]. apply zip_fmap_diag.
      * apply offset_of_0.
      * apply offset_of_total. lia.
  - intros Hzero. assert (num_split = 0) as Hnone by nia. split; [done|].
    intros self local Hndim. unfold partition_plan. fold num_split. rewrite Hnone.
    rewrite bool_decide_eq_false_2 by lia. cbn [orb]. by rewrite decide_True.
Qed.

Lemma partition_io_plan_witness :
  let a0 := mk_ndarray [2; 3] (Node [Node [Leaf 1%Z; Leaf 2%Z; Leaf 3%Z];
                                     Node [Leaf 4%Z; Leaf 5%Z; Leaf 6%Z]]) in
  let a1 := mk_ndarray [2; 3] (Node [Node [Leaf 7%Z; Leaf 8%Z; Leaf 9%Z];
                                     Node [Leaf 10%Z; Leaf 11%Z; Leaf 12%Z]]) in
  let ws := [(mkProcess (Some (mkComm 2 0)) [a0],
              mkMPIArray [4; 3] 0 [2; 3] [0; 0] (Some (mkComm 2 0)) () 0, a0);
             (mkProcess (Some (mkComm 2 1)) [a1],
              mkMPIArray [4; 3] 0 [2; 3] [2; 0] (Some (mkComm 2 1)) () 0, a1)] in
  let e := mk_ndarray [0] (@Node Z []) in
  let ws0 := [(mkProcess (Some (mkComm 2 0)) [e],
               mkMPIArray [0] 0 [0] [0] (Some (mkComm 2 0)) () 0, e);
              (mkProcess (Some (mkComm 2 1)) [e],
               mkMPIArray [0] 0 [0] [0] (Some (mkComm 2 1)) () 0, e)] in
  run_world 1 ((λ w, _partition_io (λ _ : (), 8%N) w.1.1 w.1.2 false 16 (2 ^ 30)) <$> ws) =
    Some [Ok (1, [(0, 1); (1, 2); (2, 3)]); Ok (1, [(0, 1); (1, 2); (2, 3)])] ∧
  run_world 1 ((λ w, _partition_io (λ _ : (), 8%N) w.1.1 w.1.2 false 16 (2 ^ 30)) <$> ws0) =
    Some [Raise RuntimeError; Raise RuntimeError].
Proof.
  intros a0 a1 ws e ws0.
  destruct (partition_io_plan (λ _ : (), 8%N) 16 (2 ^ 30) 1 ws) as (Hrun & _);
    [discriminate|repeat constructor|lia|].
  destruct (partition_io_plan (λ _ : (), 8%N) 16 (2 ^ 30) 1 ws0) as (Hrun0 & _);
    [discriminate|repeat constructor|lia|].
  split; [exact Hrun|exact Hrun0].
Defined.

(** ** Universal functions *)

Section bind_facts.
Context {T A B : Type}.
Implicit Types (c : collective T A) (h : A → result B).

Lemma forallb_zip_with_l {X Y Z} (P : Z → bool) (Q : X → bool) (g : X → Y → Z)
    (xs : list X) (ys : list Y) :
  length xs = length ys → (∀ x y, P (g x y) = Q x) →
  forallb P (zip_with g xs ys) = forallb Q xs.
Proof.
  intros Hlen Hg. revert ys Hlen.
  induction xs as [|x xs IH]; intros [|y ys] Hlen; simplify_eq/=; [done|].
  by rewrite Hg, IH.
Qed.

Lemma fmap_zip_with_l {X X' Y Z W} (F : Z → W) (G : X → X') (g : X → Y → Z)
    (g' : X' → Y → W) (xs : list X) (ys : list Y) :
  (∀ x y, F (g x y) = g' (G x) y) →
  F <$> zip_with g xs ys = zip_with g' (G <$> xs) ys.
Proof.
  intros Hg. revert ys. induction xs as [|x xs IH]; intros [|y ys]; csimpl; [done..|].
  by rewrite Hg, IH.
Qed.

Lemma fmap_zip_with_const {X Y Z W} (F : Z → W) (G : X → W) (g : X → Y → Z)
    (xs : list X) (ys : list Y) :
  length xs = length ys → (∀ x y, F (g x y) = G x) →
  F <$> zip_with g xs ys = G <$> xs.
Proof.
  intros Hlen Hg. revert ys Hlen.
  induction xs as [|x xs IH]; intros [|y ys] Hlen; simplify_eq/=; [done|].
  by rewrite Hg, IH.
Qed.

Lemma settle_then_done c h : settle (then_done c h) = settle c ≫= h.
Proof. by destruct c as [[?|?]| |]. Qed.

Lemma resume_reduce_then_done v c h :
  resume_reduce v (then_done c h) = then_done (resume_reduce v c) h.
Proof. by destruct c as [[?|?]| |]. Qed.

Lemma resume_exchange_then_done net c h :
  resume_exchange net (then_done c h) = then_done (resume_exchange net c) h.
Proof. by destruct c as [[?|?]| |]. Qed.

(** Local work after the last collective point does not change how the
    ranks meet: the world runs as without it, and each rank that returns
    then does its local work. *)
Lemma run_world_then_done fuel (cs : list (collective T A)) (hs : list (A → result B)) :
  length cs = length hs →
  run_world fuel (zip_with then_done cs hs) =
    (λ rs, zip_with (λ (r : result A) h, r ≫= h) rs hs) <$> run_world fuel cs.
Proof.
  revert cs. induction fuel as [|fuel IH]; intros cs Hlen.
  - cbn [run_world].
    rewrite (forallb_zip_with_l is_done is_done) by (done || by intros [[?|?]| |] ?).
    destruct (forallb is_done cs); [|done]. csimpl. f_equal.
    apply (fmap_zip_with_l _ settle). intros. apply settle_then_done.
  - cbn [run_world].
    rewrite (forallb_zip_with_l is_done is_done) by (done || by intros [[?|?]| |] ?).
    assert (settle <$> zip_with then_done cs hs
            = zip_with (λ (r : result A) h, r ≫= h) (settle <$> cs) hs) as Hsettle
      by (apply (fmap_zip_with_l _ settle); intros; apply settle_then_done).
    destruct (forallb is_done cs); [by rewrite Hsettle|].
    assert (∀ op, forallb (at_allreduce op) (zip_with then_done cs hs)
                  = forallb (at_allreduce op) cs) as Hred
      by (intros op; apply forallb_zip_with_l; done || by intros [[?|?]| |] ?).
    assert (forallb at_exchange (zip_with then_done cs hs) = forallb at_exchange cs) as Hex
      by (apply forallb_zip_with_l; done || by intros [[?|?]| |] ?).
    assert (contribution <$> zip_with then_done cs hs = contribution <$> cs) as Hcon
      by (apply fmap_zip_with_const; done || by intros [[?|?]| |] ?).
    assert (sends_of <$> zip_with then_done cs hs = sends_of <$> cs) as Hsend
      by (apply fmap_zip_with_const; done || by intros [[?|?]| |] ?).
    assert (∀ v, resume_reduce v <$> zip_with then_done cs hs
                 = zip_with then_done (resume_reduce v <$> cs) hs) as Hres
      by (intros v; apply fmap_zip_with_l; intros; apply resume_reduce_then_done).
    assert (∀ net, resume_exchange net <$> zip_with then_done cs hs
                   = zip_with then_done (resume_exchange net <$> cs) hs) as Hrex
      by (intros v; apply fmap_zip_with_l; intros; apply resume_exchange_then_done).
    destruct cs as [|c cs], hs as [|h hs]; try done.
    destruct c as [[a|e]|op x k|sends k];
      cbn [zip_with then_done collective_bind] in *.
    + by rewrite Hsettle.
    + by rewrite Hsettle.
    + rewrite Hred, Hcon, Hres, Hsettle.
      destruct (forallb (at_allreduce op) (Allreduce op x k :: cs)); [|done].
      apply IH. by rewrite length_fmap.
    + rewrite Hex, Hsend, Hrex, Hsettle.
      destruct (forallb at_exchange (Exchange sends k :: cs)); [|done].
      apply IH. by rewrite length_fmap.
Qed.

End bind_facts.

Section ufunc_facts.
Context {T dtype ufunc : Type}.
Variable nout : ufunc → nat.
Variable numpy : ufunc → method → list (option (ndarray T)) → option axis_arg →
  option bool → list (option (ndarray T)) → result (option (list (ndarray T * dtype))).
Implicit Types (p : process T) (o : operand dtype) (inputs : list (operand dtype)).



Lemma mpi_to_ndarray_loop_shared p inputs args (d : nat) (dist_axis : option Z) :
  Forall (shares_axis p d) inputs →
  dist_axis = Some (Z.of_nat d) ∨ (dist_axis = None ∧ Exists is_mpi inputs) →
  mpi_to_ndarray_loop p (Some <$> inputs) args dist_axis
    = Ok (args ++ views p inputs, Some (Z.of_nat d)).
Proof.
  intros Hin. revert args dist_axis. unfold views.
  induction Hin as [|o inputs [[a Ha] Ho] Hin IH]; intros args dist_axis Hd.
  - csimpl. rewrite app_nil_r. destruct Hd as [->|[_ Hex]]; [done|]. by apply Exists_nil in Hex.
  - csimpl. rewrite Ha. destruct o as [m|l|l|z m]; [|done| |done].
    + cbn [operand_base] in Ha. unfold local_array. rewrite Ha. subst d.
      assert (same_axis dist_axis (Z.of_nat (_axis m)) = Ok (Some (Z.of_nat (_axis m))))
        as ->.
      { unfold same_axis. destruct Hd as [->|[-> _]]; [|done].
        by rewrite decide_False by (by intros ?). }
      cbn [of_option mbind result_bind]. rewrite IH by (by left).
      by rewrite <-app_assoc.
    + cbn [operand_base] in Ha. rewrite Ha. cbn [of_option mbind result_bind].
      rewrite IH; [by rewrite <-app_assoc|].
      destruct Hd as [->|[-> Hex]]; [by left|right]. split; [done|].
      apply Exists_cons in Hex as [[m ?]|?]; [done|done].
Qed.

Lemma wrap_world p (l : loc) (dt : dtype) (axis : nat) (c : Comm) :
  world p = Some c → wrap p l dt axis None = wrap p l dt axis (Some c).
Proof. intros Hw. unfold wrap. by rewrite Hw. Qed.

(** A call with one result and no [out], on operands that share the
    distributed axis [d]: what is left after numpy has answered is one
    call of [wrap], on a fresh buffer, along [ax]. *)
Lemma array_ufunc_wrap_eq p u meth inputs (kw : kwargs dtype) (d ax : nat)
    (res : ndarray T) (dt : dtype) :
  Forall (shares_axis p d) inputs → Exists is_mpi inputs →
  kw_out kw = [] → nout u = 1 → kw_axis kw ≠ Some (AxisInt (Z.of_nat d)) → meth ≠ At →
  numpy u meth (views p inputs) (kw_axis kw) (kw_keepdims kw) [] = Ok (Some [(res, dt)]) →
  (shape res = [] ∧ ax = 0) ∨
  (shape res ≠ [] ∧
   result_axis p meth kw [(res, dt)] [None] (Some (Z.of_nat d)) = Ok (Some (Z.of_nat ax))) →
  __array_ufunc__ ufunc nout numpy p u meth inputs kw =
    then_done (wrap (alloc p (boxed res)).1 (alloc p (boxed res)).2 dt ax None)
      (λ m, Ok ((alloc p (boxed res)).1, RetOne (OpMPI m))).
Proof.
  intros Hin Hex Hout Hnout Hax Hmeth Hnumpy Hres.
  unfold __array_ufunc__, _mpi_to_ndarray.
  rewrite (mpi_to_ndarray_loop_shared p inputs [] d None) by (done || by right).
  cbn [app mbind result_bind].
  assert (axis_is_dist_axis (kw_axis kw) (Some (Z.of_nat d)) = false) as ->.
  { destruct (kw_axis kw) as [[|i|]|]; try done. cbn [axis_is_dist_axis].
    apply bool_decide_eq_false_2. intros ->. by apply Hax. }
  rewrite Hout, Hnout. cbn [replicate mbind result_bind]. rewrite Hnumpy.
  cbn [mbind result_bind]. rewrite decide_False by done.
  cbn [zip zip_with store_out].
  destruct Hres as [[Hshape ->]|[Hshape Hra]].
  - assert (result_axis p meth kw [(res, dt)] [None] (Some (Z.of_nat d))
            = Ok (Some (Z.of_nat d))) as ->.
    { unfold result_axis. destruct (names_reduce meth); [|done].
      cbn [lookup list_lookup of_option mbind result_bind fst]. by rewrite Hshape. }
    cbn [wrap_results fst snd]. unfold boxed. rewrite Hshape. reflexivity.
  - rewrite Hra. cbn [wrap_results fst snd]. unfold boxed, wrap_axis.
    destruct (shape res) as [|n s] eqn:Hs; [done|].
    rewrite decide_True by lia. rewrite Nat2Z.id. reflexivity.
Qed.

(** Every rank of the world making such a call: the ranks meet in
    [wrap], which checks the layout of the results along [ax]. *)
Lemma array_ufunc_run u meth (kw : kwargs dtype) (d ax fuel : nat) (dt : dtype)
    (ws : list (process T * list (operand dtype) * ndarray T)) :
  ws ≠ [] → 2 ≤ fuel →
  kw_out kw = [] → nout u = 1 → kw_axis kw ≠ Some (AxisInt (Z.of_nat d)) → meth ≠ At →
  (∀ r w, ws !! r = Some w →
     world w.1.1 = Some (mkComm (length ws) r) ∧
     Forall (shares_axis w.1.1 d) w.1.2 ∧ Exists is_mpi w.1.2 ∧
     numpy u meth (views w.1.1 w.1.2) (kw_axis kw) (kw_keepdims kw) [] = Ok (Some [(w.2, dt)]) ∧
     is_Some (shape (boxed w.2) !! ax) ∧
     ((shape w.2 = [] ∧ ax = 0) ∨
      (shape w.2 ≠ [] ∧
       result_axis w.1.1 meth kw [(w.2, dt)] [None] (Some (Z.of_nat d))
         = Ok (Some (Z.of_nat ax))))) →
  let sz := length ws in
  let axlens := (λ w, axis_extent ax (boxed w.2)) <$> ws in
  let totallen := sum_list axlens in
  run_world fuel ((λ w, __array_ufunc__ ufunc nout numpy w.1.1 u meth w.1.2 kw) <$> ws) =
    Some (imap (λ r w,
            if bool_decide (axlens = extent totallen sz <$> seq 0 sz)
            then Ok (mkProcess (world w.1.1) (mem w.1.1 ++ [boxed w.2]),
                     RetOne (OpMPI (wrapped sz ax dt totallen r (boxed w.2)
                                      (length (mem w.1.1)))))
            else Raise LayoutException) ws).
Proof.
  intros Hne Hfuel Hout Hnout Hax Hmeth Hws sz axlens totallen.
  set (ws' := (λ w : process T * list (operand dtype) * ndarray T,
                 ((alloc w.1.1 (boxed w.2)).1, (alloc w.1.1 (boxed w.2)).2, boxed w.2)) <$> ws).
  set (hs := (λ (w : process T * list (operand dtype) * ndarray T) (m : MPIArray dtype),
                Ok ((alloc w.1.1 (boxed w.2)).1, RetOne (OpMPI m))) <$> ws).
  assert ((λ w, __array_ufunc__ ufunc nout numpy w.1.1 u meth w.1.2 kw) <$> ws
          = zip_with then_done (wrap_all dt ax ws') hs) as ->.
  { apply list_eq. intros r. unfold wrap_all, ws', hs.
    rewrite lookup_zip_with, list_lookup_imap, !list_lookup_fmap, length_fmap.
    destruct (ws !! r) as [w|] eqn:Hw; [|done]. csimpl. f_equal.
    destruct (Hws r w Hw) as (Hworld & Hin & Hex & Hnumpy & _ & Hres).
    rewrite (array_ufunc_wrap_eq _ u meth _ kw d ax w.2 dt) by done.
    f_equal. by apply wrap_world. }
  rewrite run_world_then_done by (unfold wrap_all, ws', hs; by rewrite length_imap, !length_fmap).
  rewrite wrap_all_run; [|by destruct ws| |done].
  2:{ unfold ws'. apply Forall_fmap, Forall_lookup. intros r w Hw.
      destruct (Hws r w Hw) as (_ & _ & _ & _ & Hsh & _). cbn [compose alloc fst snd mem].
      split; [|done]. by rewrite list_lookup_middle. }
  csimpl. f_equal. apply list_eq. intros r. unfold ws', hs.
  rewrite lookup_zip_with, !list_lookup_imap, !list_lookup_fmap, length_fmap.
  destruct (ws !! r) as [w|] eqn:Hw; [|done]. csimpl. f_equal.
  rewrite <-!list_fmap_compose. unfold compose. cbn [snd fst]. fold axlens. fold totallen.
  fold sz. by case_bool_decide.
Qed.

End ufunc_facts.




(** ** Reductions over all axes *)

Lemma extent_even (sz r : nat) : 0 < sz → extent sz sz r = 1.
Proof.
  intros Hsz. unfold extent. rewrite Nat.div_same, Nat.Div0.mod_same by lia.
  by rewrite bool_decide_eq_false_2 by lia.
Qed.

Lemma offset_of_even (sz r : nat) : 0 < sz → offset_of sz sz r = r.
Proof.
  intros Hsz. unfold offset_of. rewrite Nat.div_same, Nat.Div0.mod_same by lia. lia.
Qed.

(** C6, as stated, fails: the result has one element for every rank, the
    sum over that rank's local section.  Two ranks hold one element each
    of the array [1, 2]; the sum over all axes gives an array of global
    length 2 whose element on rank 0 is 1, where the serial sum is 3. *)
Lemma full_reduction_counterexample :
  ¬ (∀ (sz : nat) (gs : list nat) (G : nested Z) (ps : list (process Z))
       (As : list (MPIArray ())),
       0 < sz → has_shape gs G → sections_of G sz gs 0 () ps As →
       (∀ r p, ps !! r = Some p → world p = Some (mkComm sz r)) →
       ∃ outs,
         run_world 2 ((λ w, __array_ufunc__ () (λ _, 1) np_add w.1 () Reduce [OpMPI w.2]
                              (mk_kwargs (Some AxisNone) [] None)) <$> zip ps As)
           = Some (Ok <$> outs) ∧
         Forall (λ o, ∃ m, o.2 = RetOne (OpMPI m) ∧
                   _global_shape m = [1] ∧ _axis m = 0 ∧
                   (_local_shape m = [1] →
                    mem o.1 !! base m = Some (mk_ndarray [1] (Node [Leaf (np_sum G)]))))
           outs).
Proof.
  intros H.
  destruct (H 2 [2] (Node [Leaf 1%Z; Leaf 2%Z])
              [mkProcess (Some (mkComm 2 0)) [mk_ndarray [1] (Node [Leaf 1%Z])];
               mkProcess (Some (mkComm 2 1)) [mk_ndarray [1] (Node [Leaf 2%Z])]]
              [metadata 2 [2] 0 () 0 0; metadata 2 [2] 0 () 1 0])
    as (outs & Hrun & Houts).
  - lia.
  - repeat (constructor; simpl).
  - split_and!; [reflexivity|reflexivity|simpl; lia|].
    intros [|[|r]] p A Hp HA; simpl in Hp, HA; try discriminate;
      injection Hp as <-; injection HA as <-; by split.
  - intros [|[|r]] p Hp; simpl in Hp; try discriminate; by injection Hp as <-.
  - vm_compute in Hrun. destruct outs as [|o outs]; [discriminate|].
    injection Hrun as Ho _. apply Forall_cons in Houts as [(m & Hm & Hgs & _) _].
    subst o. simpl in Hm. injection Hm as <-. discriminate.
Qed.

(** C6, amended.  Every rank of the world makes a call, a reduction over
    all axes or any other that does not work in place, with no [out],
    on inputs of any element type that share a distributed axis [d],
    with an [axis] keyword, if any, other than the number [d]; numpy
    answers on each rank, from the rank's own buffers, with one scalar.
    Every rank returns an MPIArray over a new buffer of one element, the
    scalar numpy gave on that rank; the array is distributed along axis
    0 over the world, its global shape is [(sz,)], its local shape
    [(1,)], and rank [r] holds element [r]. *)
Theorem full_reduction_per_rank {T dtype ufunc : Type} (nout : ufunc → nat)
    (numpy : ufunc → method → list (option (ndarray T)) → option axis_arg →
             option bool → list (option (ndarray T)) →
             result (option (list (ndarray T * dtype))))
    (u : ufunc) (meth : method) (kw : kwargs dtype) (d fuel : nat) (dt : dtype)
    (ws : list (process T * list (operand dtype) * ndarray T)) :
  ws ≠ [] → 2 ≤ fuel →
  kw_out kw = [] → nout u = 1 → kw_axis kw ≠ Some (AxisInt (Z.of_nat d)) → meth ≠ At →
  (∀ r w, ws !! r = Some w →
     world w.1.1 = Some (mkComm (length ws) r) ∧
     Forall (shares_axis w.1.1 d) w.1.2 ∧ Exists is_mpi w.1.2 ∧
     numpy u meth (views w.1.1 w.1.2) (kw_axis kw) (kw_keepdims kw) []
       = Ok (Some [(w.2, dt)]) ∧
     shape w.2 = []) →
  let sz := length ws in
  run_world fuel ((λ w, __array_ufunc__ ufunc nout numpy w.1.1 u meth w.1.2 kw) <$> ws) =
    Some (imap (λ r w,
            Ok (mkProcess (world w.1.1) (mem w.1.1 ++ [mk_ndarray [1] (Node [items w.2])]),
                RetOne (OpMPI (mkMPIArray [sz] 0 [1] [r] (Some (mkComm sz r)) dt
                                 (length (mem w.1.1))))))
          ws).
Proof.
  intros Hne Hfuel Hout Hnout Hax Hmeth Hws sz.
  assert (0 < sz) as Hsz by (unfold sz; destruct ws; [done|simpl; lia]).
  assert (∀ r w, ws !! r = Some w → boxed w.2 = mk_ndarray [1] (Node [items w.2])) as Hbox.
  { intros r w Hw. destruct (Hws r w Hw) as (_ & _ & _ & _ & Hsh).
    unfold boxed. by rewrite Hsh. }
  rewrite (array_ufunc_run nout numpy u meth kw d 0 fuel dt ws); try done.
  2:{ intros r w Hw. destruct (Hws r w Hw) as (Hworld & Hin & Hex & Hnumpy & Hsh).
      split_and!; try done.
      - rewrite (Hbox r w Hw). by eexists.
      - by left. }
  assert ((λ w : process T * list (operand dtype) * ndarray T, axis_extent 0 (boxed w.2))
            <$> ws = extent sz sz <$> seq 0 sz) as Hlens.
  { apply list_eq. intros r. rewrite !list_lookup_fmap.
    destruct (ws !! r) as [w|] eqn:Hw.
    - pose proof (lookup_lt_Some _ _ _ Hw) as Hr. rewrite lookup_seq_lt by done.
      csimpl. rewrite (Hbox r w Hw), extent_even by done. done.
    - apply lookup_ge_None in Hw. by rewrite lookup_seq_ge by (unfold sz; lia). }
  fold sz. rewrite Hlens, split_parts_sum by done.
  rewrite bool_decide_eq_true_2 by done.
  f_equal. apply imap_ext. intros r w Hw. rewrite (Hbox r w Hw).
  unfold wrapped. cbn [shape length replicate insert list_insert].
  by rewrite offset_of_even.
Qed.

Lemma full_reduction_per_rank_witness :
  let a0 := mk_ndarray [2; 2] (Node [Node [Leaf 1%Z; Leaf 2%Z]; Node [Leaf 3%Z; Leaf 4%Z]]) in
  let a1 := mk_ndarray [1; 2] (Node [Node [Leaf 5%Z; Leaf 6%Z]]) in
  let kw := mk_kwargs (Some AxisNone) [] None in
  let ws := [(mkProcess (Some (mkComm 2 0)) [a0], [OpMPI (metadata 2 [3; 2] 0 () 0 0)],
              mk_ndarray [] (Leaf 10%Z));
             (mkProcess (Some (mkComm 2 1)) [a1], [OpMPI (metadata 2 [3; 2] 0 () 1 0)],
              mk_ndarray [] (Leaf 11%Z))] in
  run_world 2 ((λ w, __array_ufunc__ () (λ _, 1) np_add w.1.1 () Reduce w.1.2 kw) <$> ws) =
    Some [Ok (mkProcess (Some (mkComm 2 0)) [a0; mk_ndarray [1] (Node [Leaf 10%Z])],
              RetOne (OpMPI (mkMPIArray [2] 0 [1] [0] (Some (mkComm 2 0)) () 1)));
          Ok (mkProcess (Some (mkComm 2 1)) [a1; mk_ndarray [1] (Node [Leaf 11%Z])],
              RetOne (OpMPI (mkMPIArray [2] 0 [1] [1] (Some (mkComm 2 1)) () 1)))].
Proof.
  intros a0 a1 kw ws.
  apply (full_reduction_per_rank (λ _ : (), 1) np_add () Reduce kw 0 2 () ws);
    try (reflexivity || discriminate || lia).
  intros [|[|r]] w Hw; simpl in Hw; try discriminate; injection Hw as <-.
  - split_and!; try reflexivity.
    + repeat constructor; simpl; eauto.
    + left. by eexists.
  - split_and!; try reflexivity.
    + repeat constructor; simpl; eauto.
    + left. by eexists.
Defined.

(** ** Selections for file I/O *)

(** [range(start, stop, step)] for a positive step has an element
    number [j] exactly when [start + j * step] is before [stop]. *)
Lemma range_length_lt (s e k : Z) (j : nat) :
  (0 < k)%Z → j < range_length s e k ↔ (s + Z.of_nat j * k < e)%Z.
Proof.
  intros Hk. unfold range_length. rewrite decide_True by done.
  case_decide as Hse; [|split; [lia|nia]].
  pose proof (Z.mul_div_le (e - s - 1) k Hk).
  pose proof (Z.mul_succ_div_gt (e - s - 1) k Hk).
  assert (0 ≤ (e - s - 1) `div` k)%Z by (apply Z.div_pos; lia).
  split; intros Hj; nia.
Qed.

(** The resolved bounds of a slice with a positive step. *)
Lemma slice_indices_pos (s : slice) (n : nat) (ds de k : Z) :
  slice_indices s n = Ok (ds, de, k) → (0 < k)%Z →
  (0 ≤ ds ≤ Z.of_nat n)%Z ∧ (0 ≤ de ≤ Z.of_nat n)%Z ∧ k = default 1%Z (step s).
Proof.
  unfold slice_indices. intros Hs Hk. case_decide; [done|].
  injection Hs as <- <- <-. rewrite !(decide_False (P := (_ < 0)%Z)) by lia.
  destruct (start s) as [a|], (stop s) as [b|]; repeat case_decide; lia.
Qed.

Lemma slice_positions_eq (s : slice) (n : nat) (ds de k : Z) :
  slice_indices s n = Ok (ds, de, k) →
  slice_positions s n =
    Ok ((λ j, Z.to_nat (ds + Z.of_nat j * k)) <$> seq 0 (range_length ds de k)).
Proof. intros Hs. unfold slice_positions. by rewrite Hs. Qed.

Lemma slice_indices_given (a b k : Z) (n : nat) :
  (0 ≤ a)%Z → (0 ≤ b)%Z → (0 < k)%Z →
  slice_indices (mk_slice (Some a) (Some b) (Some k)) n
    = Ok (Z.min a (Z.of_nat n), Z.min b (Z.of_nat n), k).
Proof.
  intros Ha Hb Hk. unfold slice_indices. cbn [step start stop default from_option id].
  rewrite decide_False by lia. by rewrite !(decide_False (P := (_ < 0)%Z)) by lia.
Qed.

(** The positions of [P[a:b]] in terms of those of [P]. *)
Lemma reslice_positions (slice_ : slice) (n : nat) (ds de k a b : Z) :
  slice_indices slice_ n = Ok (ds, de, k) → (0 < k)%Z → (0 ≤ a)%Z → (0 ≤ b)%Z →
  slice_positions (mk_slice (Some (ds + a * k)%Z) (Some (Z.min (ds + b * k) de)) (Some k)) n
    = Ok (take (Z.to_nat (b - a))
            (drop (Z.to_nat a)
               ((λ j, Z.to_nat (ds + Z.of_nat j * k)) <$> seq 0 (range_length ds de k)))).
Proof.
  intros Hs Hk Ha Hb.
  destruct (slice_indices_pos _ _ _ _ _ Hs Hk) as (Hds & Hde & _).
  erewrite slice_positions_eq; [|apply slice_indices_given; lia].
  f_equal. apply list_eq. intros j.
  rewrite lookup_take, lookup_drop, !list_lookup_fmap.
  set (s' := Z.min (ds + a * k) (Z.of_nat n)).
  set (e' := Z.min (Z.min (ds + b * k) de) (Z.of_nat n)).
  destruct (decide (j < range_length s' e' k)) as [Hj|Hj].
  - rewrite lookup_seq_lt by done. apply range_length_lt in Hj; [|done].
    assert (s' = ds + a * k)%Z as Hs' by (unfold s', e' in *; lia).
    rewrite decide_True by (unfold e' in Hj; nia).
    rewrite lookup_seq_lt by (apply range_length_lt; [done|]; unfold e' in Hj; nia).
    csimpl. f_equal. rewrite Hs'. nia.
  - rewrite lookup_seq_ge by lia. csimpl. case_decide as Hjb; [|done].
    destruct (decide (Z.to_nat a + j < range_length ds de k)) as [Hin|Hout].
    + exfalso. apply Hj. apply range_length_lt; [done|].
      apply range_length_lt in Hin; [|done]. unfold s', e'. nia.
    + by rewrite lookup_seq_ge by lia.
Qed.

(** X1.  [_len_slice] on a slice whose step is positive.  When the
    resolved stop is not before the resolved start, the result is the
    number of positions the slice selects on an axis of extent [n].  When
    the resolved stop is before the start and the step is 1, the slice
    selects nothing and the result is [stop - start], a negative number. *)
Theorem len_slice_counts (s : slice) (n : nat) (ds de k : Z) :
  slice_indices s n = Ok (ds, de, k) → (0 < k)%Z →
  ((ds ≤ de)%Z →
     ∃ P, slice_positions s n = Ok P ∧ _len_slice s n = Ok (Z.of_nat (length P))) ∧
  ((de < ds)%Z → k = 1%Z →
     slice_positions s n = Ok [] ∧ _len_slice s n = Ok (de - ds)%Z ∧ (de - ds < 0)%Z).
Proof.
  intros Hs Hk. unfold _len_slice. rewrite (slice_positions_eq _ _ _ _ _ Hs), Hs.
  cbn [mbind result_bind fst snd]. split.
  - intros Hle. eexists. split; [done|]. f_equal.
    rewrite length_fmap, length_seq. unfold range_length.
    rewrite decide_True by done. case_decide as Hlt.
    + assert (0 ≤ (de - ds - 1) `div` k)%Z by (apply Z.div_pos; lia). lia.
    + assert (de = ds) as -> by lia.
      replace (ds - ds - 1)%Z with (-1)%Z by lia.
      pose proof (Z.mul_div_le (-1) k Hk). pose proof (Z.mul_succ_div_gt (-1) k Hk). nia.
  - intros Hlt ->. unfold range_length. rewrite decide_True by done.
    rewrite decide_False by lia. rewrite Z.div_1_r. split_and!; [done|f_equal; lia|lia].
Qed.

Lemma len_slice_counts_witness :
  _len_slice (mk_slice (Some 1%Z) None (Some 3%Z)) 8 = Ok 3%Z ∧
  slice_positions (mk_slice (Some 1%Z) None (Some 3%Z)) 8 = Ok [1; 4; 7] ∧
  _len_slice (mk_slice (Some 5%Z) (Some 3%Z) None) 8 = Ok (-2)%Z.
Proof.
  destruct (len_slice_counts (mk_slice (Some 1%Z) None (Some 3%Z)) 8 1 8 3)
    as [Hcount _]; [reflexivity|lia|].
  destruct Hcount as (P & HP & Hlen); [lia|].
  destruct (len_slice_counts (mk_slice (Some 5%Z) (Some 3%Z) None) 8 5 3 1)
    as [_ Hneg]; [reflexivity|lia|].
  destruct Hneg as (_ & Hlen' & _); [lia|reflexivity|].
  vm_compute in HP. injection HP as <-. split_and!; [exact Hlen|reflexivity|exact Hlen'].
Defined.

Lemma reslice_ok (slice_ : slice) (n : nat) (a b : Z) (sub_step : option Z)
    (P : list nat) :
  slice_positions slice_ n = Ok P → (0 < default 1 (step slice_))%Z →
  (0 ≤ a)%Z → (0 ≤ b)%Z → (∀ k, sub_step = Some k → (k ≤ 1)%Z) →
  ∃ s', _reslice slice_ n (mk_slice (Some a) (Some b) sub_step) = Ok s' ∧
        slice_positions s' n = Ok (take (Z.to_nat (b - a)) (drop (Z.to_nat a) P)).
Proof.
  intros HP Hk Ha Hb Hsub. unfold slice_positions in HP.
  destruct (slice_indices slice_ n) as [[[ds de] k]|e] eqn:Hs; [|done].
  cbn [mbind result_bind fst snd] in HP. injection HP as <-.
  assert (0 < k)%Z as Hk'.
  { unfold slice_indices in Hs. case_decide; [done|]. by injection Hs as <- <- <-. }
  unfold _reslice. rewrite Hs. cbn [mbind result_bind step start stop].
  assert (match sub_step with Some k0 => bool_decide (1 < k0)%Z | None => false end = false)
    as ->.
  { destruct sub_step as [c|]; [|done]. apply bool_decide_eq_false_2.
    specialize (Hsub c eq_refl). lia. }
  cbn [of_option mbind result_bind]. eexists. split; [done|].
  by apply (reslice_positions slice_).
Qed.

(** X2.  [_reslice] on a slice whose step is positive, for a subslice
    [a:b] with [a] and [b] not negative.  A subslice step above 1 raises
    [ValueError]; any other subslice step, 0 and negative ones too, is
    accepted and not looked at again.  The slice returned then selects,
    on the axis of extent [n], exactly the positions number [a] to [b]
    of those the first slice selects: one slice with the effect of the
    two in turn. *)
Theorem reslice_composes (slice_ : slice) (n : nat) (a b : Z) (sub_step : option Z)
    (P : list nat) :
  slice_positions slice_ n = Ok P → (0 < default 1 (step slice_))%Z →
  (0 ≤ a)%Z → (0 ≤ b)%Z →
  ((∃ k, sub_step = Some k ∧ (1 < k)%Z) →
     _reslice slice_ n (mk_slice (Some a) (Some b) sub_step) = Raise ValueError) ∧
  ((∀ k, sub_step = Some k → (k ≤ 1)%Z) →
     ∃ s', _reslice slice_ n (mk_slice (Some a) (Some b) sub_step) = Ok s' ∧
           slice_positions s' n = Ok (take (Z.to_nat (b - a)) (drop (Z.to_nat a) P))).
Proof.
  intros HP Hk Ha Hb. split.
  - intros (c & -> & Hc). unfold _reslice.
    destruct (slice_indices slice_ n) as [[[ds de] k]|e] eqn:Hs.
    + cbn [mbind result_bind step]. by rewrite bool_decide_eq_true_2.
    + unfold slice_positions in HP. by rewrite Hs in HP.
  - intros Hsub. by apply reslice_ok.
Qed.

Lemma reslice_composes_witness :
  _reslice (mk_slice (Some 1%Z) None (Some 3%Z)) 20 (mk_slice (Some 2%Z) (Some 5%Z) None)
    = Ok (mk_slice (Some 7%Z) (Some 16%Z) (Some 3%Z)) ∧
  slice_positions (mk_slice (Some 1%Z) None (Some 3%Z)) 20 = Ok [1; 4; 7; 10; 13; 16; 19] ∧
  slice_positions (mk_slice (Some 7%Z) (Some 16%Z) (Some 3%Z)) 20 = Ok [7; 10; 13].
Proof.
  destruct (reslice_composes (mk_slice (Some 1%Z) None (Some 3%Z)) 20 2 5 None
              [1; 4; 7; 10; 13; 16; 19]) as [_ Hok];
    [reflexivity|simpl; lia|lia|lia|].
  destruct Hok as (s' & Hs' & HP); [discriminate|].
  vm_compute in Hs'. injection Hs' as <-. split_and!; [reflexivity|reflexivity|exact HP].
Defined.

(** The positions of [a:b], for bounds that are not negative. *)
Lemma slice_positions_range (a b : Z) (st : option Z) (m : nat) :
  (0 ≤ a)%Z → (0 ≤ b)%Z → default 1%Z st = 1%Z →
  slice_positions (mk_slice (Some a) (Some b) st) m
    = Ok (seq (Z.to_nat a `min` m) (Z.to_nat b `min` m - Z.to_nat a `min` m)).
Proof.
  intros Ha Hb Hst. unfold slice_positions, slice_indices.
  cbn [step start stop]. rewrite Hst.
  rewrite decide_False by lia. rewrite !(decide_False (P := (_ < 0)%Z)) by lia.
  cbn [mbind result_bind fst snd]. f_equal.
  set (a' := Z.min a (Z.of_nat m)). set (b' := Z.min b (Z.of_nat m)).
  assert (range_length a' b' 1 = Z.to_nat b `min` m - Z.to_nat a `min` m) as ->.
  { unfold range_length. rewrite decide_True by lia. rewrite Z.div_1_r.
    case_decide; unfold a', b' in *; lia. }
  apply list_eq. intros j. rewrite list_lookup_fmap.
  destruct (decide (j < Z.to_nat b `min` m - Z.to_nat a `min` m)) as [Hj|Hj].
  - rewrite !lookup_seq_lt by done. csimpl. f_equal. unfold a'. lia.
  - by rewrite !lookup_seq_ge by lia.
Qed.

Lemma pick_range {A} (P : list A) (a b : Z) :
  (0 ≤ a)%Z → (0 ≤ b)%Z →
  omap (λ j, P !! j)
    (seq (Z.to_nat a `min` length P) (Z.to_nat b `min` length P - Z.to_nat a `min` length P))
  = take (Z.to_nat (b - a)) (drop (Z.to_nat a) P).
Proof.
  intros Ha Hb. rewrite omap_lookup_range.
  destruct (decide (length P ≤ Z.to_nat a)) as [Hge|Hlt].
  - rewrite !drop_ge by lia. by rewrite !take_nil.
  - replace (Z.to_nat a `min` length P) with (Z.to_nat a) by lia.
    destruct (decide (length P ≤ Z.to_nat b)) as [Hbge|Hblt].
    + rewrite !take_ge; [done|rewrite length_drop; lia..].
    + f_equal. lia.
Qed.

Lemma expand_sel_length (sel : option (list slice)) (naxis : nat) :
  naxis ≤ length (_expand_sel sel naxis).
Proof.
  unfold _expand_sel. case_decide; [|lia].
  rewrite length_app, length_replicate. lia.
Qed.

(** X3.  [_expand_sel] gives a selection with an entry for every axis,
    a given selection first and full slices after it.  For a split axis
    among them whose slice has a positive step, and a partition [a:b]
    with [a] and [b] not negative, [_partition_sel] does not raise; the
    two selections it returns are as long as the one given; on every
    axis, taking the initial selection from the axis is taking the given
    selection and then the final selection from what that leaves: on the
    split axis the positions number [a] to [b], on every other axis all
    of them. *)
Theorem partition_sel_composes (sel : option (list slice)) (naxis split_axis n : nat)
    (a b : Z) (s0 : slice) :
  split_axis < naxis → (0 ≤ a)%Z → (0 ≤ b)%Z →
  let given := _expand_sel sel naxis in
  given !! split_axis = Some s0 → (0 < default 1 (step s0))%Z →
  is_ok (slice_positions s0 n) = true →
  naxis ≤ length given ∧
  (∀ l, sel = Some l → given = l ++ replicate (naxis - length l) full_slice) ∧
  ∃ sel_initial sel_final,
    _partition_sel given split_axis n (mk_slice (Some a) (Some b) None)
      = Ok (sel_initial, sel_final) ∧
    length sel_initial = length given ∧ length sel_final = length given ∧
    ∀ i s m P,
      given !! i = Some s → (i = split_axis → m = n) → slice_positions s m = Ok P →
      ∃ si sf Q,
        sel_initial !! i = Some si ∧ sel_final !! i = Some sf ∧
        slice_positions sf (length P) = Ok Q ∧
        slice_positions si m = Ok (omap (λ j, P !! j) Q) ∧
        Q = if decide (i = split_axis)
            then seq (Z.to_nat a `min` length P)
                     (Z.to_nat b `min` length P - Z.to_nat a `min` length P)
            else seq 0 (length P).
Proof.
  intros Hax Ha Hb given Hs0 Hstep Hpos.
  pose proof (expand_sel_length sel naxis) as Hlen. fold given in Hlen.
  split; [done|]. split.
  { intros l ->. unfold given, _expand_sel. case_decide; [done|].
    replace (naxis - length l) with 0 by lia. by rewrite app_nil_r. }
  destruct (slice_positions s0 n) as [P0|] eqn:HP0; [|done].
  destruct (reslice_ok s0 n a b None P0 HP0 Hstep Ha Hb) as (s1 & Hs1 & HP1); [done|].
  unfold _partition_sel. rewrite Hs0. cbn [of_option mbind result_bind]. rewrite Hs1.
  cbn [mbind result_bind]. eexists _, _. split; [done|].
  rewrite !length_insert, length_replicate. split_and!; [done..|].
  intros i s m P Hi Hm HP. assert (i < length given) by (by eapply lookup_lt_Some).
  destruct (decide (i = split_axis)) as [->|Hne].
  - rewrite Hs0 in Hi. injection Hi as <-. rewrite (Hm eq_refl) in HP.
    rewrite HP0 in HP. injection HP as <-.
    eexists _, _, _. rewrite !list_lookup_insert_eq by (by rewrite ?length_replicate).
    split_and!; [done|done|by apply slice_positions_range| |done].
    rewrite pick_range by done. by rewrite (Hm eq_refl).
  - eexists _, _, _. rewrite !list_lookup_insert_ne by done.
    rewrite lookup_replicate_2 by done.
    split_and!; [done|done|apply slice_positions_full| |done].
    by rewrite omap_lookup_seq.
Qed.

Lemma partition_sel_composes_witness :
  _expand_sel (Some [mk_slice (Some 1%Z) None (Some 3%Z)]) 2
    = [mk_slice (Some 1%Z) None (Some 3%Z); full_slice] ∧
  _partition_sel [mk_slice (Some 1%Z) None (Some 3%Z); full_slice] 0 20
      (mk_slice (Some 2%Z) (Some 5%Z) None)
    = Ok ([mk_slice (Some 7%Z) (Some 16%Z) (Some 3%Z); full_slice],
          [mk_slice (Some 2%Z) (Some 5%Z) None; full_slice]).
Proof.
  destruct (partition_sel_composes (Some [mk_slice (Some 1%Z) None (Some 3%Z)]) 2 0 20 2 5
              (mk_slice (Some 1%Z) None (Some 3%Z)))
    as (_ & Hgiven & si & sf & Hpart & _); [lia|lia|lia|reflexivity|simpl; lia|reflexivity|].
  split; [exact (Hgiven _ eq_refl)|].
  rewrite (Hgiven _ eq_refl) in Hpart. simpl app in Hpart. rewrite Hpart.
  vm_compute in Hpart. by injection Hpart as <- <-.
Defined.

(** ** Global indices and their owners *)

(** Every position of the axis lies in the range of exactly one rank. *)
Lemma offset_of_owner (n sz : nat) (g : Z) :
  0 < sz → (0 ≤ g < Z.of_nat n)%Z →
  ∃ r, r < sz ∧
    (Z.of_nat (offset_of n sz r) ≤ g < Z.of_nat (offset_of n sz (S r)))%Z ∧
    ∀ r', r' < sz →
      (Z.of_nat (offset_of n sz r') ≤ g < Z.of_nat (offset_of n sz (S r')))%Z → r' = r.
Proof.
  intros Hsz Hg.
  assert (∀ m, m ≤ sz → (g < Z.of_nat (offset_of n sz m))%Z →
            ∃ r, r < m ∧
              (Z.of_nat (offset_of n sz r) ≤ g < Z.of_nat (offset_of n sz (S r)))%Z) as Hfind.
  { induction m as [|m IH]; intros Hm Hlt.
    - rewrite offset_of_0 in Hlt. lia.
    - destruct (decide (g < Z.of_nat (offset_of n sz m))%Z) as [Hbelow|Habove].
      + destruct IH as (r & Hr & Hin); [lia|done|]. exists r. split; [lia|done].
      + exists m. split; [lia|lia]. }
  destruct (Hfind sz) as (r & Hr & Hin); [done|rewrite offset_of_total by done; lia|].
  exists r. split; [done|]. split; [done|]. intros r' Hr' Hin'.
  destruct (decide (r' < r)) as [Hlt|Hge].
  - pose proof (offset_of_mono n sz (S r') r ltac:(lia)). lia.
  - destruct (decide (r < r')) as [Hgt|?]; [|lia].
    pose proof (offset_of_mono n sz (S r) r' ltac:(lia)). lia.
Qed.

Section resolver_facts.
Context {T dtype : Type}.

(** What the invariant says of one rank. *)
Lemma distributed_rank (sz ax : nat) (gs : list nat) (dt : dtype) (n r : nat)
    (ps : list (process T)) (As : list (MPIArray dtype)) (p : process T)
    (A : MPIArray dtype) :
  distributed sz gs ax dt ps As → gs !! ax = Some n →
  ps !! r = Some p → As !! r = Some A →
  r < sz ∧ A = metadata sz gs ax dt r (base A) ∧
  _global_shape A = gs ∧ _axis A = ax ∧
  _local_shape A = <[ax := extent n sz r]> gs ∧
  _local_offset A !! ax = Some (offset_of n sz r) ∧
  ∃ local, local_array p A = Ok local ∧ mem p !! base A = Some local ∧
    shape local = <[ax := extent n sz r]> gs ∧
    shape local !! ax = Some (extent n sz r) ∧ length (shape local) = length gs ∧
    wf_ndarray local.
Proof.
  intros (Hlp & HlA & Hax & Hloc) Hn Hp HA.
  destruct (Hloc r p A Hp HA) as (HAeq & local & Hmem & Hsh & Hwf).
  assert (r < sz) by (apply lookup_lt_Some in Hp; lia).
  assert (_local_shape A = <[ax := extent n sz r]> gs) as Hls
    by (rewrite HAeq; unfold metadata; by rewrite Hn).
  split_and!; [done|done|by rewrite HAeq|by rewrite HAeq|done| |].
  - rewrite HAeq. unfold metadata. rewrite Hn. cbn [_local_offset default from_option id].
    by rewrite list_lookup_insert_eq by (by rewrite length_replicate).
  - exists local. unfold local_array. rewrite Hmem, Hsh, Hls.
    split_and!; [done|done|done| |by rewrite length_insert|done].
    by rewrite list_lookup_insert_eq.
Qed.

(** X4.  An integer index [g] on the distributed axis of a distributed
    array, through [global_slice].  On every rank the resolver marks the
    selection as not full; the entry for the axis is the local index
    [g - offset] on a rank whose range holds [g] and [None] on every
    other rank.  An index inside the global axis is held by exactly one
    rank.  An index outside it is held by none: a negative index is not
    counted from the end of the axis. *)
Theorem global_index_owner (sz ax n : nat) (gs : list nat) (dt : dtype)
    (ps : list (process T)) (As : list (MPIArray dtype)) (so : slobj) (g : Z) :
  0 < sz → distributed sz gs ax dt ps As → gs !! ax = Some n →
  expand_slobj (length gs) so !! ax = Some (Int g) →
  let mine r := (Z.of_nat (offset_of n sz r) ≤ g < Z.of_nat (offset_of n sz (S r)))%Z in
  (∀ r p A, ps !! r = Some p → As !! r = Some A →
     _resolve_slice p A so =
       Ok (<[ax := if decide (mine r) then Some (Int (g - Z.of_nat (offset_of n sz r)))
                   else None]> (Some <$> expand_slobj (length gs) so), false)) ∧
  ((0 ≤ g < Z.of_nat n)%Z →
     ∃ r, r < sz ∧ mine r ∧ ∀ r', r' < sz → mine r' → r' = r) ∧
  ((g < 0 ∨ Z.of_nat n ≤ g)%Z → ∀ r, r < sz → ¬ mine r).
Proof.
  intros Hsz Hdist Hn Hso mine. split_and!.
  - intros r p A Hp HA.
    destruct (distributed_rank sz ax gs dt n r ps As p A Hdist Hn Hp HA)
      as (Hr & _ & Hgs & Hax & _ & Hoff & local & Hlocal & _ & _ & Hext & Hndim & _).
    unfold _resolve_slice. rewrite Hax, Hgs, Hoff, Hn, Hlocal.
    cbn [of_option mbind result_bind]. rewrite Hext, Hndim, Hso.
    cbn [of_option mbind result_bind]. do 3 f_equal.
    unfold mine. rewrite offset_of_S.
    destruct (decide (g - Z.of_nat (offset_of n sz r) < 0
                      ∨ g - Z.of_nat (offset_of n sz r) >= Z.of_nat (extent n sz r))%Z);
      [rewrite decide_False by lia|rewrite decide_True by lia]; done.
  - intros Hg. by apply offset_of_owner.
  - intros Hg r Hr Hmine. unfold mine in Hmine.
    pose proof (offset_of_le n sz (S r) Hsz ltac:(lia)). lia.
Qed.

End resolver_facts.

Lemma global_index_owner_witness :
  let p0 := mkProcess (Some (mkComm 2 0))
              [mk_ndarray [2; 2] (Node [Node [Leaf 1%Z; Leaf 2%Z]; Node [Leaf 3%Z; Leaf 4%Z]])] in
  let p1 := mkProcess (Some (mkComm 2 1)) [mk_ndarray [1; 2] (Node [Node [Leaf 5%Z; Leaf 6%Z]])] in
  _resolve_slice p0 (metadata 2 [3; 2] 0 () 0 0) (Single (Int 2%Z))
    = Ok ([None; Some (Slice full_slice)], false) ∧
  _resolve_slice p1 (metadata 2 [3; 2] 0 () 1 0) (Single (Int 2%Z))
    = Ok ([Some (Int 0%Z); Some (Slice full_slice)], false).
Proof.
  intros p0 p1.
  destruct (global_index_owner 2 0 3 [3; 2] () [p0; p1]
              [metadata 2 [3; 2] 0 () 0 0; metadata 2 [3; 2] 0 () 1 0]
              (Single (Int 2%Z)) 2%Z) as (Hres & _).
  - lia.
  - split_and!; [reflexivity|reflexivity|simpl; lia|].
    intros [|[|r]] p A Hp HA; simpl in Hp, HA; try discriminate;
      injection Hp as <-; injection HA as <-; (split; [reflexivity|]);
      eexists; (split; [reflexivity|]); (split; [reflexivity|]); repeat (constructor; simpl).
  - reflexivity.
  - reflexivity.
  - split; [exact (Hres 0 p0 _ eq_refl eq_refl)|exact (Hres 1 p1 _ eq_refl eq_refl)].
Defined.

(** ** Assignment and fetch through one selection *)

Lemma range_length_gt (s e k : Z) (j : nat) :
  (k < 0)%Z → j < range_length s e k ↔ (e < s + Z.of_nat j * k)%Z.
Proof.
  intros Hk. unfold range_length. rewrite decide_False by lia.
  case_decide as Hse; [|split; [lia|nia]].
  assert (0 < - k)%Z as Hk' by lia.
  pose proof (Z.mul_div_le (s - e - 1) (- k) Hk').
  pose proof (Z.mul_succ_div_gt (s - e - 1) (- k) Hk').
  assert (0 ≤ (s - e - 1) `div` (- k))%Z by (apply Z.div_pos; lia).
  split; intros Hj; nia.
Qed.

(** A slice selects positions of the axis, each one once. *)
Lemma slice_positions_spec (s : slice) (n : nat) (P : list nat) :
  slice_positions s n = Ok P → Forall (λ x, x < n) P ∧ NoDup P.
Proof.
  unfold slice_positions. destruct (slice_indices s n) as [[[ds de] k]|] eqn:Hs; [|done].
  cbn [mbind result_bind fst snd]. intros [= <-].
  assert (k ≠ 0 ∧
          ((0 < k ∧ 0 ≤ ds ∧ de ≤ Z.of_nat n) ∨ (k < 0 ∧ ds < Z.of_nat n ∧ -1 ≤ de)))%Z
    as [Hk Hbounds].
  { unfold slice_indices in Hs. case_decide; [done|]. injection Hs as <- <- <-.
    split; [done|]. destruct (decide (default 1 (step s) < 0)%Z).
    - right. destruct (start s), (stop s); repeat case_decide; lia.
    - left. destruct (start s), (stop s); repeat case_decide; lia. }
  assert (∀ j, j < range_length ds de k →
            (0 ≤ ds + Z.of_nat j * k < Z.of_nat n)%Z) as Hin.
  { intros j Hj. destruct Hbounds as [(? & ? & ?)|(? & ? & ?)].
    - apply range_length_lt in Hj; [|done]. nia.
    - apply range_length_gt in Hj; [|done]. nia. }
  split.
  - apply Forall_fmap, Forall_forall. intros j Hj%elem_of_seq. simpl.
    specialize (Hin j ltac:(lia)). lia.
  - apply NoDup_fmap_2_strong; [|apply NoDup_seq].
    intros i j Hi%elem_of_seq Hj%elem_of_seq Heq.
    pose proof (Hin i ltac:(lia)). pose proof (Hin j ltac:(lia)). nia.
Qed.

(** Writing [ys] at the positions [P] of [xs], each through [g], and
    reading the positions back. *)
Lemma fold_alter_pick {A B} (g : B → A → A) (xs : list A) (P : list nat) (ys : list B) :
  NoDup P → Forall (λ k, k < length xs) P → length ys = length P →
  length (foldl (λ acc kv, alter (g kv.2) kv.1 acc) xs (zip P ys)) = length xs ∧
  omap (λ k, foldl (λ acc (kv : nat * B), alter (g kv.2) kv.1 acc) xs (zip P ys) !! k) P
    = omap (λ kv, g kv.2 <$> xs !! kv.1) (zip P ys).
Proof.
  intros Hnd Hin Hlen. revert xs ys Hin Hlen.
  induction Hnd as [|k P Hk Hnd IH]; intros xs [|y ys] Hin Hlen; simplify_eq/=; [done|].
  apply Forall_cons in Hin as [Hkx Hin].
  destruct (IH (alter (g y) k xs) ys) as [IHlen IHpick];
    [by rewrite length_alter|done|].
  rewrite length_alter in IHlen. split; [done|].
  assert (∀ (l : list (nat * B)) (zs : list A),
            k ∉ l.*1 →
            foldl (λ acc (kv : nat * B), alter (g kv.2) kv.1 acc) zs l !! k = zs !! k) as Hk'.
  { induction l as [|[k' y'] l IHl]; intros zs Hnotin; [done|]. simpl in *.
    apply not_elem_of_cons in Hnotin as [? ?].
    rewrite IHl by done. by apply list_lookup_alter_ne. }
  rewrite Hk'.
  2:{ rewrite fst_zip by lia. done. }
  rewrite list_lookup_alter_eq. destruct (lookup_lt_is_Some_2 xs k Hkx) as [x Hx].
  rewrite Hx. csimpl. f_equal. rewrite IHpick.
  clear IH IHlen IHpick Hk'. revert ys Hlen Hk Hin.
  induction P as [|k' P IHP]; intros [|y' ys] Hlen Hk Hin; simplify_eq/=; [done|].
  apply Forall_cons in Hin as [? Hin]. apply not_elem_of_cons in Hk as [? ?].
  apply NoDup_cons in Hnd as [? ?].
  rewrite list_lookup_alter_ne by done. by rewrite IHP.
Qed.

Section roundtrip_items.
Context {T : Type}.

Lemma pick_assigned (F : nested T → nested T) (G : nested T → nested T → nested T)
    (xs ys : list (nested T)) (pos : list nat) :
  Forall (λ k, k < length xs) pos → length ys = length pos →
  (∀ k x y, xs !! k = Some x → y ∈ ys → F (G x y) = y) →
  F <$> omap (λ kv : nat * nested T, (λ x, G x kv.2) <$> xs !! kv.1) (zip pos ys) = ys.
Proof.
  intros Hpos. revert ys. induction Hpos as [|k pos Hk Hpos IH]; intros [|y ys] Hlen HF;
    simplify_eq/=; [done|].
  destruct (lookup_lt_is_Some_2 xs k Hk) as [x Hx]. rewrite Hx. csimpl.
  rewrite (HF k x y Hx) by constructor. f_equal.
  apply IH; [done|]. intros k' x' y' Hx' Hy'. apply (HF k' x' y' Hx').
  by constructor.
Qed.

(** What has been written through a selection is what the selection
    reads. *)
Lemma index_assign_items (v : list index) (sh sel : list nat) (a src : nested T) :
  has_shape sh a → index_shape sh v = Ok sel → has_shape sel src →
  index_items v (assign_items v a src) = src.
Proof.
  revert sh sel a src. induction v as [|ix v IH]; intros sh sel a src Ha Hsel Hsrc; [done|].
  destruct sh as [|n sh]; [done|].
  apply has_shape_cons in Ha as (xs & -> & Hlen & Hxs). cbn [index_shape] in Hsel.
  destruct ix as [i|s].
  - destruct (int_position i n) as [k|] eqn:Hk; [|done]. cbn [mbind result_bind] in Hsel.
    cbn [assign_items index_items]. rewrite Hlen, Hk. cbn [index_items].
    rewrite length_alter, Hlen, Hk.
    assert (k < length xs) as Hkn.
    { unfold int_position in Hk. repeat case_decide; simplify_eq; lia. }
    destruct (lookup_lt_is_Some_2 xs k Hkn) as [x Hx].
    rewrite list_lookup_alter_eq, Hx. csimpl.
    eapply IH; [|done..]. by eapply Forall_lookup_1 in Hxs.
  - destruct (slice_positions s n) as [pos|] eqn:Hpos; [|done].
    cbn [mbind result_bind] in Hsel.
    destruct (index_shape sh v) as [rest|] eqn:Hrest; [|done].
    cbn [mbind result_bind] in Hsel. injection Hsel as <-.
    apply has_shape_cons in Hsrc as (ys & -> & Hly & Hys).
    destruct (slice_positions_spec s n pos Hpos) as [Hin Hnd].
    rewrite <-Hlen in Hin.
    cbn [assign_items index_items children]. rewrite Hlen, Hpos. cbn [index_items].
    destruct (fold_alter_pick (λ y x, assign_items v x y) xs pos ys Hnd Hin Hly)
      as [Hfl Hpick].
    rewrite Hfl, Hlen, Hpos. f_equal. rewrite Hpick.
    apply (pick_assigned (index_items v) (assign_items v)); [done..|].
    intros k x y Hx Hy. eapply IH; [|done|].
    + by eapply Forall_lookup_1 in Hxs.
    + by eapply Forall_forall in Hys.
Qed.

Lemma broadcast_items_same (s : list nat) (val : nested T) :
  has_shape s val → broadcast_items s s val = val.
Proof.
  revert val. induction s as [|n s IH]; intros val Hval; [done|].
  apply has_shape_cons in Hval as (ys & -> & Hlen & Hys). cbn [broadcast_items].
  rewrite decide_False by lia. rewrite decide_True by done. f_equal.
  rewrite <-(list_fmap_id ys) at 2. apply Forall_fmap_ext.
  eapply Forall_impl; [done|]. intros y Hy. by apply IH.
Qed.

Lemma broadcastable_same (s : list nat) : broadcastable s s = true.
Proof.
  unfold broadcastable. induction (reverse s) as [|n l IH]; [done|]. simpl.
  by rewrite bool_decide_eq_true_2.
Qed.

(** [a[v] = value] followed by [a[v]], for a value of the shape of the
    selection. *)
Lemma np_setitem_getitem (a value : ndarray T) (v : list index) (sel : list nat) :
  wf_ndarray a → wf_ndarray value →
  index_shape (shape a) v = Ok sel → shape value = sel →
  ∃ a', np_setitem a v value = Ok a' ∧ shape a' = shape a ∧ np_getitem a' v = Ok value.
Proof.
  intros Ha Hv Hsel Hshape. unfold np_setitem, np_getitem. rewrite Hsel.
  cbn [mbind result_bind]. rewrite Hshape, broadcastable_same.
  eexists. split; [done|]. split; [done|]. cbn [shape items]. rewrite Hsel.
  cbn [mbind result_bind]. destruct value as [vs its]. cbn [shape items] in *. subst vs.
  f_equal. f_equal. rewrite broadcast_items_same by done.
  by eapply index_assign_items.
Qed.

End roundtrip_items.

Section resolver_roundtrip.
Context {T dtype : Type}.
Variable uninit : T.

(** The resolver looks at the shape of the local buffer only. *)
Lemma resolve_slice_shape (p p' : process T) (self : MPIArray dtype) (so : slobj)
    (l1 l2 : ndarray T) :
  local_array p self = Ok l1 → local_array p' self = Ok l2 → shape l1 = shape l2 →
  _resolve_slice p' self so = _resolve_slice p self so.
Proof.
  intros H1 H2 Hsh. unfold _resolve_slice. rewrite H1, H2.
  destruct (_local_offset self !! _axis self); [|done].
  destruct (_global_shape self !! _axis self); [|done].
  cbn [of_option mbind result_bind]. by rewrite Hsh.
Qed.

(** X5.  A selection through [global_slice] that is not full on the
    distributed axis.  On a rank without data for it the assignment
    changes nothing and the fetch gives [None].  On a rank with data,
    assigning a value of the shape of the local selection succeeds,
    writes into the buffer of the array and into no other buffer, and a
    fetch through the same selection then returns that value as a plain
    array. *)
Theorem global_slice_assign_fetch (p : process T) (self : MPIArray dtype) (so : slobj)
    (local : ndarray T) (sl : list (option index)) :
  local_array p self = Ok local → wf_ndarray local →
  _resolve_slice p self so = Ok (sl, false) →
  (sl !! _axis self = Some None →
     ∀ value, resolver__setitem__ p self so value = Ok p ∧
              resolver__getitem__ uninit p self so = ([], Ok (p, Nothing))) ∧
  (sl !! _axis self ≠ Some None →
     ∀ value sel,
       wf_ndarray value → index_shape (shape local) (omap id sl) = Ok sel →
       shape value = sel →
       ∃ p', resolver__setitem__ p self so value = Ok p' ∧
             resolver__getitem__ uninit p' self so = ([], Ok (p', Plain value)) ∧
             world p' = world p ∧ length (mem p') = length (mem p) ∧
             ∀ l, l ≠ base self → mem p' !! l = mem p !! l).
Proof.
  intros Hlocal Hwf Hres. split.
  - intros Hnone value. unfold resolver__setitem__, resolver__getitem__.
    rewrite Hres. cbn [mbind result_bind]. by rewrite Hnone.
  - intros Hsome value sel Hvalue Hsel Hshape.
    destruct (np_setitem_getitem local value (omap id sl) sel Hwf Hvalue Hsel Hshape)
      as (a' & Hset & Hsh & Hget).
    assert (mem p !! base self = Some local) as Hmem.
    { unfold local_array in Hlocal. by destruct (mem p !! base self); simplify_eq/=. }
    assert (local_array (write p (base self) a') self = Ok a') as Hlocal'.
    { unfold local_array, write. cbn [mem].
      rewrite list_lookup_insert_eq by (by eapply lookup_lt_Some). done. }
    exists (write p (base self) a'). split_and!.
    + unfold resolver__setitem__. rewrite Hres. cbn [mbind result_bind].
      assert (__setitem__ p self (omap id sl) value = Ok (write p (base self) a')) as Hs.
      { unfold __setitem__. rewrite Hlocal. cbn [mbind result_bind]. by rewrite Hset. }
      by destruct (sl !! _axis self) as [[ix|]|].
    + unfold resolver__getitem__.
      rewrite (resolve_slice_shape p _ self so local a' Hlocal Hlocal' (eq_sym Hsh)), Hres.
      rewrite Hlocal'. cbn [mbind result_bind]. rewrite Hget.
      by destruct (sl !! _axis self) as [[ix|]|].
    + done.
    + unfold write. cbn [mem]. by rewrite length_insert.
    + intros l Hl. unfold write. cbn [mem]. by rewrite list_lookup_insert_ne.
Qed.

End resolver_roundtrip.

Lemma global_slice_assign_fetch_witness :
  let p0 := mkProcess (Some (mkComm 2 0))
              [mk_ndarray [2; 2] (Node [Node [Leaf 1%Z; Leaf 2%Z]; Node [Leaf 3%Z; Leaf 4%Z]])] in
  let p1 := mkProcess (Some (mkComm 2 1)) [mk_ndarray [1; 2] (Node [Node [Leaf 5%Z; Leaf 6%Z]])] in
  let value := mk_ndarray [2] (Node [Leaf 8%Z; Leaf 9%Z]) in
  let p1' := mkProcess (Some (mkComm 2 1)) [mk_ndarray [1; 2] (Node [Node [Leaf 8%Z; Leaf 9%Z]])] in
  resolver__setitem__ p0 (metadata 2 [3; 2] 0 () 0 0) (Single (Int 2%Z)) value = Ok p0 ∧
  resolver__setitem__ p1 (metadata 2 [3; 2] 0 () 1 0) (Single (Int 2%Z)) value = Ok p1' ∧
  resolver__getitem__ 0%Z p1' (metadata 2 [3; 2] 0 () 1 0) (Single (Int 2%Z))
    = ([], Ok (p1', Plain value)).
Proof.
  intros p0 p1 value p1'.
  destruct (global_slice_assign_fetch 0%Z p0 (metadata 2 [3; 2] 0 () 0 0) (Single (Int 2%Z))
              (mk_ndarray [2; 2] (Node [Node [Leaf 1%Z; Leaf 2%Z]; Node [Leaf 3%Z; Leaf 4%Z]]))
              [None; Some (Slice full_slice)]) as [Hnone _];
    [reflexivity|repeat (constructor; simpl)|reflexivity|].
  destruct (global_slice_assign_fetch 0%Z p1 (metadata 2 [3; 2] 0 () 1 0) (Single (Int 2%Z))
              (mk_ndarray [1; 2] (Node [Node [Leaf 5%Z; Leaf 6%Z]]))
              [Some (Int 0%Z); Some (Slice full_slice)]) as [_ Hsome];
    [reflexivity|repeat (constructor; simpl)|reflexivity|].
  destruct (Hsome ltac:(discriminate) value [2]) as (p' & Hset & Hget & _);
    [repeat (constructor; simpl)|reflexivity|reflexivity|].
  split; [exact (proj1 (Hnone eq_refl value))|].
  assert (p' = p1') as -> by (vm_compute in Hset; by injection Hset as <-).
  split; [reflexivity|exact Hget].
Defined.

(** ** Subscripts that keep the distributed axis whole *)

Section getitem_facts.
Context {T dtype : Type}.
Variable uninit : T.

(** The number of the axis [a] among the axes that a subscript keeps:
    [a] less the integers in front of it. *)
Lemma kept_axis_find (v : list index) (a o : nat) (s : slice) :
  v !! a = Some (Slice s) →
  list_find (λ k, k = o + a)
    (omap id (imap (λ k sl, if is_int sl then None else Some (o + k)) v))
  = Some (a - length (filter (λ ix, is_int ix = true) (take a v)), o + a).
Proof.
  revert a o. induction v as [|ix v IH]; intros a o Ha; [done|].
  destruct a as [|a].
  - simpl in Ha. injection Ha as ->. csimpl. rewrite Nat.add_0_r.
    by rewrite decide_True.
  - simpl in Ha. cbn [imap take]. rewrite filter_cons.
    assert (imap ((λ k sl, if is_int sl then None else Some (o + k)) ∘ S) v
            = imap (λ k sl, if is_int sl then None else Some (S o + k)) v) as ->.
    { apply imap_ext. intros k sl _. simpl. destruct (is_int sl); [done|]. f_equal. lia. }
    specialize (IH a (S o) Ha). replace (S o + a) with (o + S a) in IH by lia.
    assert (length (filter (λ ix, is_int ix = true) (take a v)) ≤ a) as Hle.
    { etrans; [apply length_filter|]. rewrite length_take. lia. }
    destruct ix as [i|s']; cbn [is_int].
    + rewrite decide_True by done. csimpl. simpl in IH. by rewrite IH.
    + rewrite decide_False by done. csimpl. rewrite Nat.add_0_r.
      rewrite decide_False by lia. simpl in IH. rewrite IH. csimpl. f_equal. f_equal. lia.
Qed.

(** The extent a subscript leaves of the axis [a] it slices. *)
Lemma index_shape_kept (sh sel : list nat) (v : list index) (a n : nat) (s : slice)
    (P : list nat) :
  index_shape sh v = Ok sel → v !! a = Some (Slice s) → sh !! a = Some n →
  slice_positions s n = Ok P →
  sel !! (a - length (filter (λ ix, is_int ix = true) (take a v))) = Some (length P).
Proof.
  revert sh sel a. induction v as [|ix v IH]; intros sh sel a Hsel Ha Hn HP; [done|].
  destruct sh as [|m sh]; [done|]. cbn [index_shape] in Hsel.
  destruct a as [|a].
  - simpl in Ha, Hn. simplify_eq. rewrite HP in Hsel. cbn [mbind result_bind] in Hsel.
    destruct (index_shape sh v); [|done]. by simplify_eq/=.
  - simpl in Ha, Hn. cbn [take]. rewrite filter_cons.
    assert (length (filter (λ ix, is_int ix = true) (take a v)) ≤ a) as Hle.
    { etrans; [apply length_filter|]. rewrite length_take. lia. }
    destruct ix as [i|s']; cbn [is_int].
    + rewrite decide_True by done. destruct (int_position i m); [|done].
      cbn [mbind result_bind] in Hsel. cbn [length].
      replace (S a - S (length (filter (λ ix, is_int ix = true) (take a v))))
        with (a - length (filter (λ ix, is_int ix = true) (take a v))) by lia.
      by eapply IH.
    + rewrite decide_False by done. destruct (slice_positions s' m); [|done].
      cbn [mbind result_bind] in Hsel.
      destruct (index_shape sh v) as [rest|] eqn:Hrest; [|done].
      cbn [mbind result_bind] in Hsel. injection Hsel as <-.
      replace (S a - length (filter (λ ix, is_int ix = true) (take a v)))
        with (S (a - length (filter (λ ix, is_int ix = true) (take a v)))) by lia.
      simpl. by eapply IH.
Qed.

Lemma kept_positions (s : slice) (m : nat) :
  s = full_slice ∨ s = mk_slice (Some 0%Z) (Some (Z.of_nat m)) None →
  slice_positions s m = Ok (seq 0 m).
Proof.
  intros [->| ->]; [apply slice_positions_full|].
  rewrite slice_positions_range by (done || lia). f_equal. f_equal; lia.
Qed.

(** X6.  A subscript whose entry for the distributed axis is [:] or
    [0:local extent], on a rank whose buffer has its share of the axis.
    No warning is issued and [AxisException] is not raised; what indexing
    the local buffer raises is raised.  Otherwise the result is an
    MPIArray showing what indexing the local buffer gives; its
    distributed axis is the old one less the number of integer indices in
    front of it, with the global extent of the old one.  With no integer
    in front it is a view of the same buffer and memory is as before;
    with one or more it has a new buffer, and the buffers there were are
    untouched. *)
Theorem getitem_keeps_distributed_axis (p : process T) (self : MPIArray dtype)
    (v : list index) (local : ndarray T) (s : slice) (sz r n : nat) :
  local_array p self = Ok local →
  _comm self = Some (mkComm sz r) → r < sz →
  _global_shape self !! _axis self = Some n →
  shape local !! _axis self = Some (extent n sz r) →
  let v' := pad_index (length (_global_shape self)) v in
  v' !! _axis self = Some (Slice s) →
  s = full_slice ∨ s = mk_slice (Some 0%Z) (Some (Z.of_nat (extent n sz r))) None →
  let k := length (filter (λ ix, is_int ix = true) (take (_axis self) v')) in
  let d := _axis self - k in
  __getitem__ uninit p self v =
    ([], match np_getitem local v' with
         | Raise e => Raise e
         | Ok res =>
             let m l :=
               mkMPIArray (<[d := n]> (shape res)) d (shape res)
                 (<[d := offset_of n sz r]> (replicate (length (shape res)) 0))
                 (Some (mkComm sz r)) (_dtype self) l in
             if decide (k = 0) then Ok (p, View (m (base self)) res)
             else Ok (mkProcess (world p) (mem p ++ [res]), Fresh (m (length (mem p))))
         end).
Proof.
  intros Hlocal Hcomm Hr Hn Hext v' Hv Hs k d.
  assert (k ≤ _axis self) as Hk.
  { unfold k. etrans; [apply length_filter|]. rewrite length_take. lia. }
  unfold __getitem__. fold v'. rewrite Hv, Hlocal.
  assert ((if decide (Slice s = Slice full_slice) then Ok false
           else n0 ← of_option IndexError (shape local !! _axis self);
                Ok (bool_decide
                      (Slice s ≠ Slice (mk_slice (Some 0%Z) (Some (Z.of_nat n0)) None))))
          = Ok false) as ->.
  { destruct Hs as [->| ->]; [by rewrite decide_True|].
    case_decide; [done|]. rewrite Hext. cbn [of_option mbind result_bind].
    by rewrite bool_decide_eq_false_2 by (by intros ?). }
  f_equal. unfold getitem_distributed.
  pose proof (kept_axis_find v' (_axis self) 0 s Hv) as Hfind.
  cbn [Nat.add] in Hfind. rewrite Hfind. cbn [fmap option_fmap option_map fst of_option mbind result_bind].
  fold k. fold d.
  destruct (np_getitem local v') as [res|e] eqn:Hres; [|by case_decide].
  assert (shape res !! d = Some (extent n sz r)) as Hd.
  { unfold np_getitem in Hres.
    destruct (index_shape (shape local) v') as [sel|] eqn:Hsel; [|done].
    cbn [mbind result_bind] in Hres. injection Hres as <-. cbn [shape]. unfold d, k.
    erewrite (index_shape_kept _ sel v' (_axis self) _ s); [|done..|by apply kept_positions].
    by rewrite length_seq. }
  assert (d < length (shape res)) as Hdlt by (by eapply lookup_lt_Some).
  cbn [mbind result_bind]. destruct (decide (k = 0)) as [Hk0|Hk0].
  - assert (d = _axis self) as Hda by (unfold d; lia).
    rewrite decide_True by done. unfold __array_finalize__.
    rewrite Hn, <-Hda, Hd. cbn [of_option mbind result_bind].
    rewrite Hcomm, split_local_eq by done. by rewrite Hda.
  - rewrite decide_False by (unfold d; lia).
    rewrite decide_False by (intros Hnil; rewrite Hnil in Hdlt; simpl in Hdlt; lia).
    rewrite Hn, Hd. cbn [of_option mbind result_bind].
    unfold __new__. rewrite Hcomm. rewrite list_lookup_insert_eq by done.
    cbn [of_option mbind result_bind]. rewrite split_local_eq by done.
    rewrite list_insert_insert_eq, (list_insert_id (shape res) d) by done.
    unfold alloc. cbn [mbind result_bind]. unfold assign_all, local_array.
    cbn [mem base]. rewrite list_lookup_middle by done.
    cbn [of_option mbind result_bind shape]. rewrite decide_True by done.
    unfold write. cbn [world mem base]. rewrite length_insert.
    do 3 f_equal. rewrite insert_app_r_alt by done. rewrite Nat.sub_diag. simpl.
    by destruct res.
Qed.

End getitem_facts.

Lemma getitem_keeps_distributed_axis_witness :
  let a := mk_ndarray [2; 2] (Node [Node [Leaf 1%Z; Leaf 2%Z]; Node [Leaf 3%Z; Leaf 4%Z]]) in
  let p := mkProcess (Some (mkComm 2 0)) [a] in
  __getitem__ 0%Z p (metadata 2 [2; 3] 1 () 0 0) [Int 1%Z]
    = ([], Ok (mkProcess (Some (mkComm 2 0)) [a; mk_ndarray [2] (Node [Leaf 3%Z; Leaf 4%Z])],
               Fresh (mkMPIArray [3] 0 [2] [0] (Some (mkComm 2 0)) () 1))).
Proof.
  intros a p.
  rewrite (getitem_keeps_distributed_axis 0%Z p (metadata 2 [2; 3] 1 () 0 0) [Int 1%Z] a
             full_slice 2 0 3);
    [reflexivity|reflexivity|reflexivity|lia|reflexivity|reflexivity|reflexivity|by left].
Defined.

(** ** enumerate *)

Lemma join_ranges (n sz m : nat) :
  mjoin ((λ r, seq (offset_of n sz r) (extent n sz r)) <$> seq 0 m) = seq 0 (offset_of n sz m).
Proof.
  induction m as [|m IH]; [by rewrite offset_of_0|].
  rewrite seq_S, fmap_app, join_app, IH. csimpl. rewrite app_nil_r.
  rewrite offset_of_S. by rewrite seq_app.
Qed.

Lemma enumerate_axis {dtype : Type} (self : MPIArray dtype) (a start n : nat) :
  _local_offset self !! a = Some start → _local_shape self !! a = Some n →
  enumerate self a = Ok ((λ i, (i, start + i)) <$> seq 0 n).
Proof.
  intros Hs Hn. unfold enumerate. rewrite Hs, Hn. cbn [of_option mbind result_bind].
  f_equal. replace (start + n - start) with n by lia.
  apply list_eq. intros i. rewrite list_lookup_imap, list_lookup_fmap.
  destruct (decide (i < n)) as [Hi|Hi].
  - by rewrite !lookup_seq_lt by done.
  - by rewrite !lookup_seq_ge by lia.
Qed.

(** X7.  [enumerate] on rank [r] of an array laid out over [sz] ranks.
    Along the distributed axis it pairs the local indices, from 0, with
    the global indices of the rank's range, from its offset; the global
    indices of all ranks, in rank order, are those of the global axis,
    each one once.  Along any other axis the two indices are the same
    and run over the whole axis. *)
Theorem enumerate_covers {dtype : Type} (sz ax n : nat) (gs : list nat) (dt : dtype)
    (l : nat → nat) :
  0 < sz → gs !! ax = Some n →
  (∀ r, enumerate (metadata sz gs ax dt r (l r)) ax
        = Ok ((λ i, (i, offset_of n sz r + i)) <$> seq 0 (extent n sz r))) ∧
  (∀ es : nat → list (nat * nat),
     (∀ r, r < sz → enumerate (metadata sz gs ax dt r (l r)) ax = Ok (es r)) →
     mjoin ((λ r, (es r).*2) <$> seq 0 sz) = seq 0 n) ∧
  (∀ r a m, a ≠ ax → gs !! a = Some m →
     enumerate (metadata sz gs ax dt r (l r)) a = Ok ((λ i, (i, i)) <$> seq 0 m)).
Proof.
  intros Hsz Hn. assert (ax < length gs) as Hax by (by eapply lookup_lt_Some).
  assert (∀ r, enumerate (metadata sz gs ax dt r (l r)) ax
               = Ok ((λ i, (i, offset_of n sz r + i)) <$> seq 0 (extent n sz r))) as Hown.
  { intros r. apply enumerate_axis; unfold metadata; rewrite Hn;
      cbn [_local_offset _local_shape default from_option id];
      by rewrite list_lookup_insert_eq by (by rewrite ?length_replicate). }
  split_and!; [done| |].
  - intros es Hes. rewrite <-(offset_of_total n sz Hsz), <-join_ranges. f_equal.
    apply list_fmap_ext. intros j r Hr%lookup_seq. specialize (Hes r ltac:(lia)).
    rewrite Hown in Hes. injection Hes as <-. rewrite <-list_fmap_compose.
    apply list_eq. intros i. rewrite list_lookup_fmap.
    destruct (decide (i < extent n sz r)) as [Hi|Hi].
    + by rewrite !lookup_seq_lt by done.
    + by rewrite !lookup_seq_ge by lia.
  - intros r a m Ha Hm. assert (a < length gs) by (by eapply lookup_lt_Some).
    rewrite (enumerate_axis _ a 0 m); [done| |].
    + unfold metadata. rewrite Hn. cbn [_local_offset default from_option id].
      rewrite list_lookup_insert_ne by done. by rewrite lookup_replicate_2.
    + unfold metadata. rewrite Hn. cbn [_local_shape default from_option id].
      by rewrite list_lookup_insert_ne by done.
Qed.

Lemma enumerate_covers_witness :
  enumerate (metadata 2 [5; 2] 0 () 0 0) 0 = Ok [(0, 0); (1, 1); (2, 2)] ∧
  enumerate (metadata 2 [5; 2] 0 () 1 0) 0 = Ok [(0, 3); (1, 4)] ∧
  enumerate (metadata 2 [5; 2] 0 () 1 0) 1 = Ok [(0, 0); (1, 1)].
Proof.
  destruct (enumerate_covers 2 0 5 [5; 2] () (λ _, 0)) as (Hown & _ & Hother);
    [lia|reflexivity|].
  split_and!; [exact (Hown 0)|exact (Hown 1)|exact (Hother 1 1 2 ltac:(lia) eq_refl)].
Defined.

(** ** copy *)

Section copy_facts.
Context {T dtype : Type}.

(** X8.  Every rank of a distributed array calls [copy].  Every rank
    returns: the layout check of [wrap] passes.  The copy has the
    attributes of the original and a new buffer that holds what the
    buffer of the original holds; the buffers the process had are as they
    were, so that writing to the copy leaves the original alone. *)
Theorem copy_distributed (sz ax fuel : nat) (gs : list nat) (dt : dtype)
    (ps : list (process T)) (As : list (MPIArray dtype)) :
  0 < sz → 2 ≤ fuel → distributed sz gs ax dt ps As →
  ∃ outs,
    run_world fuel (zip_with copy ps As) = Some (Ok <$> outs) ∧
    length outs = sz ∧
    distributed sz gs ax dt (outs.*1) (outs.*2) ∧
    ∀ r p A, ps !! r = Some p → As !! r = Some A →
      ∃ local,
        local_array p A = Ok local ∧
        outs !! r = Some (mkProcess (world p) (mem p ++ [local]),
                          metadata sz gs ax dt r (length (mem p))).
Proof.
  intros Hsz Hfuel Hdist. pose proof Hdist as (Hlp & HlA & Hax & _).
  destruct (lookup_lt_is_Some_2 gs ax Hax) as [n Hn].
  set (buf := λ w : process T * MPIArray dtype,
                default (mk_ndarray [] (Node [])) (mem w.1 !! base w.2)).
  set (ws := (λ w : process T * MPIArray dtype,
                (mkProcess (world w.1) (mem w.1 ++ [buf w]), length (mem w.1), buf w))
             <$> zip ps As).
  set (hs := (λ (w : process T * MPIArray dtype) (m : MPIArray dtype),
                Ok (mkProcess (world w.1) (mem w.1 ++ [buf w]), m)) <$> zip ps As).
  assert (length (zip ps As) = sz) as Hlz by (rewrite length_zip; lia).
  assert (∀ r w, zip ps As !! r = Some w →
            r < sz ∧ ps !! r = Some w.1 ∧ As !! r = Some w.2 ∧
            w.2 = metadata sz gs ax dt r (base w.2) ∧
            local_array w.1 w.2 = Ok (buf w) ∧
            shape (buf w) = <[ax := extent n sz r]> gs ∧ wf_ndarray (buf w)) as Hw.
  { intros r [p A] (? & ? & [= <- <-] & Hp & HA)%lookup_zip_with_Some.
    destruct (distributed_rank sz ax gs dt n r ps As p A Hdist Hn Hp HA)
      as (Hr & HAeq & _ & _ & _ & _ & local & Hlocal & Hmem & Hsh & _ & _ & Hwf).
    unfold buf. cbn [fst snd]. rewrite Hmem. by split_and!. }
  assert (zip_with copy ps As = zip_with then_done (wrap_all dt ax ws) hs) as ->.
  { apply list_eq. intros r. rewrite !lookup_zip_with. unfold wrap_all, ws, hs.
    rewrite list_lookup_imap, !list_lookup_fmap, length_fmap, Hlz.
    destruct (zip ps As !! r) as [[p A]|] eqn:Hz.
    - destruct (Hw r _ Hz) as (Hr & Hp & HA & HAeq & Hlocal & _). cbn [fst snd] in *.
      rewrite Hp, HA. csimpl. f_equal. unfold copy. rewrite Hlocal. cbn [alloc].
      rewrite HAeq at 2 3 4. by unfold metadata.
    - csimpl. destruct (ps !! r) as [p|] eqn:Hp; [|done]. csimpl.
      destruct (As !! r) as [A|] eqn:HA; [|done]. exfalso.
      apply lookup_ge_None in Hz. apply lookup_lt_Some in Hp. lia. }
  rewrite run_world_then_done
    by (unfold wrap_all, ws, hs; by rewrite length_imap, !length_fmap).
  rewrite wrap_all_run; [| |  |done].
  2:{ unfold ws. intros Hnil%fmap_nil_inv. rewrite Hnil in Hlz. simpl in Hlz. lia. }
  2:{ unfold ws. apply Forall_fmap, Forall_lookup. intros r w Hz.
      destruct (Hw r w Hz) as (_ & _ & _ & _ & _ & Hsh & _). cbn [compose fst snd mem].
      split; [by rewrite list_lookup_middle|]. rewrite Hsh.
      apply lookup_lt_is_Some. by rewrite length_insert. }
  assert ((λ w : process T * loc * ndarray T, axis_extent ax w.2) <$> ws
          = extent n sz <$> seq 0 sz) as Hlens.
  { unfold ws. rewrite <-list_fmap_compose. apply list_eq. intros r.
    rewrite !list_lookup_fmap. destruct (zip ps As !! r) as [w|] eqn:Hz.
    - destruct (Hw r w Hz) as (Hr & _ & _ & _ & _ & Hsh & _).
      rewrite lookup_seq_lt by done. csimpl. f_equal. unfold axis_extent.
      by rewrite Hsh, list_lookup_insert_eq.
    - apply lookup_ge_None in Hz. by rewrite lookup_seq_ge by lia. }
  assert (length ws = sz) as Hlw by (unfold ws; by rewrite length_fmap).
  cbv zeta. rewrite Hlw, Hlens, split_parts_sum by done.
  rewrite bool_decide_eq_true_2 by done. csimpl.
  set (outs := imap (λ r (w : process T * MPIArray dtype),
                 (mkProcess (world w.1) (mem w.1 ++ [buf w]),
                  metadata sz gs ax dt r (length (mem w.1)))) (zip ps As)).
  assert (∀ r p A, ps !! r = Some p → As !! r = Some A →
            outs !! r = Some (mkProcess (world p) (mem p ++ [buf (p, A)]),
                              metadata sz gs ax dt r (length (mem p)))) as Houts.
  { intros r p A Hp HA. unfold outs. rewrite list_lookup_imap.
    assert (zip ps As !! r = Some (p, A)) as -> by (by apply lookup_zip_with_Some; eauto).
    done. }
  exists outs. split_and!.
  - f_equal. apply list_eq. intros r. unfold outs, ws, hs.
    rewrite lookup_zip_with, !list_lookup_fmap, !list_lookup_imap, !list_lookup_fmap.
    destruct (zip ps As !! r) as [w|] eqn:Hz; [|done]. csimpl. f_equal. f_equal. f_equal.
    destruct (Hw r w Hz) as (_ & _ & _ & _ & _ & Hsh & _).
    unfold wrapped, metadata. cbn [fst snd]. 
    rewrite Hsh, Hn, length_insert, list_insert_insert_eq, list_insert_id by done. done.
  - unfold outs. by rewrite length_imap.
  - split_and!.
    + rewrite length_fmap. unfold outs. by rewrite length_imap.
    + rewrite length_fmap. unfold outs. by rewrite length_imap.
    + done.
    + intros r p' A'. rewrite !list_lookup_fmap. unfold outs. rewrite list_lookup_imap.
      destruct (zip ps As !! r) as [w|] eqn:Hz; [|done]. csimpl. intros [= <-] [= <-].
      destruct (Hw r w Hz) as (_ & _ & _ & _ & _ & Hsh & Hwf).
      split; [done|]. exists (buf w). cbn [mem base metadata].
      rewrite list_lookup_middle by done. split_and!; [done| |done].
      unfold metadata. cbn [_local_shape]. by rewrite Hn.
  - intros r p A Hp HA. exists (buf (p, A)). split; [|by apply Houts].
    assert (zip ps As !! r = Some (p, A)) as Hz by (by apply lookup_zip_with_Some; eauto).
    by destruct (Hw r _ Hz) as (_ & _ & _ & _ & Hlocal & _).
Qed.

End copy_facts.

Lemma copy_distributed_witness :
  let a0 := mk_ndarray [2; 2] (Node [Node [Leaf 1%Z; Leaf 2%Z]; Node [Leaf 3%Z; Leaf 4%Z]]) in
  let a1 := mk_ndarray [1; 2] (Node [Node [Leaf 5%Z; Leaf 6%Z]]) in
  let ps := [mkProcess (Some (mkComm 2 0)) [a0]; mkProcess (Some (mkComm 2 1)) [a1]] in
  let As := [metadata 2 [3; 2] 0 () 0 0; metadata 2 [3; 2] 0 () 1 0] in
  run_world 2 (zip_with copy ps As) =
    Some [Ok (mkProcess (Some (mkComm 2 0)) [a0; a0], metadata 2 [3; 2] 0 () 0 1);
          Ok (mkProcess (Some (mkComm 2 1)) [a1; a1], metadata 2 [3; 2] 0 () 1 1)].
Proof.
  intros a0 a1 ps As.
  destruct (copy_distributed 2 0 2 [3; 2] () ps As) as (outs & Hrun & Hlen & _ & Hout).
  - lia.
  - lia.
  - split_and!; [reflexivity|reflexivity|simpl; lia|].
    intros [|[|r]] p A Hp HA; simpl in Hp, HA; try discriminate;
      injection Hp as <-; injection HA as <-; (split; [reflexivity|]);
      eexists; (split; [reflexivity|]); (split; [reflexivity|]); repeat (constructor; simpl).
  - destruct (Hout 0 _ _ eq_refl eq_refl) as (l0 & Hl0 & Ho0).
    destruct (Hout 1 _ _ eq_refl eq_refl) as (l1 & Hl1 & Ho1).
    injection Hl0 as <-. injection Hl1 as <-.
    destruct outs as [|o0 [|o1 [|]]]; try discriminate.
    injection Ho0 as ->. injection Ho1 as ->. exact Hrun.
Defined.

(** ** The layout after redistribute *)

(** X9.  An array with an element type that has a wire type, distributed
    along axis [i] over any number of ranks, is redistributed onto
    another axis [j].  Every rank returns, without a warning, a new array
    with the attributes of the balanced layout along [j]: axis [j], the
    global shape of the input, the rank's share of axis [j] as local
    extent and its start as local offset.  Its buffer is new and holds
    the rank's section along [j] of the global array of the input; the
    buffers the process had are as they were. *)
Theorem redistribute_layout {T dtype mpitype : Type} (uninit : T)
    (typemap : dtype → option mpitype) (sz i j fuel : nat) (gs : list nat) (dt : dtype)
    (ps : list (process T)) (As : list (MPIArray dtype)) :
  0 < sz → distributed sz gs i dt ps As → j < length gs → i ≠ j →
  is_Some (typemap dt) → 1 ≤ fuel →
  ∃ G outs,
    has_shape gs G ∧ global_array ps As = Ok (mk_ndarray gs G) ∧
    run_world fuel (zip_with (λ p A, redistribute uninit typemap p A j) ps As)
      = Some (Ok <$> outs) ∧
    global_array (states outs) (arrays outs) = Ok (mk_ndarray gs G) ∧
    length outs = sz ∧
    ∀ r p, ps !! r = Some p →
      outs !! r =
        Some (mkProcess (world p)
                (mem p ++ [mk_ndarray (<[j := extent (default 0 (gs !! j)) sz r]> gs)
                             (section_of G sz gs j r)]),
              metadata sz gs j dt r (length (mem p)), []).
Proof.
  intros Hsz Hdist Hj Hij Htm Hfuel.
  destruct (distributed_sections uninit sz i gs dt ps As Hdist Hsz) as (G & HG & Hsec).
  pose proof (sections_global_array G sz i gs dt ps As Hsec HG Hsz) as Hglob.
  pose proof Hdist as (Hlp & _).
  exists G, (imap (redistributed G sz gs j dt) ps). split_and!; [done|done| | | |].
  - by apply (redistribute_sections uninit typemap G sz i j).
  - apply (sections_global_array G sz j gs dt); [|done..]. by apply redistributed_sections.
  - by rewrite length_imap.
  - intros r p Hp. rewrite list_lookup_imap, Hp. done.
Qed.

Lemma redistribute_layout_witness :
  let ps := [mkProcess (Some (mkComm 2 0)) [mk_ndarray [1; 2] (Node [Node [Leaf 1%Z; Leaf 2%Z]])];
             mkProcess (Some (mkComm 2 1)) [mk_ndarray [1; 2] (Node [Node [Leaf 3%Z; Leaf 4%Z]])]] in
  let As := [metadata 2 [2; 2] 0 () 0 0; metadata 2 [2; 2] 0 () 1 0] in
  run_world 1 (zip_with (λ p A, redistribute 0%Z (λ _ : (), Some ()) p A 1) ps As) =
    Some [Ok (mkProcess (Some (mkComm 2 0))
                [mk_ndarray [1; 2] (Node [Node [Leaf 1%Z; Leaf 2%Z]]);
                 mk_ndarray [2; 1] (Node [Node [Leaf 1%Z]; Node [Leaf 3%Z]])],
              metadata 2 [2; 2] 1 () 0 1, []);
          Ok (mkProcess (Some (mkComm 2 1))
                [mk_ndarray [1; 2] (Node [Node [Leaf 3%Z; Leaf 4%Z]]);
                 mk_ndarray [2; 1] (Node [Node [Leaf 2%Z]; Node [Leaf 4%Z]])],
              metadata 2 [2; 2] 1 () 1 1, [])].
Proof.
  intros ps As.
  destruct (redistribute_layout 0%Z (λ _ : (), Some ()) 2 0 1 1 [2; 2] () ps As)
    as (G & outs & HG & Hglob & Hrun & _ & Hlen & Hout).
  - lia.
  - split_and!; [reflexivity|reflexivity|simpl; lia|].
    intros [|[|r]] p A Hp HA; simpl in Hp, HA; try discriminate;
      injection Hp as <-; injection HA as <-; (split; [reflexivity|]);
      eexists; (split; [reflexivity|]); (split; [reflexivity|]); repeat (constructor; simpl).
  - simpl. lia.
  - lia.
  - by eexists.
  - lia.
  - vm_compute in Hglob. injection Hglob as <-.
    pose proof (Hout 0 _ eq_refl) as Ho0. pose proof (Hout 1 _ eq_refl) as Ho1.
    destruct outs as [|o0 [|o1 [|]]]; try discriminate.
    injection Ho0 as ->. injection Ho1 as ->. exact Hrun.
Defined.

(** ** Reductions along one axis *)

Lemma lookup_delete_other {A} (l : list A) (i d : nat) :
  i ≠ d → delete i l !! (if bool_decide (i < d) then d - 1 else d) = l !! d.
Proof.
  intros Hid. case_bool_decide.
  - rewrite list_lookup_delete_ge by lia. f_equal. lia.
  - by rewrite list_lookup_delete_lt by lia.
Qed.

Lemma delete_insert_other {A} (l : list A) (i d : nat) (x : A) :
  i ≠ d →
  delete i (<[d := x]> l) = <[if bool_decide (i < d) then d - 1 else d := x]> (delete i l).
Proof.
  revert i d. induction l as [|y l IH]; intros i d Hid; [by destruct i|].
  destruct i as [|i], d as [|d]; [done| | |].
  - rewrite bool_decide_eq_true_2 by lia. simpl. by rewrite Nat.sub_0_r.
  - by rewrite bool_decide_eq_false_2 by lia.
  - cbn [delete list_delete insert list_insert]. rewrite IH by lia.
    destruct (decide (i < d)) as [Hlt|Hge].
    + rewrite !bool_decide_eq_true_2 by lia. destruct d; [lia|]. simpl.
      by rewrite Nat.sub_0_r.
    + by rewrite !bool_decide_eq_false_2 by lia.
Qed.

Section reduce_facts.
Context {T dtype ufunc : Type}.
Variable nout : ufunc → nat.
Variable numpy : ufunc → method → list (option (ndarray T)) → option axis_arg →
  option bool → list (option (ndarray T)) → result (option (list (ndarray T * dtype))).

(** X10.  Every rank of the world reduces along one axis other than the
    distributed axis [d], named by its number [i] counted from the
    front, without [keepdims] and without [out]; numpy answers on rank
    [r] with one result that has, less axis [i], rank [r]'s share in the
    balanced split over the world of the global shape.  Every rank
    returns an MPIArray over a new buffer holding that result, with the
    global shape less axis [i]; it is distributed over the world along
    [d - 1] when [i] is in front of [d] and along [d] when [i] is behind
    it. *)
Theorem reduce_moves_distributed_axis (u : ufunc) (d i n fuel : nat) (gs : list nat)
    (dt : dtype) (ws : list (process T * list (operand dtype) * ndarray T)) :
  ws ≠ [] → 2 ≤ fuel → gs !! d = Some n → i < length gs → i ≠ d → nout u = 1 →
  let kw := mk_kwargs (Some (AxisInt (Z.of_nat i))) [] None in
  (∀ r w, ws !! r = Some w →
     world w.1.1 = Some (mkComm (length ws) r) ∧
     Forall (shares_axis w.1.1 d) w.1.2 ∧ Exists is_mpi w.1.2 ∧
     numpy u Reduce (views w.1.1 w.1.2) (Some (AxisInt (Z.of_nat i))) None []
       = Ok (Some [(w.2, dt)]) ∧
     shape w.2 = delete i (<[d := extent n (length ws) r]> gs)) →
  let d' := if bool_decide (i < d) then d - 1 else d in
  run_world fuel ((λ w, __array_ufunc__ ufunc nout numpy w.1.1 u Reduce w.1.2 kw) <$> ws) =
    Some (imap (λ r w,
            Ok (mkProcess (world w.1.1) (mem w.1.1 ++ [w.2]),
                RetOne (OpMPI (metadata (length ws) (delete i gs) d' dt r
                                 (length (mem w.1.1))))))
          ws).
Proof.
  intros Hne Hfuel Hn Hi Hid Hnout kw Hws d'.
  set (sz := length ws).
  assert (d < length gs) as Hd by (by eapply lookup_lt_Some).
  assert (0 < sz) as Hsz by (unfold sz; destruct ws; [done|simpl; lia]).
  assert (∀ r w, ws !! r = Some w →
            shape w.2 = <[d' := extent n sz r]> (delete i gs) ∧
            shape w.2 !! d' = Some (extent n sz r) ∧ boxed w.2 = w.2) as Hshape.
  { intros r w Hw. destruct (Hws r w Hw) as (_ & _ & _ & _ & Hsh).
    rewrite delete_insert_other in Hsh by done. fold d' sz in Hsh.
    assert (d' < length (delete i gs)).
    { apply lookup_lt_is_Some. unfold d'. rewrite lookup_delete_other by done. by eexists. }
    split_and!; [done|by rewrite Hsh, list_lookup_insert_eq|].
    unfold boxed. rewrite Hsh. destruct (delete i gs); [simpl in *; lia|by destruct d']. }
  rewrite (array_ufunc_run nout numpy u Reduce kw d d' fuel dt ws); try done.
  2:{ simpl. intros [= Heq]. lia. }
  2:{ intros r w Hw. destruct (Hws r w Hw) as (Hworld & Hin & Hex & Hnumpy & Hsh).
      destruct (Hshape r w Hw) as (Hsh' & Hext & Hbox).
      split_and!; try done.
      - rewrite Hbox, Hext. by eexists.
      - right. split; [intros Hnil; by rewrite Hnil in Hext|].
        unfold result_axis. cbn [names_reduce lookup list_lookup of_option mbind result_bind fst].
        destruct (shape w.2) eqn:Hs; [done|]. cbn [mbind result_bind].
        unfold reduced_axis. cbn [kw kw_keepdims kw_axis default from_option id].
        do 2 f_equal. unfold d'. repeat case_bool_decide; lia. }
  assert ((λ w : process T * list (operand dtype) * ndarray T, axis_extent d' (boxed w.2))
            <$> ws = extent n sz <$> seq 0 sz) as Hlens.
  { apply list_eq. intros r. rewrite !list_lookup_fmap.
    destruct (ws !! r) as [w|] eqn:Hw.
    - pose proof (lookup_lt_Some _ _ _ Hw) as Hr. rewrite lookup_seq_lt by done.
      destruct (Hshape r w Hw) as (_ & Hext & Hbox). csimpl. f_equal.
      unfold axis_extent. by rewrite Hbox, Hext.
    - apply lookup_ge_None in Hw. by rewrite lookup_seq_ge by (unfold sz; lia). }
  fold sz. rewrite Hlens, split_parts_sum by done.
  rewrite bool_decide_eq_true_2 by done.
  f_equal. apply imap_ext. intros r w Hw.
  destruct (Hshape r w Hw) as (Hsh & _ & Hbox). rewrite Hbox. do 3 f_equal.
  unfold wrapped, metadata.
  assert (delete i gs !! d' = Some n) as Hn'
    by (unfold d'; by rewrite lookup_delete_other).
  rewrite Hsh, Hn', length_insert, list_insert_insert_eq, list_insert_id by done.
  done.
Qed.

(** X11.  A reducing method without [keepdims] and without [out], on
    inputs that share the distributed axis, for which numpy answers with
    one result that is an array.  When the [axis] keyword is absent the
    call raises [KeyError]; when it is a tuple of axes the call raises
    [TypeError].  Both happen after numpy has done the reduction and
    before any rank enters [wrap]. *)
Theorem reduce_axis_keyword_errors (p : process T) (u : ufunc) (meth : method)
    (inputs : list (operand dtype)) (kw : kwargs dtype) (d : nat) (res : ndarray T)
    (dt : dtype) :
  Forall (shares_axis p d) inputs → Exists is_mpi inputs →
  kw_out kw = [] → nout u = 1 → names_reduce meth = true →
  default false (kw_keepdims kw) = false →
  numpy u meth (views p inputs) (kw_axis kw) (kw_keepdims kw) [] = Ok (Some [(res, dt)]) →
  shape res ≠ [] →
  (kw_axis kw = None →
     __array_ufunc__ ufunc nout numpy p u meth inputs kw = Done (Raise KeyError)) ∧
  (∀ l, kw_axis kw = Some (AxisTuple l) →
     __array_ufunc__ ufunc nout numpy p u meth inputs kw = Done (Raise TypeError)).
Proof.
  intros Hin Hex Hout Hnout Hred Hkeep Hnumpy Hshape.
  assert (meth ≠ At) as Hmeth by (by intros ->).
  assert (∀ e, reduced_axis kw (Some (Z.of_nat d)) = Raise e →
            axis_is_dist_axis (kw_axis kw) (Some (Z.of_nat d)) = false →
            __array_ufunc__ ufunc nout numpy p u meth inputs kw = Done (Raise e)) as Hraise.
  { intros e He Hax. unfold __array_ufunc__, _mpi_to_ndarray.
    rewrite (mpi_to_ndarray_loop_shared p inputs [] d None) by (done || by right).
    cbn [app mbind result_bind]. rewrite Hax, Hout, Hnout.
    cbn [replicate mbind result_bind]. rewrite Hnumpy.
    cbn [mbind result_bind]. rewrite decide_False by done.
    cbn [zip zip_with store_out]. unfold result_axis. rewrite Hred.
    cbn [lookup list_lookup of_option mbind result_bind fst].
    destruct (shape res); [done|]. cbn [mbind result_bind]. by rewrite He. }
  split.
  - intros Hax. apply Hraise; [|by rewrite Hax].
    unfold reduced_axis. by rewrite Hkeep, Hax.
  - intros l Hax. apply Hraise; [|by rewrite Hax].
    unfold reduced_axis. by rewrite Hkeep, Hax.
Qed.

End reduce_facts.

Lemma reduce_axis_keyword_errors_witness :
  let numpy := λ (_ : ()) (_ : method) (args : list (option (ndarray Z)))
                 (_ : option axis_arg) (_ : option bool) (_ : list (option (ndarray Z))),
    match args with
    | [Some a] =>
        Ok (Some [(mk_ndarray (delete 0 (shape a))
                     (match items a with Node (x :: xs) => foldl add_items x xs | it => it end),
                   ())])
    | _ => Ok None
    end in
  let a0 := mk_ndarray [2; 2] (Node [Node [Leaf 1%Z; Leaf 2%Z]; Node [Leaf 4%Z; Leaf 5%Z]]) in
  __array_ufunc__ () (λ _, 1) numpy (mkProcess (Some (mkComm 2 0)) [a0]) () Reduce
    [OpMPI (metadata 2 [2; 3] 1 () 0 0)] (mk_kwargs None [] None)
  = Done (Raise KeyError).
Proof.
  intros numpy a0.
  destruct (reduce_axis_keyword_errors (λ _ : (), 1) numpy (mkProcess (Some (mkComm 2 0)) [a0])
              () Reduce [OpMPI (metadata 2 [2; 3] 1 () 0 0)] (mk_kwargs None [] None) 1
              (mk_ndarray [2] (Node [Leaf 5%Z; Leaf 7%Z])) ()) as [Hkey _];
    [repeat constructor; simpl; eauto|left; by eexists|reflexivity|reflexivity|reflexivity|
     reflexivity|reflexivity|discriminate|exact (Hkey eq_refl)].
Defined.

Lemma reduce_moves_distributed_axis_witness :
  let numpy := λ (_ : ()) (_ : method) (args : list (option (ndarray Z)))
                 (_ : option axis_arg) (_ : option bool) (_ : list (option (ndarray Z))),
    match args with
    | [Some a] =>
        Ok (Some [(mk_ndarray (delete 0 (shape a))
                     (match items a with Node (x :: xs) => foldl add_items x xs | it => it end),
                   ())])
    | _ => Ok None
    end in
  let a0 := mk_ndarray [2; 2] (Node [Node [Leaf 1%Z; Leaf 2%Z]; Node [Leaf 4%Z; Leaf 5%Z]]) in
  let a1 := mk_ndarray [2; 1] (Node [Node [Leaf 3%Z]; Node [Leaf 6%Z]]) in
  let ws := [(mkProcess (Some (mkComm 2 0)) [a0], [OpMPI (metadata 2 [2; 3] 1 () 0 0)]);
             (mkProcess (Some (mkComm 2 1)) [a1], [OpMPI (metadata 2 [2; 3] 1 () 1 0)])] in
  run_world 2 ((λ w, __array_ufunc__ () (λ _, 1) numpy w.1 () Reduce w.2
                       (mk_kwargs (Some (AxisInt 0%Z)) [] None)) <$> ws) =
    Some [Ok (mkProcess (Some (mkComm 2 0)) [a0; mk_ndarray [2] (Node [Leaf 5%Z; Leaf 7%Z])],
              RetOne (OpMPI (metadata 2 [3] 0 () 0 1)));
          Ok (mkProcess (Some (mkComm 2 1)) [a1; mk_ndarray [1] (Node [Leaf 9%Z])],
              RetOne (OpMPI (metadata 2 [3] 0 () 1 1)))].
Proof.
  intros numpy a0 a1 ws.
  apply (reduce_moves_distributed_axis (λ _ : (), 1) numpy () 1 0 3 2 [2; 3] ()
           [(mkProcess (Some (mkComm 2 0)) [a0], [OpMPI (metadata 2 [2; 3] 1 () 0 0)],
             mk_ndarray [2] (Node [Leaf 5%Z; Leaf 7%Z]));
            (mkProcess (Some (mkComm 2 1)) [a1], [OpMPI (metadata 2 [2; 3] 1 () 1 0)],
             mk_ndarray [1] (Node [Leaf 9%Z]))]);
    try (reflexivity || discriminate || (simpl; lia)).
  intros [|[|r]] w Hw; simpl in Hw; try discriminate; injection Hw as <-.
  - split_and!; try reflexivity.
    + repeat constructor; simpl; eauto.
    + left. by eexists.
  - split_and!; try reflexivity.
    + repeat constructor; simpl; eauto.
    + left. by eexists.
Defined.

(** ** reshape *)

Section reshape_facts.
Context {T dtype : Type}.

Lemma reshape_chunks (n k : nat) (d : list T) :
  length d = n * k → Forall (λ c, length c = k) (reshape (replicate n k) d).
Proof.
  revert d. induction n as [|n IH]; intros d Hd; [constructor|]. csimpl. constructor.
  - rewrite length_take. lia.
  - apply IH. rewrite length_drop. lia.
Qed.

(** A flat run of the right length fills a buffer of any shape, in
    order. *)
Lemma unflatten_total (s : list nat) (d : list T) :
  length d = prod_list s →
  ∃ its, unflatten s d = Some its ∧ has_shape s its ∧ flatten its = d.
Proof.
  revert d. induction s as [|n s IH]; intros d Hd.
  - destruct d as [|x [|??]]; try done. by exists (Leaf x).
  - cbn [unflatten]. change (prod_list (n :: s)) with (n * prod_list s) in Hd.
    rewrite decide_True by done.
    pose proof (reshape_chunks n (prod_list s) d Hd) as Hchunks.
    assert (mjoin (reshape (replicate n (prod_list s)) d) = d) as Hjoin
      by (apply join_reshape; rewrite sum_list_replicate; lia).
    assert (length (reshape (replicate n (prod_list s)) d) = n) as Hlen
      by (by rewrite length_reshape, length_replicate).
    revert Hchunks Hjoin Hlen. generalize (reshape (replicate n (prod_list s)) d).
    intros chunks Hchunks Hjoin Hlen.
    assert (∃ xs, Forall2 (λ c x, unflatten s c = Some x) chunks xs ∧
              Forall (has_shape s) xs ∧ flatten <$> xs = chunks) as (xs & Hm & Hxs & Hfl).
    { clear Hjoin Hlen. induction Hchunks as [|c chunks Hc Hchunks IHc].
      - exists []. by split_and!.
      - destruct (IH c Hc) as (x & Hx & Hsx & Hfx).
        destruct IHc as (xs & Hm & Hs & Hf). exists (x :: xs).
        split_and!; [by constructor|by constructor|]. csimpl. by rewrite Hfx, Hf. }
    pose proof (Forall2_length _ _ _ Hm) as Hlx.
    apply mapM_Some_2 in Hm. rewrite Hm.
    exists (Node xs). csimpl. split; [done|]. split; [split; [lia|done]|].
    by rewrite Hfl.
Qed.

Lemma find_none_at (pre : list nat) (rest : list (option nat)) :
  list_find (λ x : option nat, x = None) ((Some <$> pre) ++ None :: rest)
    = Some (length pre, None).
Proof.
  induction pre as [|x pre IH]; csimpl; [done|]. by rewrite IH.
Qed.

Lemma find_none_absent (given : list nat) :
  list_find (λ x : option nat, x = None) (Some <$> given) = None.
Proof.
  induction given as [|x given IH]; csimpl; [done|]. by rewrite IH.
Qed.

Lemma mapM_id_Some {A} (l : list A) : mapM id (Some <$> l) = Some l.
Proof. apply mapM_Some_2. induction l; csimpl; by constructor. Qed.

Lemma insert_marked (pre post : list nat) (v : nat) :
  <[length pre := Some v]> ((Some <$> pre) ++ None :: (Some <$> post))
    = Some <$> (pre ++ v :: post).
Proof.
  rewrite insert_app_r_alt by (by rewrite length_fmap).
  rewrite length_fmap, Nat.sub_diag, fmap_app. done.
Qed.

(** X12.  [reshape] on an array whose buffer has the local shape.  A
    shape without [None] raises [ValueError].  For a shape with [None]
    in one place, standing for the distributed axis: when the number of
    local elements would change, the bare [Exception] is raised; when it
    would not but the shape has no axis with the number of the old
    distributed axis, [IndexError] is raised, from [__array_finalize__];
    otherwise the result is a view of the same buffer that shows its
    elements in the same order, distributed along the axis marked
    [None], where local extent, global extent and local offset are those
    of the old distributed axis and the offset is 0 on every other
    axis. *)
Theorem reshape_view (p : process T) (self : MPIArray dtype) (local : ndarray T)
    (pre post : list nat) (n_loc n_glob off : nat) :
  local_array p self = Ok local → wf_ndarray local → shape local = _local_shape self →
  _local_shape self !! _axis self = Some n_loc →
  _global_shape self !! _axis self = Some n_glob →
  _local_offset self !! _axis self = Some off →
  let shape_ := (Some <$> pre) ++ None :: (Some <$> post) in
  let lshape := pre ++ n_loc :: post in
  (∀ given : list nat, MPIArray_reshape p self (Some <$> given) = Raise ValueError) ∧
  (prod_list lshape ≠ prod_list (_local_shape self) →
     MPIArray_reshape p self shape_ = Raise LayoutException) ∧
  (prod_list lshape = prod_list (_local_shape self) → length shape_ ≤ _axis self →
     MPIArray_reshape p self shape_ = Raise IndexError) ∧
  (prod_list lshape = prod_list (_local_shape self) → _axis self < length shape_ →
     ∃ its,
       MPIArray_reshape p self shape_ =
         Ok (View (mkMPIArray (pre ++ n_glob :: post) (length pre) lshape
                     (replicate (length pre) 0 ++ off :: replicate (length post) 0)
                     (_comm self) (_dtype self) (base self))
                  (mk_ndarray lshape its)) ∧
       has_shape lshape its ∧ flatten its = flatten (items local)).
Proof.
  intros Hlocal Hwf Hshape Hloc Hglob Hoff shape_ lshape.
  assert (length shape_ = length lshape) as Hlen
    by (unfold shape_, lshape; rewrite !length_app; simpl; by rewrite !length_fmap).
  assert (∀ X : result (@fetched T dtype),
    MPIArray_reshape p self shape_ =
      if decide (prod_list lshape ≠ prod_list (_local_shape self)) then Raise LayoutException
      else its ← of_option ValueError (unflatten lshape (flatten (items local)));
           _ ← __array_finalize__ self lshape;
           Ok (View (mkMPIArray (pre ++ n_glob :: post) (length pre) lshape
                       (replicate (length pre) 0 ++ off :: replicate (length post) 0)
                       (_comm self) (_dtype self) (base self))
                    (mk_ndarray lshape its))) as Heq.
  { intros _. unfold MPIArray_reshape. unfold shape_. rewrite find_none_at.
    cbn [fmap option_fmap option_map fst of_option mbind result_bind].
    rewrite Hloc, Hglob, Hoff. cbn [of_option mbind result_bind].
    unfold shape_. rewrite !insert_marked, !mapM_id_Some.
    cbn [of_option mbind result_bind]. fold lshape. case_decide; [done|].
    rewrite Hlocal. cbn [mbind result_bind].
    destruct (unflatten lshape (flatten (items local))); [|done].
    cbn [of_option mbind result_bind].
    destruct (__array_finalize__ self lshape); [|done]. cbn [mbind result_bind].
    do 3 f_equal. rewrite length_app, length_fmap. cbn [length].
    rewrite length_fmap, replicate_add. cbn [replicate].
    rewrite insert_app_r_alt by (by rewrite length_replicate).
    by rewrite length_replicate, Nat.sub_diag. }
  specialize (Heq (Raise ValueError)). split_and!.
  - intros given. unfold MPIArray_reshape. by rewrite find_none_absent.
  - intros Hprod. by rewrite Heq, decide_True.
  - intros Hprod Hax. rewrite Heq, decide_False by (by intros ?).
    destruct (unflatten_total lshape (flatten (items local))) as (its & -> & _).
    { rewrite (flatten_length (shape local)) by done. by rewrite Hshape. }
    cbn [of_option mbind result_bind]. unfold __array_finalize__. rewrite Hglob.
    cbn [of_option mbind result_bind].
    by rewrite (lookup_ge_None_2 lshape (_axis self)) by lia.
  - intros Hprod Hax. rewrite Heq, decide_False by (by intros ?).
    destruct (unflatten_total lshape (flatten (items local))) as (its & -> & Hits & Hfl).
    { rewrite (flatten_length (shape local)) by done. by rewrite Hshape. }
    exists its. split_and!; [|done..].
    cbn [of_option mbind result_bind]. unfold __array_finalize__. rewrite Hglob.
    cbn [of_option mbind result_bind].
    destruct (lookup_lt_is_Some_2 lshape (_axis self) ltac:(lia)) as [x ->].
    cbn [of_option mbind result_bind].
    by destruct (split_local n_glob (_comm self)) as [[? ?] ?].
Qed.

End reshape_facts.

Lemma reshape_view_witness :
  let a := mk_ndarray [2; 3] (Node [Node [Leaf 1%Z; Leaf 2%Z; Leaf 3%Z];
                                    Node [Leaf 4%Z; Leaf 5%Z; Leaf 6%Z]]) in
  let p := mkProcess (Some (mkComm 2 0)) [a] in
  MPIArray_reshape p (metadata 2 [4; 3] 0 () 0 0) [None; Some 3; Some 1]
    = Ok (View (mkMPIArray [4; 3; 1] 0 [2; 3; 1] [0; 0; 0] (Some (mkComm 2 0)) () 0)
               (mk_ndarray [2; 3; 1]
                  (Node [Node [Node [Leaf 1%Z]; Node [Leaf 2%Z]; Node [Leaf 3%Z]];
                         Node [Node [Leaf 4%Z]; Node [Leaf 5%Z]; Node [Leaf 6%Z]]]))) ∧
  MPIArray_reshape p (metadata 2 [4; 3] 0 () 0 0) [Some 2; None] = Raise LayoutException ∧
  MPIArray_reshape (mkProcess (Some (mkComm 2 0)) [mk_ndarray [1; 2] (Node [Node [Leaf 1%Z; Leaf 2%Z]])])
    (metadata 2 [1; 4] 1 () 0 0) [None] = Raise IndexError.
Proof.
  intros a p.
  destruct (reshape_view (mkProcess (Some (mkComm 2 0))
                            [mk_ndarray [1; 2] (Node [Node [Leaf 1%Z; Leaf 2%Z]])])
              (metadata 2 [1; 4] 1 () 0 0)
              (mk_ndarray [1; 2] (Node [Node [Leaf 1%Z; Leaf 2%Z]])) [] [] 2 4 0)
    as (_ & _ & Hindex & _);
    [reflexivity|repeat (constructor; simpl)|reflexivity|reflexivity|reflexivity|reflexivity|].
  destruct (reshape_view p (metadata 2 [4; 3] 0 () 0 0) a [] [3; 1] 2 4 0)
    as (_ & _ & _ & Hok);
    [reflexivity|repeat (constructor; simpl)|reflexivity|reflexivity|reflexivity|reflexivity|].
  destruct (reshape_view p (metadata 2 [4; 3] 0 () 0 0) a [2] [] 2 4 0)
    as (_ & Hbad & _);
    [reflexivity|repeat (constructor; simpl)|reflexivity|reflexivity|reflexivity|reflexivity|].
  destruct Hok as (its & Heq & _); [reflexivity|simpl; lia|].
  split; [|split; [apply Hbad; simpl; lia|apply Hindex; [reflexivity|simpl; lia]]].
  cbn [fmap list_fmap app] in Heq. rewrite Heq. vm_compute in Heq. by injection Heq as <-.
Defined.

(** ** gather *)

Section place_facts.
Context {T : Type}.
Implicit Types (a src : nested T) (s : list nat).

(** Writing [ys] at the positions [lo, lo+1, ...] of [xs]. *)
Lemma fold_alter_range {A B} (g : B → A → A) (xs : list A) (lo : nat) (ys : list B) :
  lo + length ys ≤ length xs →
  foldl (λ acc (kv : nat * B), alter (g kv.2) kv.1 acc) xs (zip (seq lo (length ys)) ys)
  = take lo xs ++ zip_with g ys (take (length ys) (drop lo xs)) ++ drop (lo + length ys) xs.
Proof.
  revert lo xs. induction ys as [|y ys IH]; intros lo xs Hlen.
  - simpl. by rewrite Nat.add_0_r, take_drop.
  - cbn [length seq zip zip_with foldl fst snd]. simpl in Hlen.
    rewrite IH by (rewrite length_alter; lia).
    destruct (lookup_lt_is_Some_2 xs lo ltac:(lia)) as [x Hx].
    rewrite (take_S_r (alter (g y) lo xs) lo (g y x))
      by (by rewrite list_lookup_alter_eq, Hx).
    rewrite take_alter, !drop_alter. rewrite !decide_False by lia.
    rewrite <-app_assoc. f_equal. cbn [app].
    rewrite (drop_S xs x lo Hx). cbn [take zip_with].
    by replace (S lo + length ys) with (lo + S (length ys)) by lia.
Qed.

Lemma zip_with_same_r {A B} (xs : list A) (ys : list B) :
  length xs = length ys → zip_with (λ (y : B) (_ : A), y) ys xs = ys.
Proof.
  revert xs. induction ys as [|y ys IH]; intros [|x xs] Hlen; simplify_eq/=; [done|].
  by rewrite IH.
Qed.

(** Writing through full slices only replaces everything. *)
Lemma assign_items_full s a src :
  has_shape s a → has_shape s src →
  assign_items (replicate (length s) (Slice full_slice)) a src = src.
Proof.
  revert a src. induction s as [|n s IH]; intros a src Ha Hsrc; [done|].
  apply has_shape_cons in Ha as (xs & -> & Hlx & Hxs).
  apply has_shape_cons in Hsrc as (ys & -> & Hly & Hys).
  cbn [length replicate assign_items children]. rewrite slice_positions_full.
  rewrite Hlx, <-Hly. rewrite (fold_alter_range (λ y x, assign_items _ x y)) by lia.
  rewrite take_0, drop_0, take_ge, drop_ge, app_nil_r by lia. cbn [app]. f_equal.
  assert (length xs = length ys) as Hlen by lia.
  clear Hlx Hly. revert xs Hxs Hlen.
  induction Hys as [|y ys Hy Hys IHys]; intros xs Hxs Hlen.
  - by destruct xs.
  - destruct xs as [|x xs]; [done|]. apply Forall_cons in Hxs as [Hx Hxs]. csimpl.
    rewrite IH by done. f_equal. apply IHys; [done|]. simpl in Hlen. lia.
Qed.

Lemma slice_positions_nat (lo hi n : nat) :
  lo ≤ hi → hi ≤ n →
  slice_positions (mk_slice (Some (Z.of_nat lo)) (Some (Z.of_nat hi)) None) n
    = Ok (seq lo (hi - lo)).
Proof.
  intros Hlo Hhi. rewrite slice_positions_range by (done || lia). do 2 f_equal; lia.
Qed.

Lemma index_shape_axis s (k n lo hi : nat) :
  s !! k = Some n → lo ≤ hi → hi ≤ n →
  index_shape s (<[k := Slice (mk_slice (Some (Z.of_nat lo)) (Some (Z.of_nat hi)) None)]>
                   (replicate (length s) (Slice full_slice)))
    = Ok (<[k := hi - lo]> s).
Proof.
  intros Hk Hlo Hhi. revert k Hk. induction s as [|m s IH]; intros k Hk; [done|].
  destruct k as [|k]; simpl in Hk.
  - injection Hk as ->. cbn [length replicate insert list_insert index_shape].
    rewrite slice_positions_nat by done. cbn [mbind result_bind].
    pose proof (index_shape_pad s [] (length s) ltac:(simpl; lia)) as Hpad.
    cbn [app index_shape] in Hpad. rewrite Hpad.
    cbn [mbind result_bind]. by rewrite length_seq.
  - cbn [length replicate insert list_insert index_shape].
    rewrite slice_positions_full. cbn [mbind result_bind]. rewrite IH by done.
    cbn [mbind result_bind]. by rewrite length_seq.
Qed.

(** Writing [src] at the range [lo:hi] of axis [k]: what was in front of
    the range, then [src], then what was behind it. *)
Lemma assign_items_axis s (k n lo hi : nat) a src :
  has_shape s a → s !! k = Some n → lo ≤ hi → hi ≤ n →
  has_shape (<[k := hi - lo]> s) src →
  assign_items (<[k := Slice (mk_slice (Some (Z.of_nat lo)) (Some (Z.of_nat hi)) None)]>
                  (replicate (length s) (Slice full_slice))) a src
  = cat2 k (cat2 k (slice_items k 0 lo a) src) (slice_items k hi n a).
Proof.
  intros Ha Hk Hlo Hhi Hsrc. revert k a src Ha Hk Hsrc.
  induction s as [|m s IH]; intros k a src Ha Hk Hsrc; [done|].
  apply has_shape_cons in Ha as (xs & -> & Hlx & Hxs).
  destruct k as [|k]; simpl in Hk.
  - injection Hk as ->. cbn [insert list_insert] in Hsrc.
    apply has_shape_cons in Hsrc as (ys & -> & Hly & Hys).
    cbn [length replicate insert list_insert assign_items children slice_items cat2].
    rewrite Hlx, slice_positions_nat by done. rewrite <-Hly.
    rewrite (fold_alter_range (λ y x, assign_items _ x y)) by lia.
    rewrite drop_0, Nat.sub_0_r. f_equal. rewrite <-app_assoc. f_equal.
    replace (lo + length ys) with hi by lia. f_equal; [|by rewrite take_ge by (rewrite length_drop; lia)].
    assert (Forall (has_shape s) (take (length ys) (drop lo xs))) as Hsub
      by (by apply Forall_take, Forall_drop).
    assert (length (take (length ys) (drop lo xs)) = length ys) as Hlen
      by (rewrite length_take, length_drop; lia).
    revert Hsub Hlen. generalize (take (length ys) (drop lo xs)). clear Hly.
    induction Hys as [|y ys Hy Hys IHys]; intros zs Hzs Hlen; [by destruct zs|].
    destruct zs as [|z zs]; [done|]. apply Forall_cons in Hzs as [Hz Hzs]. csimpl.
    rewrite assign_items_full by done. f_equal. apply IHys; [done|]. simpl in Hlen. lia.
  - cbn [insert list_insert] in Hsrc.
    apply has_shape_cons in Hsrc as (ys & -> & Hly & Hys).
    cbn [length replicate insert list_insert assign_items children slice_items cat2].
    rewrite slice_positions_full. rewrite Hlx, <-Hly.
    rewrite (fold_alter_range (λ y x, assign_items _ x y)) by lia.
    rewrite take_0, drop_0, take_ge, drop_ge, app_nil_r by lia. cbn [app]. f_equal.
    assert (length xs = length ys) as Hlen by lia. clear Hlx Hly.
    revert xs Hxs Hlen. induction Hys as [|y ys Hy Hys IHys]; intros xs Hxs Hlen.
    + by destruct xs.
    + destruct xs as [|x xs]; [done|]. apply Forall_cons in Hxs as [Hx Hxs]. csimpl.
      rewrite IH by done. f_equal. apply IHys; [done|]. simpl in Hlen. lia.
Qed.

(** [arr[..., lo:hi, ...] = tbuf] for a buffer of the shape of the
    range. *)
Lemma np_setitem_axis (arr tbuf : ndarray T) (k n lo hi : nat) :
  wf_ndarray arr → wf_ndarray tbuf → shape arr !! k = Some n → lo ≤ hi → hi ≤ n →
  shape tbuf = <[k := hi - lo]> (shape arr) →
  np_setitem arr
    (<[k := Slice (mk_slice (Some (Z.of_nat lo)) (Some (Z.of_nat hi)) None)]>
       (replicate (length (shape arr)) (Slice full_slice))) tbuf
  = Ok (mk_ndarray (shape arr)
          (cat2 k (cat2 k (slice_items k 0 lo (items arr)) (items tbuf))
                  (slice_items k hi n (items arr)))).
Proof.
  intros Ha Ht Hk Hlo Hhi Hsh. unfold np_setitem.
  rewrite (index_shape_axis _ k n) by done. cbn [mbind result_bind].
  rewrite Hsh, broadcastable_same. f_equal. f_equal.
  unfold wf_ndarray in Ht. rewrite Hsh in Ht. rewrite broadcast_items_same by done.
  by apply assign_items_axis.
Qed.

End place_facts.

Section gather_facts.
Context {T dtype : Type}.
Variable uninit : T.

Lemma slice_items_range_shape (gs : list nat) (ax n lo hi : nat) (G : nested T) :
  has_shape gs G → gs !! ax = Some n → lo ≤ hi → hi ≤ n →
  has_shape (<[ax := hi - lo]> gs) (slice_items ax lo hi G).
Proof.
  intros HG Hax Hlo Hhi.
  pose proof (slice_items_shape gs ax lo hi G HG) as H.
  rewrite (list_alter_lookup _ _ _ _ Hax) in H.
  by replace ((hi - lo) `min` (n - lo)) with (hi - lo) in H by lia.
Qed.

(** An empty range of an axis leaves nothing of the contents. *)
Lemma slice_items_none (gs : list nat) (ax : nat) (a b : nested T) :
  ax < length gs → has_shape gs a → has_shape gs b →
  slice_items ax 0 0 a = slice_items ax 0 0 b.
Proof.
  revert ax a b. induction gs as [|m s IH]; intros ax a b Hax Ha Hb; simpl in Hax; [lia|].
  apply has_shape_cons in Ha as (xs & -> & Hlx & Hxs).
  apply has_shape_cons in Hb as (ys & -> & Hly & Hys).
  destruct ax as [|ax]; [done|]. cbn [slice_items]. f_equal.
  assert (length xs = length ys) as Hlen by lia. clear Hlx Hly.
  revert ys Hys Hlen. induction Hxs as [|x xs Hx Hxs IHxs]; intros [|y ys] Hys Hlen;
    simplify_eq/=; [done|].
  apply Forall_cons in Hys as [Hy Hys]. f_equal; [apply IH; [lia|done..]|by apply IHxs].
Qed.

(** The splits [gather] loops over: rank, extent, start and end. *)
Lemma gather_splits (n sz : nat) :
  imap (λ ri x, (ri, x))
    (zip (zip (extent n sz <$> seq 0 sz) (offset_of n sz <$> seq 0 sz))
         ((λ r, offset_of n sz (S r)) <$> seq 0 sz))
  = (λ r, (r, (extent n sz r, offset_of n sz r, offset_of n sz (S r)))) <$> seq 0 sz.
Proof.
  rewrite !zip_fmap_diag. apply list_eq. intros i.
  rewrite list_lookup_imap, !list_lookup_fmap.
  destruct (seq 0 sz !! i) as [r|] eqn:Hr; [|done].
  apply lookup_seq in Hr as [-> _]. done.
Qed.

(** What the receiving rank takes from rank [r] when every rank has sent
    its section of [G]. *)
Lemma receive_section (G : nested T) (gs : list nat) (ax sz root r : nat)
    (net : list (list (message T))) :
  has_shape gs G → ax < length gs → r < sz →
  net !! r = Some [mkMessage root 0 (flatten (section_of G sz gs ax r))] →
  receive net root (mkRequest r 0 (<[ax := extent (default 0 (gs !! ax)) sz r]> gs))
  = Ok (mk_ndarray (<[ax := extent (default 0 (gs !! ax)) sz r]> gs)
          (section_of G sz gs ax r)).
Proof.
  intros HG Hax Hr Hnet. unfold receive, deliver. cbn [source rtag buffer_shape].
  rewrite Hnet. cbn [mbind option_bind]. rewrite filter_cons_True by done.
  cbn [head fmap option_fmap option_map payload of_option mbind result_bind].
  rewrite unflatten_flatten by (by apply section_of_shape). done.
Qed.

(** Putting rank [a]'s section of [G] at its range of [X], which holds
    [G] in front of that range: [X] then holds [G] up to the end of the
    range. *)
Lemma place_section (G X : nested T) (gs : list nat) (ax n sz a : nat) :
  has_shape gs G → gs !! ax = Some n → 0 < sz → a < sz →
  has_shape gs X →
  slice_items ax 0 (offset_of n sz a) X = slice_items ax 0 (offset_of n sz a) G →
  let X' := cat2 ax (cat2 ax (slice_items ax 0 (offset_of n sz a) X)
                             (section_of G sz gs ax a))
                    (slice_items ax (offset_of n sz (S a)) n X) in
  has_shape gs X' ∧
  slice_items ax 0 (offset_of n sz (S a)) X' = slice_items ax 0 (offset_of n sz (S a)) G.
Proof.
  intros HG Hn Hsz Ha HX Hpre.
  assert (ax < length gs) as Hlt by (by eapply lookup_lt_Some).
  pose proof (offset_of_S n sz a) as HS.
  pose proof (offset_of_le n sz (S a) Hsz ltac:(lia)) as Hle.
  pose proof (section_of_shape G gs ax sz a HG Hlt Ha) as Hsec.
  rewrite Hn in Hsec. cbn [default from_option id] in Hsec.
  set (lo := offset_of n sz a) in *. set (hi := offset_of n sz (S a)) in *.
  assert (has_shape (<[ax := lo]> gs) (slice_items ax 0 lo X)) as HA.
  { pose proof (slice_items_range_shape gs ax n 0 lo X HX Hn ltac:(lia) ltac:(lia)) as H.
    by rewrite Nat.sub_0_r in H. }
  assert (has_shape (<[ax := n - hi]> gs) (slice_items ax hi n X)) as HB
    by (apply (slice_items_range_shape gs ax n); [done|done|lia|lia]).
  assert (has_shape (<[ax := hi]> gs)
            (cat2 ax (slice_items ax 0 lo X) (section_of G sz gs ax a))) as HAS.
  { replace hi with (lo + extent n sz a) by lia. by apply cat2_shape. }
  split.
  - rewrite <-(list_insert_id gs ax n Hn) at 1.
    replace n with (hi + (n - hi)) at 1 by lia. by apply cat2_shape.
  - rewrite (slice_items_cat2_l gs ax hi (n - hi)) by done.
    rewrite Hpre. unfold section_of. rewrite Hn. cbn [default from_option id]. fold lo hi.
    rewrite slice_items_tile by lia.
    pose proof (slice_items_range_shape gs ax n 0 hi G HG Hn ltac:(lia) ltac:(lia)) as H.
    rewrite Nat.sub_0_r in H.
    eapply (slice_items_full (<[ax := hi]> gs) ax hi); [done| |done].
    by rewrite list_lookup_insert_eq.
Qed.

(** [arr[..., s:e, ...] = tbuf] for the section of rank [a]. *)
Lemma np_setitem_section (G X : nested T) (gs : list nat) (ax n sz a : nat) :
  has_shape gs G → gs !! ax = Some n → 0 < sz → a < sz → has_shape gs X →
  np_setitem (mk_ndarray gs X)
    (<[ax := Slice (mk_slice (Some (Z.of_nat (offset_of n sz a)))
                             (Some (Z.of_nat (offset_of n sz (S a)))) None)]>
       (replicate (length gs) (Slice full_slice)))
    (mk_ndarray (<[ax := extent n sz a]> gs) (section_of G sz gs ax a))
  = Ok (mk_ndarray gs
          (cat2 ax (cat2 ax (slice_items ax 0 (offset_of n sz a) X)
                            (section_of G sz gs ax a))
                   (slice_items ax (offset_of n sz (S a)) n X))).
Proof.
  intros HG Hn Hsz Ha HX.
  assert (ax < length gs) as Hlt by (by eapply lookup_lt_Some).
  pose proof (offset_of_S n sz a) as HS.
  pose proof (offset_of_le n sz (S a) Hsz ltac:(lia)) as Hle.
  pose proof (section_of_shape G gs ax sz a HG Hlt Ha) as Hsec.
  rewrite Hn in Hsec. cbn [default from_option id] in Hsec.
  rewrite (np_setitem_axis (mk_ndarray gs X) _ ax n (offset_of n sz a) (offset_of n sz (S a)));
    [done|done|done|done|lia|done|].
  cbn [shape]. f_equal. lia.
Qed.

(** The loop of [gather] on the receiving rank, from rank [a] on: the
    part of [arr] in front of rank [a]'s range already holds [G]; after
    the loop all of it does. *)
Lemma gather_place_fills (G X : nested T) (gs : list nat) (ax n sz root : nat)
    (self : MPIArray dtype) (net : list (list (message T))) (m a : nat) :
  has_shape gs G → gs !! ax = Some n → 0 < sz →
  _axis self = ax → _global_shape self = gs →
  (∀ r, r < sz → net !! r = Some [mkMessage root 0 (flatten (section_of G sz gs ax r))]) →
  a + m = sz →
  has_shape gs X →
  slice_items ax 0 (offset_of n sz a) X = slice_items ax 0 (offset_of n sz a) G →
  gather_place net root self (length gs) (mk_ndarray gs X)
    ((λ r, (r, (extent n sz r, offset_of n sz r, offset_of n sz (S r)))) <$> seq a m)
  = Ok (mk_ndarray gs G).
Proof.
  intros HG Hn Hsz Hax Hgs Hnet.
  assert (ax < length gs) as Hlt by (by eapply lookup_lt_Some).
  revert a X. induction m as [|m IH]; intros a X Ham HX Hpre.
  - cbn [seq fmap list_fmap gather_place]. do 2 f_equal.
    rewrite Nat.add_0_r in Ham. subst a. rewrite offset_of_total in Hpre by done.
    by rewrite !(slice_items_full gs ax n n) in Hpre by done.
  - cbn [seq fmap list_fmap gather_place]. rewrite Hax, Hgs.
    pose proof (receive_section G gs ax sz root a net HG Hlt ltac:(lia)
                  (Hnet a ltac:(lia))) as Hrecv.
    rewrite Hn in Hrecv. cbn [default from_option id] in Hrecv. rewrite Hrecv.
    cbn [mbind result_bind].
    rewrite (np_setitem_section G X gs ax n sz a) by (done || lia).
    cbn [mbind result_bind].
    destruct (place_section G X gs ax n sz a HG Hn Hsz ltac:(lia) HX Hpre) as [HX' Hpre'].
    by apply IH; [lia|..].
Qed.

Lemma gather_sends (G : nested T) (sz ax root r : nat) (gs : list nat) (dt : dtype)
    (ps : list (process T)) (As : list (MPIArray dtype)) (p : process T)
    (A : MPIArray dtype) :
  sections_of G sz gs ax dt ps As → ps !! r = Some p → As !! r = Some A →
  at_exchange (gather uninit (mkComm sz r) p A root) = true ∧
  sends_of (gather uninit (mkComm sz r) p A root)
    = [mkMessage root 0 (flatten (section_of G sz gs ax r))].
Proof.
  intros (_ & _ & Hax & Hsec) Hp HA. destruct (Hsec r p A Hp HA) as [Hmeta Hmem].
  destruct (lookup_lt_is_Some_2 gs ax Hax) as [n Hn].
  assert (_global_shape A !! _axis A = Some n) as HnA by (by rewrite Hmeta).
  unfold gather, local_array. rewrite Hmem, HnA. cbn [of_option].
  rewrite split_all_eq. split; reflexivity.
Qed.

Lemma gather_resume (G : nested T) (sz ax root r : nat) (gs : list nat) (dt : dtype)
    (ps : list (process T)) (As : list (MPIArray dtype)) (p : process T)
    (A : MPIArray dtype) (net : list (list (message T))) :
  sections_of G sz gs ax dt ps As → has_shape gs G → 0 < sz →
  ps !! r = Some p → As !! r = Some A →
  (∀ r', r' < sz →
     net !! r' = Some [mkMessage root 0 (flatten (section_of G sz gs ax r'))]) →
  resume_exchange net (gather uninit (mkComm sz r) p A root)
    = Done (Ok (if decide (r = root) then Some (mk_ndarray gs G) else None)).
Proof.
  intros (_ & _ & Hax & Hsec) HG Hsz Hp HA Hnet.
  destruct (Hsec r p A Hp HA) as [Hmeta Hmem].
  destruct (lookup_lt_is_Some_2 gs ax Hax) as [n Hn].
  assert (_axis A = ax ∧ _global_shape A = gs ∧ length (_local_shape A) = length gs)
    as (HaxA & HgsA & HlsA).
  { rewrite Hmeta. cbn [metadata _global_shape _axis _local_shape].
    by rewrite length_insert. }
  unfold gather, local_array. rewrite Hmem. rewrite HgsA, HaxA, Hn. cbn [of_option].
  rewrite split_all_eq. cbn [size rank resume_exchange shape].
  destruct (decide (r = root)) as [->|Hne]; [|done].
  rewrite gather_splits, HlsA. f_equal.
  rewrite (gather_place_fills G _ gs ax n sz root A net sz 0); try done.
  - apply full_shape.
  - rewrite offset_of_0. apply (slice_items_none gs); [done|apply full_shape|done].
Qed.

(** X13.  Every rank of a distributed array calls [gather] with the same
    destination rank, a rank of the communicator.  All of them return:
    the destination rank gets the logical global array, of the global
    shape and with the local sections in rank order along the
    distributed axis; every other rank gets [None]. *)
Theorem gather_collects (sz ax root fuel : nat) (gs : list nat) (dt : dtype)
    (ps : list (process T)) (As : list (MPIArray dtype)) :
  0 < sz → root < sz → 1 ≤ fuel → distributed sz gs ax dt ps As →
  ∃ G,
    global_array ps As = Ok G ∧
    run_world fuel (imap (λ r w, gather uninit (mkComm sz r) w.1 w.2 root) (zip ps As))
      = Some ((λ r, Ok (if decide (r = root) then Some G else None)) <$> seq 0 sz).
Proof.
  intros Hsz Hroot Hfuel Hdist.
  destruct (distributed_sections uninit sz ax gs dt ps As Hdist Hsz) as (G & HG & Hsec).
  pose proof (sections_global_array G sz ax gs dt ps As Hsec HG Hsz) as Hglob.
  exists (mk_ndarray gs G). split; [done|].
  pose proof Hsec as (Hlp & HlA & _).
  set (progs := imap _ _).
  assert (length progs = sz) as Hlen
    by (unfold progs; rewrite length_imap, length_zip; lia).
  assert (∀ r c, progs !! r = Some c →
            ∃ p A, ps !! r = Some p ∧ As !! r = Some A ∧
                   c = gather uninit (mkComm sz r) p A root) as Hprog.
  { intros r c Hc. unfold progs in Hc. rewrite list_lookup_imap in Hc.
    destruct (zip ps As !! r) as [[p A]|] eqn:Hz; [|done]. injection Hc as <-.
    apply lookup_zip_with_Some in Hz as (p' & A' & [= <- <-] & Hp & HA). eauto. }
  destruct fuel as [|fuel]; [lia|].
  rewrite run_world_exchange.
  - assert (resume_exchange (sends_of <$> progs) <$> progs
            = (λ o, Done (Ok o)) <$> ((λ r, if decide (r = root)
                                            then Some (mk_ndarray gs G) else None)
                                      <$> seq 0 sz)) as ->.
    { apply list_eq. intros r. rewrite !list_lookup_fmap.
      destruct (progs !! r) as [c|] eqn:Hc.
      - pose proof (lookup_lt_Some _ _ _ Hc) as Hr. rewrite Hlen in Hr.
        rewrite lookup_seq_lt by done. cbn [fmap option_fmap option_map Nat.add].
        destruct (Hprog r c Hc) as (p & A & Hp & HA & ->). f_equal.
        apply (gather_resume G sz ax root r gs dt ps As); try done.
        intros r' Hr'. rewrite list_lookup_fmap.
        destruct (lookup_lt_is_Some_2 progs r' ltac:(lia)) as [c' Hc'].
        rewrite Hc'. destruct (Hprog r' c' Hc') as (p' & A' & Hp' & HA' & ->).
        cbn [fmap option_fmap option_map]. f_equal.
        by apply (gather_sends G sz ax root r' gs dt ps As).
      - apply lookup_ge_None in Hc. rewrite Hlen in Hc.
        by rewrite lookup_seq_ge by done. }
    rewrite run_world_returned. by rewrite <-list_fmap_compose.
  - intros ->. simpl in Hlen. lia.
  - apply Forall_lookup. intros r c Hc.
    destruct (Hprog r c Hc) as (p & A & Hp & HA & ->).
    by apply (gather_sends G sz ax root r gs dt ps As).
Qed.

End gather_facts.

Lemma gather_collects_witness :
  let a0 := mk_ndarray [2; 2] (Node [Node [Leaf 1%Z; Leaf 2%Z]; Node [Leaf 3%Z; Leaf 4%Z]]) in
  let a1 := mk_ndarray [1; 2] (Node [Node [Leaf 5%Z; Leaf 6%Z]]) in
  let ps := [mkProcess (Some (mkComm 2 0)) [a0]; mkProcess (Some (mkComm 2 1)) [a1]] in
  let As := [metadata 2 [3; 2] 0 () 0 0; metadata 2 [3; 2] 0 () 1 0] in
  run_world 1 (imap (λ r w, gather 0%Z (mkComm 2 r) w.1 w.2 1) (zip ps As)) =
    Some [Ok None;
          Ok (Some (mk_ndarray [3; 2]
                      (Node [Node [Leaf 1%Z; Leaf 2%Z]; Node [Leaf 3%Z; Leaf 4%Z];
                             Node [Leaf 5%Z; Leaf 6%Z]])))].
Proof.
  intros a0 a1 ps As.
  destruct (gather_collects 0%Z 2 0 1 1 [3; 2] () ps As) as (G & Hglob & Hrun).
  - lia.
  - lia.
  - lia.
  - split_and!; [reflexivity|reflexivity|simpl; lia|].
    intros [|[|r]] p A Hp HA; simpl in Hp, HA; try discriminate;
      injection Hp as <-; injection HA as <-; (split; [reflexivity|]);
      eexists; (split; [reflexivity|]); (split; [reflexivity|]); repeat (constructor; simpl).
  - vm_compute in Hglob. injection Hglob as <-. exact Hrun.
Defined.

(** ** allgather *)

Section allgather_facts.
Context {T dtype : Type}.
Variable uninit : T.

(** [tbuf[:] = value] for a value of the shape of [tbuf]. *)
Lemma np_setitem_all (tbuf value : ndarray T) :
  wf_ndarray tbuf → wf_ndarray value → shape value = shape tbuf → shape tbuf ≠ [] →
  np_setitem tbuf [Slice full_slice] value = Ok (mk_ndarray (shape tbuf) (items value)).
Proof.
  intros Ht Hv Hsh Hne. unfold np_setitem. unfold wf_ndarray in *.
  destruct (shape tbuf) as [|n s] eqn:Hs; [done|]. cbn [index_shape].
  rewrite slice_positions_full. cbn [mbind result_bind]. rewrite length_seq.
  rewrite Hsh, broadcastable_same. do 2 f_equal.
  rewrite Hsh in Hv. rewrite broadcast_items_same by done.
  apply has_shape_cons in Ht as (xs & -> & Hlx & Hxs).
  apply has_shape_cons in Hv as (ys & -> & Hly & Hys).
  cbn [assign_items children]. rewrite slice_positions_full.
  rewrite Hlx, <-Hly. rewrite (fold_alter_range (λ y _, y)) by lia.
  rewrite take_0, drop_0, take_ge, drop_ge, app_nil_r by lia. cbn [app assign_items].
  f_equal. apply zip_with_same_r. lia.
Qed.

(** The message for rank [r] among those a root sends to every rank. *)
Lemma deliver_bcast (net : list (list (message T))) (root r sz : nat) (pl : list T)
    (s : list nat) :
  r < sz →
  net !! root = Some ((λ d, mkMessage d 0 pl) <$> seq 0 sz) →
  deliver net r (mkRequest root 0 s) = Some pl.
Proof.
  intros Hr Hnet. unfold deliver. cbn [source rtag]. rewrite Hnet. cbn [mbind option_bind].
  assert (∀ b k, b ≤ r < b + k →
            head (filter (λ m : message T, dest m = r ∧ tag m = 0)
                    ((λ d, mkMessage d 0 pl) <$> seq b k)) = Some (mkMessage r 0 pl)) as H.
  { intros b k. revert b. induction k as [|k IH]; intros b Hb; [lia|].
    cbn [seq fmap list_fmap]. destruct (decide (b = r)) as [->|Hne].
    - by rewrite filter_cons_True by done.
    - rewrite filter_cons_False by (cbn [dest]; intros [? _]; done).
      apply IH. lia. }
  rewrite H by lia. done.
Qed.

(** One turn of the loop of [allgather] on rank [r], in the turn of rank
    [a]: what the rank sends, and where it is once the section of [a]
    has gone round. *)
Lemma allgather_loop_turn (G X : nested T) (gs : list nat) (ax n sz r a m : nat)
    (A : MPIArray dtype) (local : ndarray T) :
  has_shape gs G → gs !! ax = Some n → 0 < sz → r < sz → a < sz →
  _axis A = ax → _global_shape A = gs →
  shape local = <[ax := extent n sz r]> gs → items local = section_of G sz gs ax r →
  has_shape gs X →
  let splits := λ a m, (λ r, (r, (extent n sz r, offset_of n sz r, offset_of n sz (S r))))
                         <$> seq a m in
  let sent := (λ d, mkMessage d 0 (flatten (section_of G sz gs ax a))) <$> seq 0 sz in
  let prog := allgather_loop uninit (mkComm sz r) A local (mk_ndarray gs X)
                (splits a (S m)) in
  at_exchange prog = true ∧
  sends_of prog = (if decide (r = a) then sent else []) ∧
  ∀ net, net !! a = Some sent →
    resume_exchange net prog
    = allgather_loop uninit (mkComm sz r) A local
        (mk_ndarray gs
           (cat2 ax (cat2 ax (slice_items ax 0 (offset_of n sz a) X)
                             (section_of G sz gs ax a))
                    (slice_items ax (offset_of n sz (S a)) n X)))
        (splits (S a) m).
Proof.
  intros HG Hn Hsz Hr Ha Hax Hgs Hlsh Hlit HX splits sent prog.
  assert (ax < length gs) as Hlt by (by eapply lookup_lt_Some).
  pose proof (section_of_shape G gs ax sz a HG Hlt Ha) as Hsec.
  rewrite Hn in Hsec. cbn [default from_option id] in Hsec.
  assert (∀ net, net !! a = Some sent →
              match (tbuf ← receive net r (mkRequest a 0 (<[ax := extent n sz a]> gs));
                     np_setitem (mk_ndarray gs X)
                       (<[ax := Slice (mk_slice (Some (Z.of_nat (offset_of n sz a)))
                                         (Some (Z.of_nat (offset_of n sz (S a)))) None)]>
                          (replicate (length (shape local)) (Slice full_slice))) tbuf) with
              | Raise e => Done (Raise e)
              | Ok arr' => allgather_loop uninit (mkComm sz r) A local arr' (splits (S a) m)
              end
              = allgather_loop uninit (mkComm sz r) A local
                  (mk_ndarray gs
                     (cat2 ax (cat2 ax (slice_items ax 0 (offset_of n sz a) X)
                                       (section_of G sz gs ax a))
                              (slice_items ax (offset_of n sz (S a)) n X)))
                  (splits (S a) m)) as Hturn.
  { intros net Hnet. unfold receive.
    rewrite (deliver_bcast net a r sz _ _ Hr Hnet). cbn [of_option mbind result_bind buffer_shape].
    rewrite unflatten_flatten by done. cbn [of_option mbind result_bind].
    rewrite Hlsh, length_insert.
    by rewrite (np_setitem_section G X gs ax n sz a) by done. }
  unfold prog, splits. cbn [seq fmap list_fmap allgather_loop].
  rewrite Hax, Hgs. cbn [rank size].
  destruct (decide (r = a)) as [->|Hne].
  - rewrite np_setitem_all.
    + cbn [shape items at_exchange sends_of resume_exchange]. rewrite Hlit.
      split_and!; [done|done|]. intros net Hnet. by apply Hturn.
    + apply full_shape.
    + unfold wf_ndarray. by rewrite Hlsh, Hlit.
    + done.
    + cbn [shape]. destruct gs; simpl in Hlt; [lia|]. by destruct ax.
  - cbn [at_exchange sends_of resume_exchange]. split_and!; [done|done|].
    intros net Hnet. by apply Hturn.
Qed.

(** The turns of the loop from rank [a] on, run by all ranks together:
    every rank holds the same [X], which is [G] in front of rank [a]'s
    range, and ends with [G]. *)
Lemma allgather_rounds (G : nested T) (sz ax n : nat) (gs : list nat) (dt : dtype)
    (ps : list (process T)) (As : list (MPIArray dtype)) (m a fuel : nat) (X : nested T) :
  sections_of G sz gs ax dt ps As → has_shape gs G → 0 < sz → gs !! ax = Some n →
  a + m = sz → m ≤ fuel → has_shape gs X →
  slice_items ax 0 (offset_of n sz a) X = slice_items ax 0 (offset_of n sz a) G →
  run_world fuel
    (imap (λ r (w : process T * MPIArray dtype),
             allgather_loop uninit (mkComm sz r) w.2
               (mk_ndarray (_local_shape w.2) (section_of G sz gs ax r))
               (mk_ndarray gs X)
               ((λ r, (r, (extent n sz r, offset_of n sz r, offset_of n sz (S r))))
                  <$> seq a m))
          (zip ps As))
  = Some (replicate sz (Ok (mk_ndarray gs G))).
Proof.
  intros (Hlp & HlA & Hax & Hsec) HG Hsz Hn.
  assert (length (zip ps As) = sz) as Hlz by (rewrite length_zip; lia).
  assert (∀ r w, zip ps As !! r = Some w →
            r < sz ∧ _axis w.2 = ax ∧ _global_shape w.2 = gs ∧
            _local_shape w.2 = <[ax := extent n sz r]> gs) as Hw.
  { intros r [p A] Hz. pose proof (lookup_lt_Some _ _ _ Hz) as Hr. rewrite Hlz in Hr.
    apply lookup_zip_with_Some in Hz as (p' & A' & [= <- <-] & Hp & HA).
    destruct (Hsec r p A Hp HA) as [Hmeta _]. cbn [snd]. rewrite Hmeta.
    cbn [metadata _axis _global_shape _local_shape]. rewrite Hn. done. }
  revert a fuel X. induction m as [|m IH]; intros a fuel X Ham Hfuel HX Hpre.
  - cbn [seq fmap list_fmap allgather_loop].
    rewrite run_world_done.
    + apply (f_equal Some). apply list_eq. intros r.
      rewrite list_lookup_fmap, list_lookup_imap.
      destruct (zip ps As !! r) as [w|] eqn:Hz.
      * pose proof (lookup_lt_Some _ _ _ Hz) as Hr. rewrite Hlz in Hr.
        rewrite lookup_replicate_2 by done. cbn [fmap option_fmap option_map settle].
        do 3 f_equal. rewrite Nat.add_0_r in Ham. subst a.
        rewrite offset_of_total in Hpre by done.
        by rewrite !(slice_items_full gs ax n n) in Hpre by done.
      * apply lookup_ge_None in Hz. rewrite Hlz in Hz.
        symmetry. cbn. apply lookup_ge_None. by rewrite length_replicate.
    + apply Forall_lookup. intros r c Hc. rewrite list_lookup_imap in Hc.
      destruct (zip ps As !! r); [|done]. by injection Hc as <-.
  - destruct fuel as [|fuel]; [lia|].
    set (progs := imap _ _).
    assert (∀ r c, progs !! r = Some c →
              ∃ w, zip ps As !! r = Some w ∧
                   c = allgather_loop uninit (mkComm sz r) w.2
                         (mk_ndarray (_local_shape w.2) (section_of G sz gs ax r))
                         (mk_ndarray gs X)
                         ((λ r, (r, (extent n sz r, offset_of n sz r, offset_of n sz (S r))))
                            <$> seq a (S m))) as Hprog.
    { intros r c Hc. unfold progs in Hc. rewrite list_lookup_imap in Hc.
      destruct (zip ps As !! r) as [w|]; [|done]. injection Hc as <-. eauto. }
    assert (a < sz) as Ha by lia.
    pose proof (λ r w (Hz : zip ps As !! r = Some w),
                  match Hw r w Hz with
                  | conj Hr (conj HaxA (conj HgsA HlsA)) =>
                      allgather_loop_turn G X gs ax n sz r a m w.2
                        (mk_ndarray (_local_shape w.2) (section_of G sz gs ax r))
                        HG Hn Hsz Hr Ha HaxA HgsA HlsA eq_refl HX
                  end) as Hturn.
    cbv zeta in Hturn.
    rewrite run_world_exchange.
    + assert ((sends_of <$> progs) !! a
              = Some ((λ d, mkMessage d 0 (flatten (section_of G sz gs ax a))) <$> seq 0 sz))
        as Hnet.
      { rewrite list_lookup_fmap.
        destruct (lookup_lt_is_Some_2 progs a) as [c Hc];
          [unfold progs; rewrite length_imap; lia|].
        rewrite Hc. destruct (Hprog a c Hc) as (w & Hz & ->).
        destruct (Hturn a w Hz) as (_ & Hsends & _). cbn [fmap option_fmap option_map].
        rewrite Hsends. by rewrite decide_True by done. }
      destruct (place_section G X gs ax n sz a HG Hn Hsz ltac:(lia) HX Hpre) as [HX' Hpre'].
      rewrite <-(IH (S a) fuel _ ltac:(lia) ltac:(lia) HX' Hpre'). f_equal.
      apply list_eq. intros r. rewrite list_lookup_fmap, list_lookup_imap.
      destruct (progs !! r) as [c|] eqn:Hc.
      * destruct (Hprog r c Hc) as (w & Hz & ->). rewrite Hz.
        cbn [fmap option_fmap option_map]. f_equal.
        destruct (Hturn r w Hz) as (_ & _ & Hres). by apply Hres.
      * unfold progs in Hc. rewrite list_lookup_imap in Hc.
        by destruct (zip ps As !! r).
    + intros Hnil. apply (f_equal length) in Hnil. unfold progs in Hnil.
      rewrite length_imap in Hnil. simpl in Hnil. lia.
    + apply Forall_lookup. intros r c Hc. destruct (Hprog r c Hc) as (w & Hz & ->).
      by destruct (Hturn r w Hz) as (Hex & _).
Qed.

(** X14.  Every rank of a distributed array calls [allgather].  All of
    them return the logical global array: the array of the global shape
    with the local sections in rank order along the distributed axis. *)
Theorem allgather_collects (sz ax fuel : nat) (gs : list nat) (dt : dtype)
    (ps : list (process T)) (As : list (MPIArray dtype)) :
  0 < sz → sz ≤ fuel → distributed sz gs ax dt ps As →
  ∃ G,
    global_array ps As = Ok G ∧
    run_world fuel (imap (λ r w, allgather uninit (mkComm sz r) w.1 w.2) (zip ps As))
      = Some (replicate sz (Ok G)).
Proof.
  intros Hsz Hfuel Hdist.
  destruct (distributed_sections uninit sz ax gs dt ps As Hdist Hsz) as (G & HG & Hsec).
  pose proof (sections_global_array G sz ax gs dt ps As Hsec HG Hsz) as Hglob.
  exists (mk_ndarray gs G). split; [done|].
  pose proof Hsec as (Hlp & HlA & Hax & Hsec').
  destruct (lookup_lt_is_Some_2 gs ax Hax) as [n Hn].
  rewrite <-(allgather_rounds G sz ax n gs dt ps As sz 0 fuel (full gs uninit));
    [|done|done|done|done|lia|done|apply full_shape|].
  - f_equal. apply imap_ext. intros r [p A] Hz.
    apply lookup_zip_with_Some in Hz as (p' & A' & [= <- <-] & Hp & HA).
    destruct (Hsec' r p A Hp HA) as [Hmeta Hmem]. cbn [fst snd].
    assert (_global_shape A = gs ∧ _axis A = ax) as [HgsA HaxA] by (by rewrite Hmeta).
    unfold allgather, local_array. rewrite Hmem, HgsA, HaxA, Hn. cbn [of_option].
    rewrite split_all_eq. cbn [size]. by rewrite gather_splits.
  - rewrite offset_of_0. apply (slice_items_none gs); [done|apply full_shape|done].
Qed.

End allgather_facts.

Lemma allgather_collects_witness :
  let a0 := mk_ndarray [2; 2] (Node [Node [Leaf 1%Z; Leaf 2%Z]; Node [Leaf 3%Z; Leaf 4%Z]]) in
  let a1 := mk_ndarray [1; 2] (Node [Node [Leaf 5%Z; Leaf 6%Z]]) in
  let ps := [mkProcess (Some (mkComm 2 0)) [a0]; mkProcess (Some (mkComm 2 1)) [a1]] in
  let As := [metadata 2 [3; 2] 0 () 0 0; metadata 2 [3; 2] 0 () 1 0] in
  let G := mk_ndarray [3; 2]
             (Node [Node [Leaf 1%Z; Leaf 2%Z]; Node [Leaf 3%Z; Leaf 4%Z];
                    Node [Leaf 5%Z; Leaf 6%Z]]) in
  run_world 2 (imap (λ r w, allgather 0%Z (mkComm 2 r) w.1 w.2) (zip ps As)) =
    Some [Ok G; Ok G].
Proof.
  intros a0 a1 ps As G.
  destruct (allgather_collects 0%Z 2 0 2 [3; 2] () ps As) as (G' & Hglob & Hrun).
  - lia.
  - lia.
  - split_and!; [reflexivity|reflexivity|simpl; lia|].
    intros [|[|r]] p A Hp HA; simpl in Hp, HA; try discriminate;
      injection Hp as <-; injection HA as <-; (split; [reflexivity|]);
      eexists; (split; [reflexivity|]); (split; [reflexivity|]); repeat (constructor; simpl).
  - vm_compute in Hglob. injection Hglob as <-. exact Hrun.
Defined.

(** ** __new__ *)

Section new_facts.
Context {T dtype : Type}.
Variable uninit : T.

(** A range of an axis of a constant array is a constant array. *)
Lemma slice_items_const (s : list nat) (k lo hi : nat) (x : T) :
  slice_items k lo hi (full s x) = full (alter (λ n, (hi - lo) `min` (n - lo)) k s) x.
Proof.
  revert k. induction s as [|n s IH]; intros k; [by destruct k|].
  destruct k as [|k]; cbn [full slice_items alter list_alter].
  - by rewrite drop_replicate, take_replicate.
  - by rewrite fmap_replicate, IH.
Qed.

(** X15.  Every rank of a communicator of [sz] ranks makes an array of
    the same global shape over an axis of that shape, with the default
    communicator.  The arrays are the balanced layout of the global
    shape: rank [r] has a new buffer of its share of the axis, the rest
    of its memory is as before, and the local buffers join to an array
    of the global shape. *)
Theorem new_distributed (sz ax : nat) (gs : list nat) (dt : dtype)
    (ps : list (process T)) :
  0 < sz → length ps = sz → ax < length gs →
  (∀ r p, ps !! r = Some p → world p = Some (mkComm sz r)) →
  ∃ outs,
    (λ p, __new__ uninit p gs ax None dt) <$> ps = Ok <$> outs ∧
    distributed sz gs ax dt (outs.*1) (outs.*2) ∧
    global_array (outs.*1) (outs.*2) = Ok (mk_ndarray gs (full gs uninit)) ∧
    ∀ r p, ps !! r = Some p →
      outs !! r =
        Some (mkProcess (world p)
                (mem p ++ [mk_ndarray (<[ax := extent (default 0 (gs !! ax)) sz r]> gs)
                             (full (<[ax := extent (default 0 (gs !! ax)) sz r]> gs) uninit)]),
              metadata sz gs ax dt r (length (mem p))).
Proof.
  intros Hsz Hlp Hax Hworld.
  destruct (lookup_lt_is_Some_2 gs ax Hax) as [n Hn].
  set (out := λ (r : nat) (p : process T),
         (mkProcess (world p)
            (mem p ++ [mk_ndarray (<[ax := extent n sz r]> gs)
                         (full (<[ax := extent n sz r]> gs) uninit)]),
          metadata sz gs ax dt r (length (mem p)))).
  assert (∀ r p, ps !! r = Some p → __new__ uninit p gs ax None dt = Ok (out r p)) as Hnew.
  { intros r p Hp. pose proof (lookup_lt_Some _ _ _ Hp) as Hr. rewrite Hlp in Hr.
    unfold __new__. rewrite (Hworld r p Hp), Hn. cbn [of_option mbind result_bind].
    rewrite split_local_eq by done. unfold out, metadata, alloc.
    rewrite Hn, (Hworld r p Hp). done. }
  assert (∀ r, imap out ps !! r = (λ p, out r p) <$> ps !! r) as Hout
    by (intros r; apply list_lookup_imap).
  assert (sections_of (full gs uninit) sz gs ax dt (imap out ps).*1 (imap out ps).*2)
    as Hsec.
  { split_and!; [by rewrite length_fmap, length_imap..|done|].
    intros r p A Hp HA. rewrite list_lookup_fmap, Hout in Hp. rewrite list_lookup_fmap, Hout in HA.
    destruct (ps !! r) as [p0|] eqn:Hp0; [|done].
    pose proof (lookup_lt_Some _ _ _ Hp0) as Hr. rewrite Hlp in Hr.
    cbn in Hp, HA. injection Hp as <-. injection HA as <-.
    split; [done|]. cbn [mem base metadata _local_shape].
    rewrite list_lookup_middle by done. rewrite Hn. cbn [default from_option id].
    do 2 f_equal. unfold section_of. rewrite Hn. cbn [default from_option id].
    rewrite slice_items_const, (list_alter_lookup _ _ _ _ Hn). f_equal. f_equal.
    pose proof (offset_of_S n sz r). pose proof (offset_of_le n sz (S r) Hsz ltac:(lia)).
    lia. }
  exists (imap out ps). split_and!.
  - apply list_eq. intros r. rewrite !list_lookup_fmap, Hout.
    destruct (ps !! r) as [p|] eqn:Hp; [|done]. cbn. f_equal. by eapply Hnew.
  - destruct Hsec as (Hl1 & Hl2 & _ & Hsec). split_and!; [done..|].
    intros r p A Hp HA. destruct (Hsec r p A Hp HA) as [Hmeta Hmem].
    split; [done|]. eexists. split; [done|]. split; [done|].
    unfold wf_ndarray. cbn [shape items]. rewrite Hmeta. cbn [metadata _local_shape].
    apply section_of_shape; [apply full_shape|done|].
    apply lookup_lt_Some in Hp. by rewrite length_fmap, length_imap, Hlp in Hp.
  - apply (sections_global_array _ sz ax gs dt); [done|apply full_shape|done].
  - intros r p Hp. rewrite Hout, Hp. cbn. unfold out. by rewrite Hn.
Qed.

End new_facts.

Lemma new_distributed_witness :
  let ps := [mkProcess (Some (mkComm 2 0)) []; mkProcess (Some (mkComm 2 1)) []] in
  (λ p, __new__ 0%Z p [3; 2] 0 None ()) <$> ps =
    [Ok (mkProcess (Some (mkComm 2 0)) [mk_ndarray [2; 2] (full [2; 2] 0%Z)],
         metadata 2 [3; 2] 0 () 0 0);
     Ok (mkProcess (Some (mkComm 2 1)) [mk_ndarray [1; 2] (full [1; 2] 0%Z)],
         metadata 2 [3; 2] 0 () 1 0)].
Proof.
  intros ps.
  destruct (new_distributed 0%Z 2 0 [3; 2] () ps) as (outs & Hrun & _ & _ & Hout).
  - lia.
  - reflexivity.
  - simpl. lia.
  - intros [|[|r]] p Hp; simpl in Hp; try discriminate; by injection Hp as <-.
  - pose proof (Hout 0 _ eq_refl) as Ho0. pose proof (Hout 1 _ eq_refl) as Ho1.
    assert (length outs = 2) as Hl
      by (apply (f_equal length) in Hrun; by rewrite !length_fmap in Hrun).
    destruct outs as [|o0 [|o1 [|]]]; try discriminate.
    injection Ho0 as ->. injection Ho1 as ->. exact Hrun.
Defined.

(** ** transpose *)

Section tabulate_facts.
Context {T : Type}.
Implicit Types (a : nested T) (s idx : list nat).

Lemma tabulate_shape s (f : list nat → T) : has_shape s (tabulate s f).
Proof.
  revert f. induction s as [|n s IH]; intros f; [done|]. cbn [tabulate has_shape].
  split; [by rewrite length_fmap, length_seq|]. apply Forall_fmap, Forall_forall.
  intros i _. apply IH.
Qed.

Lemma item_tabulate s (f : list nat → T) idx :
  Forall2 lt idx s → item (tabulate s f) idx = Some (f idx).
Proof.
  intros Hidx. revert f. induction Hidx as [|i n idx s Hi Hidx IH]; intros f; [done|].
  cbn [tabulate item]. rewrite list_lookup_fmap, lookup_seq_lt by done.
  cbn [fmap option_fmap option_map mbind option_bind Nat.add]. apply IH.
Qed.

Lemma tabulate_ext s (f g : list nat → T) :
  (∀ idx, Forall2 lt idx s → f idx = g idx) → tabulate s f = tabulate s g.
Proof.
  revert f g. induction s as [|n s IH]; intros f g Hfg; cbn [tabulate].
  - f_equal. by apply Hfg.
  - f_equal. apply list_fmap_ext. intros k i Hi.
    apply lookup_seq in Hi as [Heq Hk].
    apply IH. intros idx Hidx. apply Hfg. constructor; [lia|done].
Qed.

(** An array is the table of its elements. *)
Lemma tabulate_item (d : T) s a :
  has_shape s a → tabulate s (λ idx, default d (item a idx)) = a.
Proof.
  revert a. induction s as [|n s IH]; intros a Ha.
  - by apply has_shape_nil in Ha as [x ->].
  - apply has_shape_cons in Ha as (xs & -> & Hlen & Hxs). cbn [tabulate]. f_equal.
    apply list_eq. intros i. rewrite list_lookup_fmap.
    destruct (xs !! i) as [x|] eqn:Hx.
    + pose proof (lookup_lt_Some _ _ _ Hx) as Hi.
      rewrite lookup_seq_lt by lia. cbn [fmap option_fmap option_map Nat.add]. f_equal.
      etrans; [|apply (IH x); by eapply Forall_lookup_1 in Hxs].
      apply tabulate_ext. intros idx _. cbn [item]. by rewrite Hx.
    + apply lookup_ge_None in Hx. by rewrite lookup_seq_ge by lia.
Qed.

(** Only an index inside of the shape has an element. *)
Lemma item_Some_range s a idx (x : T) :
  has_shape s a → item a idx = Some x → Forall2 lt idx s.
Proof.
  revert a idx. induction s as [|n s IH]; intros a idx Ha Hit.
  - apply has_shape_nil in Ha as [y ->]. destruct idx; [constructor|done].
  - apply has_shape_cons in Ha as (xs & -> & Hlen & Hxs).
    destruct idx as [|i idx]; [done|]. cbn [item] in Hit.
    destruct (xs !! i) as [y|] eqn:Hy; [|done]. cbn in Hit. constructor.
    + apply lookup_lt_Some in Hy. lia.
    + eapply IH; [|done]. by eapply Forall_lookup_1 in Hxs.
Qed.

End tabulate_facts.

Section source_index_facts.

Lemma scatter_length (perm idx acc : list nat) :
  length (foldr (λ (mi : nat * nat) acc, <[mi.1 := mi.2]> acc) acc (zip perm idx))
  = length acc.
Proof.
  revert idx. induction perm as [|a perm IH]; intros [|i idx]; cbn; try done.
  by rewrite length_insert.
Qed.

Lemma scatter_lookup (perm idx acc : list nat) (j k : nat) :
  NoDup perm → perm !! j = Some k → k < length acc → length idx = length perm →
  foldr (λ (mi : nat * nat) acc, <[mi.1 := mi.2]> acc) acc (zip perm idx) !! k = idx !! j.
Proof.
  intros Hnd. revert idx j. induction Hnd as [|a perm Ha Hnd IH]; intros idx j Hj Hk Hlen;
    [done|].
  destruct idx as [|i idx]; [done|]. cbn [zip zip_with foldr fst snd].
  destruct j as [|j]; cbn in Hj.
  - injection Hj as ->. rewrite list_lookup_insert_eq; [done|]. by rewrite scatter_length.
  - assert (a ≠ k) as Hne.
    { intros ->. apply Ha. by eapply list_elem_of_lookup_2. }
    rewrite list_lookup_insert_ne by done.
    rewrite (IH idx j); [done..|]. simpl in Hlen. lia.
Qed.

(** For a permutation of the axes: the source index has at axis
    [perm[m]] what the index has at [m]. *)
Lemma source_index_perm (perm idx : list nat) :
  perm ≡ₚ seq 0 (length perm) → length idx = length perm →
  (λ k, default 0 (source_index perm idx !! k)) <$> perm = idx.
Proof.
  intros Hperm Hlen. assert (NoDup perm) as Hnd by (rewrite Hperm; apply NoDup_seq).
  apply list_eq. intros j. rewrite list_lookup_fmap.
  destruct (perm !! j) as [k|] eqn:Hk.
  - cbn. unfold source_index. rewrite (scatter_lookup perm idx _ j k); [|done..| |done].
    + destruct (lookup_lt_is_Some_2 idx j) as [i ->]; [|done].
      apply lookup_lt_Some in Hk. lia.
    + rewrite length_replicate. apply list_elem_of_lookup_2 in Hk. rewrite Hperm in Hk.
      apply elem_of_seq in Hk. lia.
  - cbn. symmetry. apply lookup_ge_None. apply lookup_ge_None in Hk. lia.
Qed.

End source_index_facts.

Section permuted_facts.

Lemma source_index_inv (perm idx : list nat) :
  perm ≡ₚ seq 0 (length idx) →
  source_index perm ((λ k, default 0 (idx !! k)) <$> perm) = idx.
Proof.
  intros Hperm. assert (NoDup perm) as Hnd by (rewrite Hperm; apply NoDup_seq).
  assert (length perm = length idx) as Hlen
    by (by rewrite Hperm, length_seq).
  apply list_eq. intros k. unfold source_index.
  destruct (decide (k < length idx)) as [Hk|Hk].
  - assert (k ∈ perm) as Hin by (rewrite Hperm; apply elem_of_seq; lia).
    apply list_elem_of_lookup_1 in Hin as [j Hj].
    rewrite (scatter_lookup perm _ _ j k); [|done..| |].
    + rewrite list_lookup_fmap, Hj. cbn.
      by destruct (lookup_lt_is_Some_2 idx k Hk) as [i ->].
    + rewrite length_replicate. lia.
    + by rewrite length_fmap.
  - rewrite (lookup_ge_None_2 idx) by lia. apply lookup_ge_None.
    rewrite scatter_length, length_replicate. lia.
Qed.

(** Taking the entries of a list in the order [perm], after one entry
    has been replaced. *)
Lemma permute_insert (perm gs : list nat) (j ax v : nat) :
  NoDup perm → perm !! j = Some ax → ax < length gs →
  (λ k, default 0 (<[ax := v]> gs !! k)) <$> perm
  = <[j := v]> ((λ k, default 0 (gs !! k)) <$> perm).
Proof.
  intros Hnd Hj Hax. apply list_eq. intros i. rewrite list_lookup_fmap.
  destruct (decide (i = j)) as [->|Hne].
  - rewrite Hj, list_lookup_insert_eq by (rewrite length_fmap; by eapply lookup_lt_Some).
    cbn. by rewrite list_lookup_insert_eq.
  - rewrite list_lookup_insert_ne, list_lookup_fmap by done.
    destruct (perm !! i) as [k|] eqn:Hk; [|done]. cbn.
    rewrite list_lookup_insert_ne; [done|]. intros ->.
    by pose proof (NoDup_lookup _ _ _ _ Hnd Hj Hk).
Qed.

Lemma permute_zeros (perm : list nat) (n : nat) :
  (λ k, default 0 (replicate n 0 !! k)) <$> perm = replicate (length perm) 0.
Proof.
  induction perm as [|k perm IH]; [done|]. cbn [fmap list_fmap length replicate].
  rewrite IH. f_equal. destruct (replicate n 0 !! k) as [x|] eqn:Hx; [|done].
  by apply lookup_replicate in Hx as [-> _].
Qed.

Lemma permute_reverse (gs : list nat) :
  (λ k, default 0 (gs !! k)) <$> reverse (seq 0 (length gs)) = reverse gs.
Proof.
  rewrite fmap_reverse. f_equal. apply list_eq. intros i. rewrite list_lookup_fmap.
  destruct (gs !! i) as [x|] eqn:Hx.
  - rewrite lookup_seq_lt by (by eapply lookup_lt_Some). cbn. by rewrite Hx.
  - rewrite lookup_seq_ge; [done|]. by apply lookup_ge_None.
Qed.

Lemma mapM_result_ok {A B} (f : A → result B) (g : A → B) (l : list A) :
  Forall (λ x, f x = Ok (g x)) l → mapM f l = Ok (g <$> l).
Proof.
  induction 1 as [|x l Hx Hl IH]; [done|]. cbn [mapM fmap list_fmap].
  rewrite Hx. cbn [mbind result_bind]. rewrite IH. done.
Qed.

Lemma tuple_items_nat (t perm : list nat) :
  Forall (λ k, k < length t) perm →
  mapM (tuple_item t) (Z.of_nat <$> perm) = Ok ((λ k, default 0 (t !! k)) <$> perm).
Proof.
  intros Hperm.
  rewrite (mapM_result_ok _ (λ z, default 0 (t !! Z.to_nat z))).
  - rewrite <-list_fmap_compose. f_equal. apply list_fmap_ext. intros _ k _. cbn.
    by rewrite Nat2Z.id.
  - apply Forall_fmap. eapply Forall_impl; [done|]. intros k Hk. unfold compose.
    cbn beta in Hk. unfold tuple_item, int_position.
    rewrite (decide_False (P := (Z.of_nat k < 0)%Z)) by lia.
    rewrite decide_True by lia. cbn [mbind result_bind]. rewrite Nat2Z.id.
    by destruct (lookup_lt_is_Some_2 t k Hk) as [x ->].
Qed.

Lemma transpose_axes_nat (perm : list nat) (n : nat) :
  perm ≡ₚ seq 0 n → transpose_axes n (Some (Z.of_nat <$> perm)) = Ok perm.
Proof.
  intros Hperm. unfold transpose_axes.
  assert (mapM (λ z, match int_position z n with Ok k => Some k | Raise _ => None end)
            (Z.of_nat <$> perm) = Some perm) as ->.
  { apply mapM_Some_2. apply Forall2_fmap_l, Forall_Forall2_diag, Forall_forall.
    intros k Hk. rewrite Hperm in Hk. apply elem_of_seq in Hk.
    unfold compose. cbn beta. unfold int_position. rewrite (decide_False (P := (Z.of_nat k < 0)%Z)) by lia.
    rewrite decide_True by lia. by rewrite Nat2Z.id. }
  rewrite decide_True; [done|]. split.
  - by rewrite Hperm, length_seq.
  - rewrite Hperm. apply NoDup_seq.
Qed.

Lemma index_of_axis (perm : list nat) (j ax : nat) :
  NoDup perm → perm !! j = Some ax →
  list_find (λ z, z = Z.of_nat ax) (Z.of_nat <$> perm) = Some (j, Z.of_nat ax).
Proof.
  intros Hnd Hj. apply list_find_Some. split_and!.
  - by rewrite list_lookup_fmap, Hj.
  - done.
  - intros i z Hi Hlt Hz. rewrite list_lookup_fmap in Hi.
    destruct (perm !! i) as [k|] eqn:Hk; [|done]. cbn in Hi. injection Hi as <-.
    apply Nat2Z.inj in Hz as ->. pose proof (NoDup_lookup _ _ _ _ Hnd Hj Hk). lia.
Qed.

End permuted_facts.

Section transpose_facts.
Context {T dtype : Type}.
Variable uninit : T.

(** The transposed view of rank [r]'s part of a balanced layout, for axes
    that are a permutation of the axes, given as they are. *)
Lemma transpose_view_perm (sz ax r j : nat) (gs perm : list nat) (dt : dtype) (l : loc)
    (local : ndarray T) :
  perm ≡ₚ seq 0 (length gs) → perm !! j = Some ax →
  shape local = _local_shape (metadata sz gs ax dt r l) →
  let m' := metadata sz ((λ k, default 0 (gs !! k)) <$> perm) j dt r l in
  transpose_view uninit (metadata sz gs ax dt r l) local (Axes (Z.of_nat <$> perm))
  = Ok (m', mk_ndarray (_local_shape m')
              (tabulate (_local_shape m')
                 (λ idx, default uninit (item (items local) (source_index perm idx))))).
Proof.
  intros Hperm Hj Hsh m'.
  assert (NoDup perm) as Hnd by (rewrite Hperm; apply NoDup_seq).
  assert (length perm = length gs) as Hlen by (by rewrite Hperm, length_seq).
  assert (Forall (λ k, k < length gs) perm) as Hlt.
  { apply Forall_forall. intros k Hk. rewrite Hperm in Hk. apply elem_of_seq in Hk. lia. }
  assert (ax < length gs) as Hax.
  { eapply Forall_lookup_1 in Hlt; [|done]. done. }
  assert (j < length perm) as Hjlt by (by eapply lookup_lt_Some).
  set (gs' := (λ k, default 0 (gs !! k)) <$> perm).
  assert (gs' !! j = Some (default 0 (gs !! ax))) as Hgj
    by (unfold gs'; by rewrite list_lookup_fmap, Hj).
  assert (_local_shape m' = (λ k, default 0 (shape local !! k)) <$> perm) as Hls.
  { rewrite Hsh. unfold m'. cbn [metadata _local_shape]. fold gs'. rewrite Hgj.
    cbn [default from_option id]. by rewrite (permute_insert perm gs j ax). }
  unfold transpose_view, np_transpose. rewrite Hsh at 1.
  cbn [metadata _local_shape]. rewrite length_insert.
  rewrite transpose_axes_nat by done. cbn [mbind result_bind shape].
  rewrite <-Hls.
  unfold __array_finalize__. cbn [metadata _global_shape _axis _comm _local_shape].
  destruct (lookup_lt_is_Some_2 gs ax Hax) as [n Hn]. rewrite Hn.
  cbn [of_option mbind result_bind default from_option id].
  destruct (lookup_lt_is_Some_2 (_local_shape m') ax) as [e He].
  { unfold m'. cbn [metadata _local_shape]. rewrite length_insert. unfold gs'.
    rewrite length_fmap. lia. }
  rewrite He. cbn [of_option mbind result_bind].
  destruct (split_local n (Some (mkComm sz r))) as [[? ?] ?]. cbn [mbind result_bind].
  cbn [metadata _local_offset _dtype base].
  rewrite (tuple_items_nat gs) by done. cbn [mbind result_bind].
  rewrite (tuple_items_nat (<[ax := _]> gs)) by (by rewrite length_insert).
  cbn [mbind result_bind].
  rewrite (tuple_items_nat (<[ax := _]> (replicate _ 0)))
    by (by rewrite length_insert, length_replicate).
  cbn [mbind result_bind].
  rewrite (index_of_axis perm j ax) by done.
  cbn [fmap option_fmap option_map of_option fst mbind result_bind _dtype base].
  do 2 f_equal. unfold m', metadata. fold gs'. rewrite Hgj, Hn.
  cbn [default from_option id].
  rewrite (permute_insert perm gs j ax) by done.
  rewrite (permute_insert perm _ j ax) by (by rewrite ?length_replicate).
  rewrite permute_zeros. unfold gs'. by rewrite length_fmap.
Qed.

Lemma transposed_local_shape (sz ax r j : nat) (gs perm : list nat) (dt : dtype) (l : loc) :
  perm ≡ₚ seq 0 (length gs) → perm !! j = Some ax →
  _local_shape (metadata sz ((λ k, default 0 (gs !! k)) <$> perm) j dt r l)
  = (λ k, default 0 (_local_shape (metadata sz gs ax dt r l) !! k)) <$> perm.
Proof.
  intros Hperm Hj. assert (NoDup perm) as Hnd by (rewrite Hperm; apply NoDup_seq).
  assert (ax < length gs) as Hax.
  { apply list_elem_of_lookup_2 in Hj. rewrite Hperm in Hj. apply elem_of_seq in Hj. lia. }
  cbn [metadata _local_shape]. rewrite list_lookup_fmap, Hj. cbn [fmap option_fmap option_map].
  cbn [default from_option id]. by rewrite (permute_insert perm gs j ax).
Qed.

Lemma permute_range (perm idx s : list nat) :
  Forall2 lt idx s → Forall (λ k, k < length s) perm →
  Forall2 lt ((λ k, default 0 (idx !! k)) <$> perm) ((λ k, default 0 (s !! k)) <$> perm).
Proof.
  intros Hidx Hperm. apply Forall2_fmap, Forall_Forall2_diag.
  eapply Forall_impl; [done|]. intros k Hk. cbn beta in Hk.
  destruct (lookup_lt_is_Some_2 s k Hk) as [n Hn].
  destruct (lookup_lt_is_Some_2 idx k) as [i Hi];
    [by rewrite (Forall2_length _ _ _ Hidx)|].
  rewrite Hn, Hi. cbn. by eapply Forall2_lookup_lr.
Qed.

Lemma transpose_view_default (self : MPIArray dtype) (local : ndarray T) :
  transpose_view uninit self local NoAxes
  = transpose_view uninit self local
      (Axes (Z.of_nat <$> reverse (seq 0 (length (shape local))))).
Proof.
  unfold transpose_view, np_transpose.
  rewrite transpose_axes_nat by apply reverse_Permutation. done.
Qed.

Lemma source_index_reverse (n : nat) (idx : list nat) :
  length idx = n → source_index (reverse (seq 0 n)) idx = reverse idx.
Proof.
  intros <-. pose proof (source_index_inv (reverse (seq 0 (length idx))) (reverse idx)) as H.
  rewrite length_reverse in H. specialize (H (reverse_Permutation _)).
  rewrite <-(length_reverse idx), permute_reverse, reverse_involutive in H.
  by rewrite length_reverse in H.
Qed.

(** X16.  Rank [r]'s part of a balanced layout is transposed with axes
    that are a permutation of the axes, the distributed axis at place
    [j].  The result is rank [r]'s part of the balanced layout of the
    permuted global shape along axis [j], as a view of the same buffer;
    its contents have the permuted local shape, and the element the
    array has at an index is in the view at the permuted index. *)
Theorem transpose_layout (sz ax r j : nat) (gs perm : list nat) (dt : dtype) (l : loc)
    (p : process T) (local : ndarray T) :
  perm ≡ₚ seq 0 (length gs) → perm !! j = Some ax →
  mem p !! l = Some local →
  shape local = _local_shape (metadata sz gs ax dt r l) → wf_ndarray local →
  let m' := metadata sz ((λ k, default 0 (gs !! k)) <$> perm) j dt r l in
  ∃ a',
    transpose uninit p (metadata sz gs ax dt r l) (Axes (Z.of_nat <$> perm))
      = Ok (View m' a') ∧
    shape a' = _local_shape m' ∧ wf_ndarray a' ∧
    ∀ idx x, item (items local) idx = Some x →
      item (items a') ((λ k, default 0 (idx !! k)) <$> perm) = Some x.
Proof.
  intros Hperm Hj Hmem Hsh Hwf m'. eexists. split; [|split_and!].
  - unfold transpose, local_array. cbn [metadata base]. rewrite Hmem.
    cbn [of_option mbind result_bind]. fold (metadata sz gs ax dt r l).
    rewrite (transpose_view_perm sz ax r j) by done. done.
  - done.
  - apply tabulate_shape.
  - intros idx x Hit. cbn [items snd].
    pose proof (item_Some_range _ _ _ _ Hwf Hit) as Hrange.
    pose proof (Forall2_length _ _ _ Hrange) as Hlen.
    assert (length (shape local) = length gs) as Hlsh
      by (rewrite Hsh; cbn [metadata _local_shape]; by rewrite length_insert).
    rewrite item_tabulate.
    + rewrite source_index_inv by (by rewrite Hlen, Hlsh). by rewrite Hit.
    + fold m'. unfold m'. rewrite (transposed_local_shape sz ax r j) by done.
      rewrite <-Hsh. apply permute_range; [done|].
      apply Forall_forall. intros k Hk. rewrite Hperm in Hk. apply elem_of_seq in Hk. lia.
Qed.

Lemma reversed_local_shape (sz ax r : nat) (gs : list nat) (dt : dtype) (l : loc) :
  ax < length gs →
  _local_shape (metadata sz (reverse gs) (length gs - 1 - ax) dt r l)
  = reverse (_local_shape (metadata sz gs ax dt r l)).
Proof.
  intros Hax.
  pose proof (transposed_local_shape sz ax r (length gs - 1 - ax) gs
                (reverse (seq 0 (length gs))) dt l (reverse_Permutation _)) as H.
  rewrite permute_reverse in H. rewrite H.
  - assert (length (_local_shape (metadata sz gs ax dt r l)) = length gs) as <-
      by (cbn [metadata _local_shape]; by rewrite length_insert).
    apply permute_reverse.
  - rewrite reverse_lookup by (rewrite length_seq; lia).
    rewrite length_seq. rewrite lookup_seq_lt by lia. f_equal. lia.
Qed.

(** X17.  Transposing with no argument reverses the axes: the
    distributed axis [ax] of [n] axes becomes axis [n - 1 - ax], the
    global shape is reversed, and transposing the result again gives the
    array and its contents back. *)
Theorem transpose_twice (sz ax r : nat) (gs : list nat) (dt : dtype) (l : loc)
    (local : ndarray T) :
  ax < length gs →
  shape local = _local_shape (metadata sz gs ax dt r l) → wf_ndarray local →
  ∃ a',
    transpose_view uninit (metadata sz gs ax dt r l) local NoAxes
      = Ok (metadata sz (reverse gs) (length gs - 1 - ax) dt r l, a') ∧
    transpose_view uninit (metadata sz (reverse gs) (length gs - 1 - ax) dt r l) a' NoAxes
      = Ok (metadata sz gs ax dt r l, local).
Proof.
  intros Hax Hsh Hwf.
  assert (length (shape local) = length gs) as Hlsh
    by (rewrite Hsh; cbn [metadata _local_shape]; by rewrite length_insert).
  assert (∀ n i, i < n → reverse (seq 0 n) !! (n - 1 - i) = Some i) as Hrev.
  { intros n i Hi. rewrite reverse_lookup by (rewrite length_seq; lia).
    rewrite length_seq. rewrite lookup_seq_lt by lia. f_equal. lia. }
  set (m' := metadata sz (reverse gs) (length gs - 1 - ax) dt r l).
  set (f1 := λ idx, default uninit
                      (item (items local) (source_index (reverse (seq 0 (length gs))) idx))).
  exists (mk_ndarray (_local_shape m') (tabulate (_local_shape m') f1)). split.
  - rewrite transpose_view_default, Hlsh.
    rewrite (transpose_view_perm sz ax r (length gs - 1 - ax));
      [|apply reverse_Permutation|by apply Hrev|done].
    by rewrite permute_reverse.
  - rewrite transpose_view_default. cbn [shape].
    assert (length (_local_shape m') = length (reverse gs)) as ->
      by (unfold m'; cbn [metadata _local_shape]; by rewrite length_insert).
    assert (length gs - 1 - (length gs - 1 - ax) = ax) as Hback by lia.
    unfold m'.
    rewrite (transpose_view_perm sz (length gs - 1 - ax) r ax (reverse gs));
      [|apply reverse_Permutation| |done].
    + rewrite permute_reverse, reverse_involutive. do 2 f_equal.
      destruct local as [ls its]. cbn [shape items] in *. rewrite <-Hsh. f_equal.
      etrans; [|by apply (tabulate_item uninit ls its)].
      apply tabulate_ext. intros idx Hidx.
      pose proof (Forall2_length _ _ _ Hidx) as Hlen.
      assert (length idx = length gs) as Hli by congruence.
      rewrite length_reverse, source_index_reverse by done.
      fold m'. rewrite item_tabulate.
      * cbn [default from_option id]. unfold f1.
        rewrite source_index_reverse by (by rewrite length_reverse).
        by rewrite reverse_involutive.
      * unfold m'. rewrite reversed_local_shape, <-Hsh by done. by apply Forall2_reverse.
    + rewrite length_reverse.
      pose proof (Hrev (length gs) (length gs - 1 - ax) ltac:(lia)) as H.
      by rewrite Hback in H.
Qed.

(** X18.  [transpose] returns an array only when it is called without an
    argument, or with axes among which the distributed axis occurs as it
    is numbered, from 0: not with [None], and not with axes that name
    the distributed axis by a negative number. *)
Theorem transpose_returns_only (p : process T) (self : MPIArray dtype)
    (args : transpose_args) (v : fetched) :
  transpose uninit p self args = Ok v →
  args = NoAxes ∨ ∃ l, args = Axes l ∧ Z.of_nat (_axis self) ∈ l.
Proof.
  unfold transpose, transpose_view. intros Hret.
  destruct (local_array p self) as [local|]; cbn [mbind result_bind] in Hret; [|done].
  destruct (np_transpose _ _ _) as [tdata|]; cbn [mbind result_bind] in Hret; [|done].
  destruct (__array_finalize__ _ _) as [?|]; cbn [mbind result_bind] in Hret; [|done].
  destruct args as [| |l]; [by left|done|]. right. exists l. split; [done|].
  cbn [mbind result_bind] in Hret.
  destruct (mapM (tuple_item (_global_shape self)) l) as [?|];
    cbn [mbind result_bind] in Hret; [|done].
  destruct (mapM (tuple_item (_local_shape self)) l) as [?|];
    cbn [mbind result_bind] in Hret; [|done].
  destruct (mapM (tuple_item (_local_offset self)) l) as [?|];
    cbn [mbind result_bind] in Hret; [|done].
  destruct (list_find _ l) as [[i z]|] eqn:Hfind; [|done].
  apply list_find_Some in Hfind as (Hl & -> & _). by eapply list_elem_of_lookup_2.
Qed.

End transpose_facts.

Lemma transpose_layout_witness :
  let a := mk_ndarray [2; 3] (Node [Node [Leaf 1%Z; Leaf 2%Z; Leaf 3%Z];
                                    Node [Leaf 4%Z; Leaf 5%Z; Leaf 6%Z]]) in
  let p := mkProcess (Some (mkComm 2 0)) [a] in
  transpose 0%Z p (metadata 2 [2; 6] 1 () 0 0) (Axes [1; 0]%Z) =
    Ok (View (metadata 2 [6; 2] 0 () 0 0)
          (mk_ndarray [3; 2] (Node [Node [Leaf 1%Z; Leaf 4%Z]; Node [Leaf 2%Z; Leaf 5%Z];
                                    Node [Leaf 3%Z; Leaf 6%Z]]))).
Proof.
  intros a p.
  destruct (transpose_layout 0%Z 2 1 0 0 [2; 6] [1; 0] () 0 p a) as (a' & Hrun & _).
  - apply perm_swap.
  - reflexivity.
  - reflexivity.
  - reflexivity.
  - repeat (constructor; simpl).
  - pose proof Hrun as H. vm_compute in H. injection H as <-. exact Hrun.
Defined.

Lemma transpose_twice_witness :
  let a := mk_ndarray [2; 3] (Node [Node [Leaf 1%Z; Leaf 2%Z; Leaf 3%Z];
                                    Node [Leaf 4%Z; Leaf 5%Z; Leaf 6%Z]]) in
  let aT := mk_ndarray [3; 2] (Node [Node [Leaf 1%Z; Leaf 4%Z]; Node [Leaf 2%Z; Leaf 5%Z];
                                     Node [Leaf 3%Z; Leaf 6%Z]]) in
  transpose_view 0%Z (metadata 2 [2; 6] 1 () 0 0) a NoAxes
    = Ok (metadata 2 [6; 2] 0 () 0 0, aT) ∧
  transpose_view 0%Z (metadata 2 [6; 2] 0 () 0 0) aT NoAxes
    = Ok (metadata 2 [2; 6] 1 () 0 0, a).
Proof.
  intros a aT.
  destruct (transpose_twice 0%Z 2 1 0 [2; 6] () 0 a) as (a' & H1 & H2).
  - simpl. lia.
  - reflexivity.
  - repeat (constructor; simpl).
  - pose proof H1 as H. vm_compute in H. injection H as <-. split; [exact H1|exact H2].
Defined.

Lemma transpose_returns_only_witness :
  Axes [1; 0]%Z = NoAxes ∨ ∃ l, Axes [1; 0]%Z = Axes l ∧ Z.of_nat 1 ∈ l.
Proof.
  set (a := mk_ndarray [2; 3] (Node [Node [Leaf 1%Z; Leaf 2%Z; Leaf 3%Z];
                                     Node [Leaf 4%Z; Leaf 5%Z; Leaf 6%Z]])).
  apply (transpose_returns_only 0%Z (mkProcess (Some (mkComm 2 0)) [a])
           (metadata 2 [2; 6] 1 () 0 0) (Axes [1; 0]%Z)
           (View (metadata 2 [6; 2] 0 () 0 0)
              (mk_ndarray [3; 2] (Node [Node [Leaf 1%Z; Leaf 4%Z];
                                        Node [Leaf 2%Z; Leaf 5%Z];
                                        Node [Leaf 3%Z; Leaf 6%Z]])))).
  vm_compute. reflexivity.
Defined.

(** ** Reductions along an axis named from the end *)

Lemma extent_multiple (sz g r : nat) : 0 < sz → extent (sz * g) sz r = g.
Proof.
  intros Hsz. unfold extent. replace (sz * g) with (g * sz) by lia.
  rewrite Nat.div_mul, Nat.Div0.mod_mul by lia.
  rewrite bool_decide_eq_false_2 by lia. lia.
Qed.

Lemma offset_of_multiple (sz g r : nat) : 0 < sz → offset_of (sz * g) sz r = r * g.
Proof.
  intros Hsz. unfold offset_of. replace (sz * g) with (g * sz) by lia.
  rewrite Nat.div_mul, Nat.Div0.mod_mul by lia. lia.
Qed.

Section negative_axis.
Context {T dtype ufunc : Type}.
Variable nout : ufunc → nat.
Variable numpy : ufunc → method → list (option (ndarray T)) → option axis_arg →
  option bool → list (option (ndarray T)) → result (option (list (ndarray T * dtype))).

(** X19.  Every rank of the world reduces along an axis [k] behind the
    distributed axis [d], which is not axis 0, and names it by its
    negative number, without [keepdims] and without [out]; numpy answers
    on rank [r] with one result that has, less axis [k], rank [r]'s
    share in the balanced split over the world of the global shape.  The
    negative number is below [d], so the distributed axis is lowered all
    the same: every rank returns an MPIArray over a new buffer holding
    that result which is recorded as distributed along axis [d - 1].
    Every rank holds the whole extent [g] of that axis, the layout check
    of [wrap] passes, and the global extent recorded for it is [g] times
    the number of ranks, with offset [r * g] on rank [r]; axis [d] of
    the recorded global shape has the local extent of rank [r]. *)
Theorem reduce_negative_axis (u : ufunc) (d k n g fuel : nat) (gs : list nat)
    (dt : dtype) (ws : list (process T * list (operand dtype) * ndarray T)) :
  ws ≠ [] → 2 ≤ fuel → 0 < d → d < k → k < length gs →
  gs !! d = Some n → gs !! (d - 1) = Some g → nout u = 1 →
  let i := (Z.of_nat k - Z.of_nat (length gs))%Z in
  let kw := mk_kwargs (Some (AxisInt i)) [] None in
  (∀ r w, ws !! r = Some w →
     world w.1.1 = Some (mkComm (length ws) r) ∧
     Forall (shares_axis w.1.1 d) w.1.2 ∧ Exists is_mpi w.1.2 ∧
     numpy u Reduce (views w.1.1 w.1.2) (Some (AxisInt i)) None [] = Ok (Some [(w.2, dt)]) ∧
     shape w.2 = delete k (<[d := extent n (length ws) r]> gs)) →
  let sz := length ws in
  run_world fuel ((λ w, __array_ufunc__ ufunc nout numpy w.1.1 u Reduce w.1.2 kw) <$> ws) =
    Some (imap (λ r w,
            Ok (mkProcess (world w.1.1) (mem w.1.1 ++ [w.2]),
                RetOne (OpMPI (mkMPIArray
                                 (<[d - 1 := sz * g]>
                                    (delete k (<[d := extent n sz r]> gs)))
                                 (d - 1)
                                 (delete k (<[d := extent n sz r]> gs))
                                 (<[d - 1 := r * g]> (replicate (length gs - 1) 0))
                                 (Some (mkComm sz r)) dt (length (mem w.1.1))))))
          ws).
Proof.
  intros Hne Hfuel Hd Hdk Hk Hn Hg Hnout i kw Hws sz.
  assert (0 < sz) as Hsz by (unfold sz; destruct ws; [done|simpl; lia]).
  assert (∀ r w, ws !! r = Some w →
            shape w.2 !! (d - 1) = Some g ∧ boxed w.2 = w.2 ∧
            length (shape w.2) = length gs - 1) as Hshape.
  { intros r w Hw. destruct (Hws r w Hw) as (_ & _ & _ & _ & Hsh).
    assert (shape w.2 !! (d - 1) = Some g) as Hext.
    { rewrite Hsh, list_lookup_delete_lt by lia.
      by rewrite list_lookup_insert_ne by lia. }
    split_and!; [done| |].
    - unfold boxed. destruct (shape w.2); [done|done].
    - rewrite Hsh, length_delete, length_insert; [done|].
      apply lookup_lt_is_Some. rewrite length_insert. lia. }
  rewrite (array_ufunc_run nout numpy u Reduce kw d (d - 1) fuel dt ws); try done.
  2:{ simpl. intros [= Heq]. unfold i in Heq. lia. }
  2:{ intros r w Hw. destruct (Hws r w Hw) as (Hworld & Hin & Hex & Hnumpy & Hsh).
      destruct (Hshape r w Hw) as (Hext & Hbox & _).
      split_and!; try done.
      - rewrite Hbox, Hext. by eexists.
      - right. split; [intros Hnil; by rewrite Hnil in Hext|].
        unfold result_axis. cbn [names_reduce lookup list_lookup of_option mbind result_bind fst].
        destruct (shape w.2) eqn:Hs; [done|]. cbn [mbind result_bind].
        unfold reduced_axis. cbn [kw kw_keepdims kw_axis default from_option id].
        do 2 f_equal. unfold i. rewrite bool_decide_eq_true_2 by lia. lia. }
  assert ((λ w : process T * list (operand dtype) * ndarray T, axis_extent (d - 1) (boxed w.2))
            <$> ws = extent (sz * g) sz <$> seq 0 sz) as Hlens.
  { apply list_eq. intros r. rewrite !list_lookup_fmap.
    destruct (ws !! r) as [w|] eqn:Hw.
    - pose proof (lookup_lt_Some _ _ _ Hw) as Hr. rewrite lookup_seq_lt by done.
      destruct (Hshape r w Hw) as (Hext & Hbox & _). csimpl. f_equal.
      unfold axis_extent. by rewrite Hbox, Hext, extent_multiple.
    - apply lookup_ge_None in Hw. by rewrite lookup_seq_ge by (unfold sz; lia). }
  fold sz. rewrite Hlens, split_parts_sum by done.
  rewrite bool_decide_eq_true_2 by done.
  f_equal. apply imap_ext. intros r w Hw.
  destruct (Hws r w Hw) as (_ & _ & _ & _ & Hsh).
  destruct (Hshape r w Hw) as (_ & Hbox & Hlen). rewrite Hbox. do 3 f_equal.
  unfold wrapped. rewrite Hlen, offset_of_multiple by done. by rewrite Hsh.
Qed.

End negative_axis.

Lemma reduce_negative_axis_witness :
  let numpy := λ (_ : ()) (_ : method) (args : list (option (ndarray Z)))
                 (_ : option axis_arg) (_ : option bool) (_ : list (option (ndarray Z))),
    match args with
    | [Some a] =>
        Ok (Some [(mk_ndarray (delete 2 (shape a))
                     (match items a with
                      | Node xs =>
                          Node ((λ x, match x with
                                      | Node ys => Node ((λ y, Leaf (np_sum y)) <$> ys)
                                      | it => it
                                      end) <$> xs)
                      | it => it
                      end),
                   ())])
    | _ => Ok None
    end in
  let a0 := mk_ndarray [1; 1; 2] (Node [Node [Node [Leaf 1%Z; Leaf 2%Z]]]) in
  let a1 := mk_ndarray [1; 1; 2] (Node [Node [Node [Leaf 3%Z; Leaf 4%Z]]]) in
  let ws := [(mkProcess (Some (mkComm 2 0)) [a0], [OpMPI (metadata 2 [1; 2; 2] 1 () 0 0)]);
             (mkProcess (Some (mkComm 2 1)) [a1], [OpMPI (metadata 2 [1; 2; 2] 1 () 1 0)])] in
  run_world 2 ((λ w, __array_ufunc__ () (λ _, 1) numpy w.1 () Reduce w.2
                       (mk_kwargs (Some (AxisInt (-1)%Z)) [] None)) <$> ws) =
    Some [Ok (mkProcess (Some (mkComm 2 0)) [a0; mk_ndarray [1; 1] (Node [Node [Leaf 3%Z]])],
              RetOne (OpMPI (mkMPIArray [2; 1] 0 [1; 1] [0; 0] (Some (mkComm 2 0)) () 1)));
          Ok (mkProcess (Some (mkComm 2 1)) [a1; mk_ndarray [1; 1] (Node [Node [Leaf 7%Z]])],
              RetOne (OpMPI (mkMPIArray [2; 1] 0 [1; 1] [1; 0] (Some (mkComm 2 1)) () 1)))].
Proof.
  intros numpy a0 a1 ws.
  apply (reduce_negative_axis (λ _ : (), 1) numpy () 1 2 2 1 2 [1; 2; 2] ()
           [(mkProcess (Some (mkComm 2 0)) [a0], [OpMPI (metadata 2 [1; 2; 2] 1 () 0 0)],
             mk_ndarray [1; 1] (Node [Node [Leaf 3%Z]]));
            (mkProcess (Some (mkComm 2 1)) [a1], [OpMPI (metadata 2 [1; 2; 2] 1 () 1 0)],
             mk_ndarray [1; 1] (Node [Node [Leaf 7%Z]]))]);
    try (reflexivity || discriminate || (simpl; lia)).
  intros [|[|r]] w Hw; simpl in Hw; try discriminate; injection Hw as <-.
  - split_and!; try reflexivity.
    + repeat constructor; simpl; eauto.
    + left. by eexists.
  - split_and!; try reflexivity.
    + repeat constructor; simpl; eauto.
    + left. by eexists.
Defined.
